(** * heckle.js: a shallow embedding of the static-site build pipeline

    The development follows [src/heckle.js] function by function:
    [readContents], [readPosts], [gatherTags], [fillTemplate], [getURL],
    [ensureDirectories], [partialTemplate], [getLayout] and [generate]
    (with its inner [isExcluded] and [walkDir]).

    JavaScript strings are modelled by [string] (one [ascii] per code
    unit), numbers by their integer value in [Z], objects by insertion
    ordered association lists, exceptions by the [Res] error monad and
    the file system by a read-only source tree plus a trace of the
    operations the build performs. Where the identity of objects
    matters, in the context merge of [partialTemplate], values live in
    a store of cells and the functions on trees are shown to describe
    what the store version computes. *)

From stdpp Require Import gmap strings list.
From Stdlib Require Import ZArith Lia Ascii Sorted.

Local Open Scope Z_scope.

Set Warnings "-clear-no-such-hyp".

(** ** Exceptions *)

Inductive Err :=
| TypeError        (* property access on undefined, call of a non-function *)
| ReferenceError   (* an identifier that resolves to no binding *)
| SyntaxError      (* JSON.parse on text that is not JSON *)
| YAMLException    (* yaml.load on a malformed block *)
| FsError.         (* fs.* on a missing or ill-typed path *)

Inductive Res (A : Type) :=
| Ok (a : A)
| Throw (e : Err).
Arguments Ok {A} a.
Arguments Throw {A} e.

Global Instance Res_ret : MRet Res := @Ok.
Global Instance Res_bind : MBind Res := λ A B k r,
  match r with
  | Ok a => k a
  | Throw e => Throw e
  end.

(** ** Strings *)

Module Str.

(** The line feed, written [\n] in the source. *)
Definition nl : string := String "010" "".

Fixpoint len (s : string) : nat :=
  match s with
  | "" => O
  | String _ s' => S (len s')
  end.

Fixpoint drop (n : nat) (s : string) : string :=
  match n, s with
  | O, _ => s
  | S n', String _ s' => drop n' s'
  | S _, "" => ""
  end.

Fixpoint take (n : nat) (s : string) : string :=
  match n, s with
  | O, _ => ""
  | S n', String c s' => String c (take n' s')
  | S _, "" => ""
  end.

(** [strip_prefix p s] is [Some r] exactly when [s = p +:+ r]. *)
Fixpoint strip_prefix (p s : string) : option string :=
  match p, s with
  | "", _ => Some s
  | String a p', String b s' =>
      if decide (a = b) then strip_prefix p' s' else None
  | String _ _, "" => None
  end.

Definition starts_with (p s : string) : bool :=
  match strip_prefix p s with Some _ => true | None => false end.

(** The text before and after the first (leftmost) occurrence of [pat]. *)
Fixpoint split_first (pat s : string) : option (string * string) :=
  match strip_prefix pat s with
  | Some rest => Some ("", rest)
  | None =>
      match s with
      | "" => None
      | String c s' =>
          match split_first pat s' with
          | Some (a, b) => Some (String c a, b)
          | None => None
          end
      end
  end.

Definition occurs (pat s : string) : bool :=
  match split_first pat s with Some _ => true | None => false end.

(** [String.prototype.indexOf] and [search] with a literal pattern:
    the index of the first occurrence, [-1] when there is none. *)
Definition index_of (pat s : string) : Z :=
  match split_first pat s with
  | Some (a, _) => Z.of_nat (len a)
  | None => -1
  end.

(** [String.prototype.slice(start, stop)]: negative positions count from
    the end, both are clamped to the string. *)
Definition clamp (n : Z) (k : Z) : nat :=
  Z.to_nat (if k <? 0 then Z.max (n + k) 0 else Z.min k n).

Definition slice (s : string) (start : Z) (stop : option Z) : string :=
  let n := Z.of_nat (len s) in
  let from := clamp n start in
  let to := match stop with Some e => clamp n e | None => len s end in
  take (to - from) (drop from s).

Definition ends_with (suf s : string) : bool :=
  bool_decide (drop (len s - len suf) s = suf).

(** Split at the last occurrence of the character [c]. *)
Fixpoint split_last (c : ascii) (s : string) : option (string * string) :=
  match s with
  | "" => None
  | String a s' =>
      match split_last c s' with
      | Some (x, y) => Some (String a x, y)
      | None => if decide (a = c) then Some ("", s') else None
      end
  end.

Fixpoint forallb (f : ascii → bool) (s : string) : bool :=
  match s with
  | "" => true
  | String c s' => f c && forallb f s'
  end.

Definition has_char (c : ascii) (s : string) : bool :=
  negb (forallb (λ a, negb (bool_decide (a = c))) s).

(** [String.prototype.split(/\s+/)]: the pieces between maximal runs of
    white space; a run at either end leaves an empty piece there. *)
Definition is_space (c : ascii) : bool :=
  match c with
  | "009" | "010" | "011" | "012" | "013" | " " | "160" => true
  | _ => false
  end%char.

Fixpoint split_ws_go (cur : string) (in_run : bool) (s : string) : list string :=
  match s with
  | "" => [String.rev cur]
  | String c s' =>
      if is_space c
      then (if in_run then split_ws_go "" true s'
            else String.rev cur :: split_ws_go "" true s')
      else split_ws_go (String c cur) false s'
  end.

Definition split_ws (s : string) : list string := split_ws_go "" false s.

Fixpoint join (sep : string) (ss : list string) : string :=
  match ss with
  | [] => ""
  | [s] => s
  | s :: ss' => s +:+ sep +:+ join sep ss'
  end.

(** Split on every occurrence of the character [c] ([split("/")]). *)
Fixpoint split_on_go (c : ascii) (cur : string) (s : string) : list string :=
  match s with
  | "" => [String.rev cur]
  | String a s' =>
      if decide (a = c) then String.rev cur :: split_on_go c "" s'
      else split_on_go c (String a cur) s'
  end.

Definition split_on (c : ascii) (s : string) : list string := split_on_go c "" s.

Definition is_digit (c : ascii) : bool :=
  match Ascii.is_nat c with Some _ => true | None => false end.

(** [\w]: letters, digits and the underscore. *)
Definition is_word (c : ascii) : bool :=
  let n := N_of_ascii c in
  ((65 <=? n) && (n <=? 90) || (97 <=? n) && (n <=? 122)
   || (48 <=? n) && (n <=? 57) || (n =? 95))%N.

(** The characters the regular-expression dot refuses. *)
Definition is_line_terminator (c : ascii) : bool :=
  match c with "010" | "013" => true | _ => false end%char.

(** The value of a string of decimal digits ([ToNumber] on the groups
    of a match of [\d+]). *)
Fixpoint digits_value_go (acc : Z) (s : string) : Z :=
  match s with
  | "" => acc
  | String c s' =>
      match Ascii.is_nat c with
      | Some d => digits_value_go (10 * acc + Z.of_nat d) s'
      | None => acc
      end
  end.

Definition digits_value (s : string) : Z := digits_value_go 0 s.

(** The decimal numeral of a number, as [ToString] writes an integer. *)
Definition digit_char (d : N) : ascii := ascii_of_N (48 + d).

Fixpoint of_N_go (fuel : nat) (n : N) (acc : string) : string :=
  match fuel with
  | O => acc
  | S fuel' =>
      let acc' := String (digit_char (n mod 10)) acc in
      if (n <? 10)%N then acc' else of_N_go fuel' (n / 10) acc'
  end.

Definition of_N (n : N) : string := of_N_go (S (N.size_nat n)) n "".

Definition of_nat (n : nat) : string := of_N (N.of_nat n).

Definition of_Z (z : Z) : string :=
  match z with
  | Z0 => "0"
  | Zpos p => of_N (Npos p)
  | Zneg p => "-" +:+ of_N (Npos p)
  end.

End Str.

(** ** JavaScript values *)

Set Warnings "-register-all".

(** Objects keep their own enumerable properties in insertion order.
    Arrays and dates are objects too and may carry named properties of
    their own next to their elements or time value. A function value is
    opaque and known by its identity only. *)
Inductive Value :=
| VUndefined
| VNull
| VBool (b : bool)
| VNum (n : Z)
| VStr (s : string)
| VFun (f : nat)
| VObj (ps : list (string * Value))
| VArr (xs : list Value) (ps : list (string * Value))
| VDate (t : Z) (ps : list (string * Value)).

Abbreviation Props := (list (string * Value)).

Global Instance Value_inhabited : Inhabited Value := populate VUndefined.

Definition truthy (v : Value) : bool :=
  match v with
  | VUndefined | VNull => false
  | VBool b => b
  | VNum n => negb (n =? 0)
  | VStr s => negb (bool_decide (s = ""))
  | VFun _ | VObj _ | VArr _ _ | VDate _ _ => true
  end.

(** [a || b] *)
Definition js_or (a b : Value) : Value := if truthy a then a else b.

Fixpoint lookup_prop {A} (k : string) (ps : list (string * A)) : option A :=
  match ps with
  | [] => None
  | (k', v) :: ps' => if decide (k = k') then Some v else lookup_prop k ps'
  end.

(** Assignment to a property keeps the position of an existing key and
    appends a new one. *)
Fixpoint set_prop {A} (k : string) (v : A) (ps : list (string * A))
    : list (string * A) :=
  match ps with
  | [] => [(k, v)]
  | (k', v') :: ps' =>
      if decide (k = k') then (k, v) :: ps' else (k', v') :: set_prop k v ps'
  end.

(** A canonical array index: the decimal numeral of [i < 2^32 - 1]. *)
Definition array_index (k : string) : option N :=
  let n := Z.to_N (Str.digits_value k) in
  if bool_decide (Str.of_N n = k) && (n <? 4294967295)%N
  then Some n else None.

(** An index that falls inside a sequence of [len] elements. *)
Definition within (i : N) (len : nat) : bool := (i <? N.of_nat len)%N.

Definition is_object (v : Value) : bool :=
  match v with
  | VFun _ | VObj _ | VArr _ _ | VDate _ _ => true
  | _ => false
  end.

(** The named own properties of a value. *)
Definition named_props (v : Value) : Props :=
  match v with
  | VObj ps | VArr _ ps | VDate _ ps => ps
  | _ => []
  end.

(** [v[k]] as far as own data properties go; methods inherited from a
    prototype are resolved by [resolve] below. *)
Definition get (v : Value) (k : string) : Res Value :=
  match v with
  | VUndefined | VNull => Throw TypeError
  | VBool _ | VNum _ | VFun _ => Ok VUndefined
  | VStr s =>
      match array_index k with
      | Some i =>
          Ok (if within i (Str.len s)
              then VStr (Str.take 1 (Str.drop (N.to_nat i) s))
              else VUndefined)
      | None =>
          Ok (if bool_decide (k = "length")
              then VNum (Z.of_nat (Str.len s)) else VUndefined)
      end
  | VObj ps | VDate _ ps => Ok (default VUndefined (lookup_prop k ps))
  | VArr xs ps =>
      match array_index k with
      | Some i =>
          Ok (if within i (length xs)
              then default VUndefined (xs !! N.to_nat i) else VUndefined)
      | None =>
          Ok (if bool_decide (k = "length") then VNum (Z.of_nat (length xs))
              else default VUndefined (lookup_prop k ps))
      end
  end.

(** The total variant for a key read off a value known to be defined. *)
Definition field (k : string) (v : Value) : Value :=
  match get v k with Ok x => x | Throw _ => VUndefined end.

(** [v[k] = x] in sloppy mode, returning the receiver after the write:
    a primitive receiver ignores the write, [undefined] and [null]
    throw. Writing ["__proto__"] reaches the setter of Object.prototype
    and creates no own property. *)
Definition assign (v : Value) (k : string) (x : Value) : Res Value :=
  match v with
  | VUndefined | VNull => Throw TypeError
  | VBool _ | VNum _ | VStr _ | VFun _ => Ok v
  | VObj ps =>
      Ok (if bool_decide (k = "__proto__") then v else VObj (set_prop k x ps))
  | VDate t ps =>
      Ok (if bool_decide (k = "__proto__") then v else VDate t (set_prop k x ps))
  | VArr xs ps =>
      if bool_decide (k = "__proto__") then Ok v else
      match array_index k with
      | Some i =>
          Ok (if within i (length xs) then VArr (<[N.to_nat i := x]> xs) ps
              else VArr (xs ++ replicate (N.to_nat i - length xs) VUndefined
                            ++ [x]) ps)
      | None =>
          if bool_decide (k = "length") then
            match x with
            | VNum n =>
                if bool_decide (0 ≤ n) then
                  Ok (VArr (take (Z.to_nat n) xs
                            ++ replicate (Z.to_nat n - length xs) VUndefined) ps)
                else Throw TypeError
            | _ => Throw TypeError
            end
          else Ok (VArr xs (set_prop k x ps))
      end
  end.

(** Own enumerable keys come out with the array indices first, in
    ascending order, and the other keys in insertion order. *)
Fixpoint insert_by_index {A} (e : N * (string * A))
    (l : list (N * (string * A))) : list (N * (string * A)) :=
  match l with
  | [] => [e]
  | e' :: l' =>
      if (e.1 <=? e'.1)%N then e :: l
      else e' :: insert_by_index e l'
  end.

Definition enum_props {A} (ps : list (string * A)) : list (string * A) :=
  let indexed :=
    omap (λ p : string * A, (λ i, (i, p)) <$> array_index p.1) ps in
  let named :=
    filter (λ p : string * A, array_index p.1 = None) ps in
  (snd <$> foldr insert_by_index [] indexed) ++ named.

Definition element_props {A} (xs : list A) : list (string * A) :=
  imap (λ i x, (Str.of_nat i, x)) xs.

Fixpoint char_props (i : nat) (s : string) : Props :=
  match s with
  | "" => []
  | String c s' => (Str.of_nat i, VStr (String c "")) :: char_props (S i) s'
  end.

(** The properties a [for (k in v)] loop visits, with their values. *)
Definition for_in (v : Value) : Props :=
  match v with
  | VObj ps | VDate _ ps => enum_props ps
  | VArr xs ps => element_props xs ++ enum_props ps
  | VStr s => char_props 0 s
  | _ => []
  end.

(** [Object.keys(v)] paired with [v[key]]. *)
Definition object_entries (v : Value) : Res Props :=
  match v with
  | VUndefined | VNull => Throw TypeError
  | _ => Ok (for_in v)
  end.

(** The methods the program calls on values that come from data. *)
Inductive Method :=
| MForEach | MSplit | MIndexOf | MSome | MReplace | MHasOwnProperty.

Definition method_name (m : Method) : string :=
  match m with
  | MForEach => "forEach"
  | MSplit => "split"
  | MIndexOf => "indexOf"
  | MSome => "some"
  | MReplace => "replace"
  | MHasOwnProperty => "hasOwnProperty"
  end.

Definition inherits (v : Value) (m : Method) : bool :=
  match v, m with
  | VArr _ _, (MForEach | MIndexOf | MSome) => true
  | VStr _, (MSplit | MIndexOf | MReplace) => true
  | (VBool _ | VNum _ | VStr _ | VFun _ | VObj _ | VArr _ _ | VDate _ _),
    MHasOwnProperty => true
  | _, _ => false
  end.

(** What [v.m] evaluates to: an own property that shadows the method,
    the built-in method, or [undefined]. *)
Inductive Resolved :=
| Builtin
| Own (x : Value).

Definition resolve (v : Value) (m : Method) : Res Resolved :=
  match v with
  | VUndefined | VNull => Throw TypeError
  | _ =>
      match lookup_prop (method_name m) (named_props v) with
      | Some x => Ok (Own x)
      | None => Ok (if inherits v m then Builtin else Own VUndefined)
      end
  end.

Definition resolved_truthy (r : Resolved) : bool :=
  match r with
  | Builtin => true
  | Own x => truthy x
  end.

(** [v.m(...)] reaches the built-in only; any other value in that place
    is not callable (documents hold data, no functions). *)
Definition callable (v : Value) (m : Method) : Res unit :=
  r ← resolve v m;
  match r with
  | Builtin => Ok ()
  | Own _ => Throw TypeError
  end.

(** ** The collaborators outside the repository

    The YAML parser, the template engine, the Markdown renderer, the
    HTML escaping of mold-template and the parts of the JavaScript
    runtime that depend on the machine (time zone, date formatting) are
    black boxes; the build is stated over an arbitrary [Host]. *)
Record Host := {
  (** [yaml.load] of js-yaml; an empty document loads as [undefined] *)
  yaml_load : string → Res Value;
  (** [require(...)] of the Markdown renderer: the module named by
      [config.markdownRenderer], or the default one for [None] *)
  markdown_module : option string → Res (string → string);
  (** [Mold.prototype.escapeHTML], which converts its argument to a
      string and so may throw *)
  escapeHTML : Value → Res string;
  (** [Handlebars.compile(source)(context)], given the partials
      registered so far *)
  hb_render : list (string * string) → string → Value → Res string;
  (** the UTC time value of a local time, both in milliseconds *)
  utc_of_local : Z → Z;
  (** [Date.prototype.toString] and [toISOString] of a time value *)
  date_to_string : Z → string;
  date_to_iso : Z → string;
  (** [Number.prototype.toString] of an integer beyond the safe
      integers, where the digits printed are the shortest that read
      back as the same double, in exponent form from [1e21] on *)
  big_number_to_string : Z → string;
  (** the source text of a function value ([Function.prototype.toString]) *)
  fun_source : nat → string;
  (** a function value called as the replacer of [String.prototype.replace]
      with the match, its position and the whole string *)
  call_replacer : nat → string → Z → string → string;
  (** [require("dateformat")] *)
  dateformat : nat
}.

(** *** Dates *)

(** Days from 1970-01-01 to the given day of the proleptic Gregorian
    calendar; [m] is 1..12. *)
Definition days_from_civil (y m d : Z) : Z :=
  let y' := if m <=? 2 then y - 1 else y in
  let era := y' / 400 in
  let yoe := y' - era * 400 in
  let mp := (m + 9) mod 12 in
  let doy := (153 * mp + 2) / 5 + d - 1 in
  let doe := yoe * 365 + yoe / 4 - yoe / 100 + doy in
  era * 146097 + doe - 719468.

(** [MakeDay(year, month, date)] of ECMAScript: months beyond 0..11
    carry into the year, days beyond the month carry into the next. *)
Definition make_day (year month date : Z) : Z :=
  let ym := year + month / 12 in
  let mn := month mod 12 in
  days_from_civil ym (mn + 1) 1 + date - 1.

Definition ms_per_day : Z := 86400000.

(** *** The calendar

    The day number of a calendar day as the calendar itself gives it:
    the days of the years since 1970, a leap year being one divisible
    by 4 and not by 100, or by 400, and the days of the months before,
    with the day of the month. A day beyond the end of its month
    counts on into the months that follow. *)
Definition leap_year (y : Z) : bool :=
  (y mod 4 =? 0) && (negb (y mod 100 =? 0) || (y mod 400 =? 0)).

Definition days_in_month (y m : Z) : Z :=
  if m =? 2 then (if leap_year y then 29 else 28)
  else if (m =? 4) || (m =? 6) || (m =? 9) || (m =? 11) then 30
  else 31.

(** The days from 1 January 1970 to 1 January of the year [y]. *)
Definition days_to_year (y : Z) : Z :=
  365 * (y - 1970) + (y - 1969) / 4 - (y - 1901) / 100 + (y - 1601) / 400.

(** The days from 1 January to the first of the month [m] of [y]. *)
Definition days_to_month (y m : Z) : Z :=
  foldr (λ k acc, days_in_month y k + acc) 0 (seqZ 1 (m - 1)).

Definition calendar_day (y m d : Z) : Z :=
  days_to_year y + days_to_month y m + d - 1.

(** ** The file system

    The source tree is what the working directory holds when the build
    starts. What the build does to the disk is kept as a trace of
    events in the order they happen; a file is read from the trace and
    the tree, and the walk lists the tree as the events before it have
    left it ([disk] below). *)
Inductive Entry :=
| File (name : string) (text : string)
| Dir (name : string) (entries : list Entry).

Definition entry_name (e : Entry) : string :=
  match e with
  | File n _ | Dir n _ => n
  end.

Inductive Event :=
| EvRead (path : string)                 (* fs.readFileSync *)
| EvCompile (source : string)            (* Handlebars.compile *)
| EvRegisterPartial (name source : string)
| EvRemove (path : string)               (* rimraf.sync *)
| EvMkdir (path : string)                (* fs.mkdirSync *)
| EvWrite (path data : string)           (* fs.writeFileSync *)
| EvCopy (src dst data : string).        (* util.copyFileSync *)

(** A path as the list of its components: empty components and [.] are
    dropped, [..] leaves the directory entered last. *)
Definition norm_step (stack : list string) (c : string) : list string :=
  if bool_decide (c = "") || bool_decide (c = ".") then stack
  else if bool_decide (c = "..") then removelast stack
  else stack ++ [c].

Definition norm_path (p : string) : list string :=
  foldl norm_step [] (Str.split_on "/" p).

Definition find_name (n : string) (es : list Entry) : option Entry :=
  List.find (λ e, bool_decide (entry_name e = n)) es.

Fixpoint resolve_path (es : list Entry) (p : list string) : option Entry :=
  match p with
  | [] => None
  | n :: p' =>
      match find_name n es with
      | Some e =>
          match p', e with
          | [], _ => Some e
          | _, Dir _ es' => resolve_path es' p'
          | _, File _ _ => None
          end
      | None => None
      end
  end.

(** The directory at [p]: the working directory itself, a directory of
    the source tree or one made by an earlier [mkdirSync]. *)
Definition made_dir (tr : list Event) (p : list string) : bool :=
  existsb (λ ev, match ev with
                 | EvMkdir q => bool_decide (norm_path q = p)
                 | _ => false
                 end) tr.

Definition is_dir (root : list Entry) (tr : list Event) (p : list string) : bool :=
  bool_decide (p = [])
  || match resolve_path root p with Some (Dir _ _) => true | _ => false end
  || made_dir tr p.

(** The data of the file at [p]: what was written there last, else the
    text the source tree holds. *)
Fixpoint written_data (tr : list Event) (p : list string) : option string :=
  match tr with
  | [] => None
  | ev :: tr' =>
      match written_data tr' p with
      | Some d => Some d
      | None =>
          match ev with
          | EvWrite q d | EvCopy _ q d =>
              if bool_decide (norm_path q = p) then Some d else None
          | _ => None
          end
      end
  end.

Definition file_data (root : list Entry) (tr : list Event) (p : list string)
    : option string :=
  match written_data tr p with
  | Some d => Some d
  | None =>
      match resolve_path root p with
      | Some (File _ text) => Some text
      | _ => None
      end
  end.

(** *** The disk after the events

    The tree a listing finds once the build has made directories and
    written files. Each event changes the entry at its path; what is
    new in a directory comes last in its listing (the order of a
    listing is the file system's), and what a path goes through that
    is not there is made. *)
Fixpoint put_at (p : list string) (leaf : string → option Entry → Entry)
    (es : list Entry) : list Entry :=
  match p with
  | [] => es
  | n :: rest =>
      let change (old : option Entry) : Entry :=
        match rest, old with
        | [], _ => leaf n old
        | _, Some (Dir _ sub) => Dir n (put_at rest leaf sub)
        | _, Some (File name text) => File name text
        | _, None => Dir n (put_at rest leaf [])
        end in
      (fix go (l : list Entry) : list Entry :=
         match l with
         | [] => [change None]
         | e :: l' =>
             if bool_decide (entry_name e = n) then change (Some e) :: l'
             else e :: go l'
         end) es
  end.

Fixpoint remove_at (p : list string) (es : list Entry) : list Entry :=
  match p with
  | [] => es
  | [n] => filter (λ e, entry_name e ≠ n) es
  | n :: rest =>
      (λ e, match e with
            | Dir m sub =>
                if bool_decide (m = n) then Dir m (remove_at rest sub) else e
            | File _ _ => e
            end) <$> es
  end.

Definition apply_event (es : list Entry) (ev : Event) : list Entry :=
  match ev with
  | EvMkdir q =>
      put_at (norm_path q)
        (λ n old, match old with
                  | Some (Dir _ sub) => Dir n sub
                  | _ => Dir n []
                  end) es
  | EvWrite q d | EvCopy _ q d => put_at (norm_path q) (λ n _, File n d) es
  | EvRemove q => remove_at (norm_path q) es
  | EvRead _ | EvCompile _ | EvRegisterPartial _ _ => es
  end.

Definition disk (root : list Entry) (tr : list Event) : list Entry :=
  foldl apply_event root tr.

(** ** Build state *)

(** The function [Handlebars.compile] returns, kept as what it closes
    over: the template source and the partials registered when it was
    compiled. *)
Record Template := {
  tpl_partials : list (string * string);
  tpl_source : string
}.

(** A layout as [getLayout] hands it out: the function made by
    [partialTemplate(tmpl, ctx)], kept as the two values it closes over,
    with its [filename] property. *)
Record Layout := {
  lay_tmpl : Template;
  lay_ctx : Value;
  lay_filename : Value
}.

(** The mutable state of one run: the trace of what happened on disk,
    the module-level [layouts] cache and the partials registered with
    Handlebars. *)
Record State := {
  trace : list Event;
  layouts : gmap string Layout;
  partials : list (string * string)
}.

Definition initial_state : State :=
  {| trace := []; layouts := ∅; partials := [] |}.

(** Statements run in a state and may throw; what was done before the
    exception stays done. *)
Definition M (A : Type) : Type := State → State * Res A.

Global Instance M_ret : MRet M := λ A a st, (st, Ok a).
Global Instance M_bind : MBind M := λ A B k m st,
  match m st with
  | (st', Ok a) => k a st'
  | (st', Throw e) => (st', Throw e)
  end.

Definition lift {A} (r : Res A) : M A := λ st, (st, r).

Definition emit (ev : Event) : M unit := λ st,
  ({| trace := trace st ++ [ev]; layouts := layouts st;
      partials := partials st |}, Ok ()).

Definition get_state : M State := λ st, (st, Ok st).

Fixpoint forEach {A} (f : A → M unit) (l : list A) : M unit :=
  match l with
  | [] => mret ()
  | a :: l' => _ ← f a; forEach f l'
  end.

(** *** File-system calls *)

Definition readFileSync (root : list Entry) (path : string) : M string :=
  st ← get_state;
  match file_data root (trace st) (norm_path path) with
  | Some d => _ ← emit (EvRead path); mret d
  | None => lift (Throw FsError)
  end.

Definition mkdirSync (root : list Entry) (path : string) : M unit :=
  st ← get_state;
  match file_data root (trace st) (norm_path path) with
  | Some _ => lift (Throw FsError)
  | None => emit (EvMkdir path)
  end.

Definition writable (root : list Entry) (tr : list Event) (path : string) : bool :=
  let p := norm_path path in
  negb (Str.ends_with "/" path) && negb (is_dir root tr p)
  && is_dir root tr (removelast p).

Definition writeFileSync (root : list Entry) (path data : string) : M unit :=
  st ← get_state;
  if writable root (trace st) path then emit (EvWrite path data)
  else lift (Throw FsError).

(** Modelled from the spec: [util.exists(path, true)] of the module
    [./util], which is not among the sources: whether a directory is
    there, so that parent directories are made only when missing. *)
Definition exists_dir (root : list Entry) (path : string) : M bool :=
  st ← get_state;
  mret (is_dir root (trace st) (norm_path path)).

(** Modelled from the spec: [util.exists(path)] of [./util]: whether a
    file is there. *)
Definition exists_file (root : list Entry) (path : string) : M bool :=
  st ← get_state;
  mret (match file_data root (trace st) (norm_path path) with
        | Some _ => true
        | None => false
        end).

(** Modelled from the spec: [util.copyFileSync(src, dst)] of [./util]:
    the bytes of [src] arrive unchanged at [dst]. *)
Definition copyFileSync (root : list Entry) (src dst : string) : M unit :=
  st ← get_state;
  match file_data root (trace st) (norm_path src) with
  | Some d =>
      if writable root (trace st) dst then emit (EvCopy src dst d)
      else lift (Throw FsError)
  | None => lift (Throw FsError)
  end.

(** *** ensureDirectories *)

Fixpoint ensure_loop (root : list Entry) (cur : string) (parts : list string)
    : M unit :=
  match parts with
  | [] | [_] => mret ()
  | part :: rest =>
      let cur' := cur +:+ part +:+ "/" in
      there ← exists_dir root cur';
      _ ← (if there : bool then mret () else mkdirSync root cur');
      ensure_loop root cur' rest
  end.

Definition ensureDirectories (root : list Entry) (path : string) : M unit :=
  ensure_loop root "" (Str.split_on "/" path).

(** ** File names *)

(** One or two digits followed by a dash: [(\d\d?)-]. *)
Definition digits12_dash (s : string) : option (string * string) :=
  match s with
  | String a (String b rest) =>
      if Str.is_digit a then
        if Str.is_digit b then
          match rest with
          | String c rest' =>
              if bool_decide (c = "-"%char)
              then Some (String a (String b ""), rest') else None
          | "" => None
          end
        else if bool_decide (b = "-"%char) then Some (String a "", rest)
        else None
      else None
  | _ => None
  end.

Definition post_extensions : list string := ["md"; "markdown"; "link"; "html"].

(** The groups 1 to 5 of
    [/^(\d{4})-(\d\d?)-(\d\d?)-(.+)\.(md|markdown|link|html)$/]. The
    greedy [.+] ends at the last dot, since none of the extensions holds
    a dot, and the dot matches no line terminator. *)
Definition match_post_name (file : string)
    : option (string * string * string * string * string) :=
  let year := Str.take 4 file in
  if bool_decide (Str.len year = 4%nat) && Str.forallb Str.is_digit year then
    r1 ← Str.strip_prefix "-" (Str.drop 4 file);
    '(month, r2) ← digits12_dash r1;
    '(day, r3) ← digits12_dash r2;
    '(slug, ext) ← Str.split_last "." r3;
    if negb (bool_decide (slug = ""))
       && Str.forallb (λ c, negb (Str.is_line_terminator c)) slug
       && bool_decide (ext ∈ post_extensions)
    then Some (year, month, day, slug, ext)
    else None
  else None.

(** Group 1 of [/^(.*?)\.[^\.]+$/], [None] when the name does not
    match: the text before the last dot, which a non-empty run without
    dots must follow. *)
Definition file_stem (fname : string) : option string :=
  '(stem, ext) ← Str.split_last "." fname;
  if negb (bool_decide (ext = ""))
     && Str.forallb (λ c, negb (Str.is_line_terminator c)) stem
  then Some stem else None.

(** [/\.(md|markdown)$/.test(s)] *)
Definition is_markdown_name (s : string) : bool :=
  Str.ends_with ".md" s || Str.ends_with ".markdown" s.

(** Group 1 of [/(\.\w+|)$/]: the last dot with the word characters
    that follow it up to the end, or the empty string. *)
Definition layout_extension (filename : string) : string :=
  match Str.split_last "." filename with
  | Some (_, ext) =>
      if negb (bool_decide (ext = "")) && Str.forallb Str.is_word ext
      then "." +:+ ext else ""
  | None => ""
  end.

(** [out.replace(/\.(md|markdown)$/, ext)]: only a trailing [.md] or
    [.markdown] is replaced; [ext] comes from [layout_extension] and
    holds no [$]. *)
Definition replace_markdown_extension (out ext : string) : string :=
  if Str.ends_with ".markdown" out
  then Str.take (Str.len out - 9) out +:+ ext
  else if Str.ends_with ".md" out
  then Str.take (Str.len out - 3) out +:+ ext
  else out.

(** [/^[_\.]/.test(fname)] *)
Definition is_hidden (fname : string) : bool :=
  match fname with
  | String c _ => bool_decide (c = "_"%char) || bool_decide (c = "."%char)
  | "" => false
  end.

Section Program.
Context (host : Host).

(** [new Date(year, month, date)]: a year in 0..99 means 1900 + year;
    the fields are local time. *)
Definition new_Date (year month date : Z) : Value :=
  let yr := if (0 <=? year) && (year <=? 99) then 1900 + year else year in
  VDate (utc_of_local host (make_day yr month date * ms_per_day)) [].

(** *** ToString *)

(** The integers every one of which is a double of its own: up to
    [2^53] in absolute value. *)
Definition safe_integer (n : Z) : bool := Z.abs n <=? 9007199254740992.

(** [Number.prototype.toString] of an integer: all its decimal digits
    for a safe integer; what the runtime prints beyond is the host's. *)
Definition number_to_string (n : Z) : string :=
  if safe_integer n then Str.of_Z n else big_number_to_string host n.

(** [ToString(v)], which is also [ToPropertyKey(v)] and the conversion
    of an operand of [+] next to a string. An object is converted by
    its [toString] method and, where that is not callable, by its
    [valueOf]. An own property of either name hides the inherited
    method; holding data it cannot be called. So an object or array
    with an own [toString] has no conversion, and the call throws a
    TypeError; a date with an own [toString] falls back on the
    inherited [valueOf], its time value. [Array.prototype.toString]
    joins the elements, each converted in turn, unless an own [join]
    hides the method. (Documents hold data. A function in the place of
    one of these methods would be called: the conversion is given no
    result then, and what is said of a conversion that fails is said
    of values without functions.) *)
Fixpoint ToString (v : Value) : Res string :=
  match v with
  | VUndefined => Ok "undefined"
  | VNull => Ok "null"
  | VBool true => Ok "true"
  | VBool false => Ok "false"
  | VNum n => Ok (number_to_string n)
  | VStr s => Ok s
  | VFun f => Ok (fun_source host f)
  | VObj ps =>
      match lookup_prop "toString" ps with
      | Some _ => Throw TypeError
      | None => Ok "[object Object]"
      end
  | VArr xs ps =>
      match lookup_prop "toString" ps with
      | Some _ => Throw TypeError
      | None =>
          match lookup_prop "join" ps with
          | Some (VFun _) => Throw TypeError
          | Some _ => Ok "[object Array]"
          | None =>
              strings ←
                (fix elements (l : list Value) : Res (list string) :=
                   match l with
                   | [] => Ok []
                   | x :: l' =>
                       s ← match x with
                           | VUndefined | VNull => Ok ""
                           | _ => ToString x
                           end;
                       strings ← elements l';
                       Ok (s :: strings)
                   end) xs;
              Ok (Str.join "," strings)
          end
      end
  | VDate t ps =>
      match lookup_prop "toString" ps with
      | None => Ok (date_to_string host t)
      | Some (VFun _) => Throw TypeError
      | Some _ =>
          match lookup_prop "valueOf" ps with
          | None => Ok (number_to_string t)
          | Some _ => Throw TypeError
          end
      end
  end.

(** The string of a value that has one; where the conversion throws
    there is none, and the empty string stands in. *)
Definition to_string (v : Value) : string :=
  match ToString v with
  | Ok s => s
  | Throw _ => ""
  end.

(** *** JSON.parse(JSON.stringify(v)) *)

(** The value that comes back from serialising [v] and parsing the text
    again; [None] where [JSON.stringify] yields [undefined]. Functions
    and [undefined] vanish from objects and become [null] in arrays, a
    date is replaced by the string its [toJSON] returns, named
    properties of an array are dropped. *)
Fixpoint json_copy (v : Value) : option Value :=
  match v with
  | VUndefined | VFun _ => None
  | VNull => Some VNull
  | VBool b => Some (VBool b)
  | VNum n => Some (VNum n)
  | VStr s => Some (VStr s)
  | VDate t _ => Some (VStr (date_to_iso host t))
  | VArr xs _ =>
      Some (VArr (map (λ x, default VNull (json_copy x)) xs) [])
  | VObj ps =>
      Some (VObj (enum_props
        ((fix props (l : Props) : Props :=
            match l with
            | [] => []
            | (k, x) :: l' =>
                match json_copy x with
                | Some y => (k, y) :: props l'
                | None => props l'
                end
            end) ps)))
  end.

Definition json_roundtrip (v : Value) : Res Value :=
  match json_copy v with
  | Some v' => Ok v'
  | None => Throw SyntaxError
  end.

(** ** readContents *)

Record Contents := { frontMatter : Value; mainText : string }.

(** The patterns of [/^---\n/] and [/\n---\n/]. *)
Definition opening_delimiter : string := Eval cbv in "---" +:+ Str.nl.
Definition closing_delimiter : string := Eval cbv in Str.nl +:+ "---" +:+ Str.nl.

Definition readContents (contents : string) : Res Contents :=
  if Str.starts_with opening_delimiter contents then
    let end_ := Str.index_of closing_delimiter contents in
    if bool_decide (end_ ≠ -1) then
      fm ← yaml_load host (Str.slice contents 4 (Some (end_ + 1)));
      Ok {| frontMatter := js_or fm (VObj []);
            mainText := Str.slice contents (end_ + 5) None |}
    else Ok {| frontMatter := VNull; mainText := contents |}
  else Ok {| frontMatter := VNull; mainText := contents |}.

(** ** fillTemplate and getURL *)

(** [GetSubstitution] for a pattern without capture groups: [$$], [$&],
    [$`] and [$'] are expanded, any other [$] stands for itself. *)
Fixpoint get_substitution (matched before after repl : string) : string :=
  match repl with
  | "" => ""
  | String a tail =>
      if bool_decide (a = "$"%char) then
        match tail with
        | String c rest =>
            if bool_decide (c = "$"%char)
            then String "$" (get_substitution matched before after rest)
            else if bool_decide (c = "&"%char)
            then matched +:+ get_substitution matched before after rest
            else if bool_decide (c = "`"%char)
            then before +:+ get_substitution matched before after rest
            else if bool_decide (c = "'"%char)
            then after +:+ get_substitution matched before after rest
            else String "$" (get_substitution matched before after tail)
        | "" => "$"
        end
      else String a (get_substitution matched before after tail)
  end.

(** [s.replace(pat, v)] with a string pattern. A replacement that is
    no function is converted to a string first, whether [pat] occurs or
    not; then the first occurrence of [pat], and no other, is
    replaced. *)
Definition js_replace (s pat : string) (v : Value) : Res string :=
  match v with
  | VFun f =>
      Ok match Str.split_first pat s with
         | None => s
         | Some (before, after) =>
             before
             +:+ call_replacer host f pat (Z.of_nat (Str.len before)) s
             +:+ after
         end
  | _ =>
      repl ← ToString v;
      Ok match Str.split_first pat s with
         | None => s
         | Some (before, after) =>
             before +:+ get_substitution pat before after repl +:+ after
         end
  end.

Definition token (prop : string) : string := "${" +:+ prop +:+ "}".

Definition fill_step (tpl : Value) (p : string * Value) : Res Value :=
  _ ← callable tpl MReplace;
  match tpl with
  | VStr s => s' ← js_replace s (token p.1) p.2; Ok (VStr s')
  | _ => Throw TypeError
  end.

Fixpoint fill_loop (tpl : Value) (ps : Props) : Res Value :=
  match ps with
  | [] => Ok tpl
  | p :: ps' => tpl' ← fill_step tpl p; fill_loop tpl' ps'
  end.

Definition fillTemplate (tpl vars : Value) : Res Value :=
  fill_loop tpl (for_in vars).

Definition getURL (config post : Value) : Res Value :=
  tpl ← get config "postLink";
  fillTemplate tpl post.

(** ** readPosts *)

Fixpoint foldM {A B} (f : B → A → Res B) (b : B) (l : list A) : Res B :=
  match l with
  | [] => Ok b
  | a :: l' => b' ← f b a; foldM f b' l'
  end.

Definition dquote : string := String "034" "".

Definition link_fragment (escd : string) : string :=
  "<p>Read this post at <a href=" +:+ dquote +:+ escd +:+ dquote +:+ ">"
  +:+ escd +:+ "</a>.</p>".

(** [if (!post.tags) post.tags = [];
     if (!post.tags.forEach && post.tags.split)
       post.tags = post.tags.split(/\s+/);] *)
Definition normalize_tags (post : Value) : Res Value :=
  tags ← get post "tags";
  post ← (if truthy tags then Ok post else assign post "tags" (VArr [] []));
  tags ← get post "tags";
  fe ← resolve tags MForEach;
  if resolved_truthy fe then Ok post else
  sp ← resolve tags MSplit;
  if resolved_truthy sp then
    _ ← callable tags MSplit;
    match tags with
    | VStr s => assign post "tags" (VArr (VStr <$> Str.split_ws s) [])
    | _ => Throw TypeError
    end
  else Ok post.

(** The body of the loop of [readPosts] after the file was read, for a
    name that matched with groups [d1] to [d5]. *)
Definition build_post (renderMarkdown : string → string) (config : Value)
    (d : string * string * string * string * string) (contents : Contents)
    : Res Value :=
  let '(d1, d2, d3, d4, d5) := d in
  let post := js_or (frontMatter contents) (VObj []) in
  post ← assign post "date"
           (new_Date (Str.digits_value d1) (Str.digits_value d2 - 1)
                     (Str.digits_value d3));
  post ← assign post "name" (VStr d4);
  post ← normalize_tags post;
  if bool_decide (d5 = "link") then
    url ← get post "url";
    escd ← escapeHTML host url;
    post ← assign post "content" (VStr (link_fragment escd));
    assign post "isLink" (VBool true)
  else
    post ← assign post "content"
             (VStr (if bool_decide (d5 = "md") || bool_decide (d5 = "markdown")
                    then renderMarkdown (mainText contents)
                    else mainText contents));
    url ← getURL config post;
    assign post "url" url.

Definition readPost (renderMarkdown : string → string) (config : Value)
    (root : list Entry) (posts : list Value) (file : string) : M (list Value) :=
  match match_post_name file with
  | None => mret posts
  | Some d =>
      text ← readFileSync root ("_posts/" +:+ file);
      contents ← lift (readContents text);
      post ← lift (build_post renderMarkdown config d contents);
      mret (posts ++ [post])
  end.

Fixpoint read_loop (renderMarkdown : string → string) (config : Value)
    (root : list Entry) (posts : list Value) (files : list string)
    : M (list Value) :=
  match files with
  | [] => mret posts
  | file :: files' =>
      posts' ← readPost renderMarkdown config root posts file;
      read_loop renderMarkdown config root posts' files'
  end.

(** The time value behind [post.date]. *)
Definition date_value (post : Value) : Z :=
  match field "date" post with
  | VDate t _ => t
  | _ => 0
  end.

(** [posts.sort(function(a, b){return b.date - a.date;})]: newest first,
    posts of one date in the order they were read. *)
Fixpoint insert_post (p : Value) (l : list Value) : list Value :=
  match l with
  | [] => [p]
  | q :: l' =>
      if bool_decide (date_value q - date_value p ≤ 0) then p :: l
      else q :: insert_post p l'
  end.

Definition sort_posts (posts : list Value) : list Value :=
  foldr insert_post [] posts.

Definition readPosts (renderMarkdown : string → string) (config : Value)
    (root : list Entry) : M (list Value) :=
  match resolve_path root ["_posts"] with
  | Some (Dir _ es) =>
      posts ← read_loop renderMarkdown config root [] (entry_name <$> es);
      mret (sort_posts posts)
  | _ => mret []
  end.

(** ** gatherTags *)

(** The object [tags]: its own properties, one array of posts per tag,
    and the array that an assignment to [tags["__proto__"]] installed
    as its prototype, if any. *)
Record TagIndex := {
  buckets : Props;
  proto_bucket : option (list Value)
}.

(** [(tags.hasOwnProperty(tag) ? tags[tag] : (tags[tag] = [])).push(post)] *)
Definition file_under (post : Value) (idx : TagIndex) (tag : Value)
    : Res TagIndex :=
  match lookup_prop "hasOwnProperty" (buckets idx) with
  | Some _ => Throw TypeError
  | None =>
      k ← ToString tag;
      match lookup_prop k (buckets idx) with
      | Some (VArr xs ps) =>
          Ok {| buckets := set_prop k (VArr (xs ++ [post]) ps) (buckets idx);
                proto_bucket := proto_bucket idx |}
      | Some _ => Throw TypeError
      | None =>
          if bool_decide (k = "__proto__")
          then Ok {| buckets := buckets idx; proto_bucket := Some [post] |}
          else Ok {| buckets := set_prop k (VArr [post] []) (buckets idx);
                     proto_bucket := proto_bucket idx |}
      end
  end.

Definition gather_post (acc : TagIndex * list Value) (post : Value)
    : Res (TagIndex * list Value) :=
  tags ← get post "tags";
  if truthy tags then
    _ ← callable tags MForEach;
    match tags with
    | VArr xs _ =>
        idx ← foldM (file_under post) acc.1 xs;
        Ok (idx, acc.2 ++ [post])
    | _ => Throw TypeError
    end
  else
    post' ← assign post "tags" (VArr [] []);
    Ok (acc.1, acc.2 ++ [post']).

(** The tag index and the posts as the loop leaves them. *)
Definition gatherTags (posts : list Value) : Res (TagIndex * list Value) :=
  foldM gather_post ({| buckets := []; proto_bucket := None |}, []) posts.

(** [tags[T]] as a template or a caller reads it. *)
Definition tag_lookup (idx : TagIndex) (T : string) : option (list Value) :=
  if bool_decide (T = "__proto__") then proto_bucket idx
  else match lookup_prop T (buckets idx) with
       | Some (VArr xs _) => Some xs
       | _ => None
       end.

(** ** readConfig *)

Definition defaults : Props :=
  [("postLink", VStr "${name}.html"); ("postFileName", VStr "${url}")].

(** [Object.prototype.hasOwnProperty.call(v, k)] *)
Definition has_own (v : Value) (k : string) : bool :=
  match v with
  | VObj ps | VDate _ ps => bool_decide (is_Some (lookup_prop k ps))
  | VArr xs ps =>
      match array_index k with
      | Some i => within i (length xs)
      | None => bool_decide (k = "length")
                || bool_decide (is_Some (lookup_prop k ps))
      end
  | VStr s =>
      match array_index k with
      | Some i => within i (Str.len s)
      | None => bool_decide (k = "length")
      end
  | _ => false
  end.

Definition apply_default (config : Value) (d : string * Value) : Res Value :=
  _ ← callable config MHasOwnProperty;
  if has_own config d.1 then Ok config else assign config d.1 d.2.

Definition readConfig (root : list Entry) : M Value :=
  there ← exists_file root "_config.yml";
  loaded ← (if there : bool
            then text ← readFileSync root "_config.yml";
                 lift (yaml_load host text)
            else mret (VBool false));
  lift (foldM apply_default (js_or loaded (VObj [])) defaults).

Definition getRenderMarkdown (config : Value) : Res (string → string) :=
  r ← get config "markdownRenderer";
  if truthy r then
    match r with
    | VStr s => markdown_module host (Some s)
    | _ => Throw TypeError
    end
  else markdown_module host None.

(** ** prepareIncludes *)

Definition registerPartial (name source : string) : M unit := λ st,
  ({| trace := trace st ++ [EvRegisterPartial name source];
      layouts := layouts st;
      partials := (name, source) :: partials st |}, Ok ()).

Definition register_include (root : list Entry) (file : string) : M unit :=
  match file_stem file with
  | None => lift (Throw TypeError)
  | Some includeName =>
      source ← readFileSync root ("_includes/" +:+ file);
      registerPartial includeName source
  end.

Definition prepareIncludes (root : list Entry) (ctx : Value) : M unit :=
  there ← exists_dir root "_includes/";
  if there : bool then
    match resolve_path root ["_includes"] with
    | Some (Dir _ es) => forEach (register_include root) (entry_name <$> es)
    | _ => mret ()
    end
  else mret ().

(** ** partialTemplate *)

(** [Object.keys(newCtx).forEach(function (key) {
       finalCtx[key] = newCtx[key]; })] *)
Definition overlay (finalCtx : Value) (entries : Props) : Res Value :=
  foldM (λ acc p, assign acc p.1 p.2) finalCtx entries.

Definition merge_context (ctx newCtx : Value) : Res Value :=
  finalCtx ← json_roundtrip ctx;
  entries ← object_entries newCtx;
  overlay finalCtx entries.

(** [tmpl(context)] for a compiled template. *)
Definition run_template (tmpl : Template) (context : Value) : Res string :=
  hb_render host (tpl_partials tmpl) (tpl_source tmpl) context.

Definition partialTemplate (tmpl : Template) (ctx : Value)
    : Value → Res string :=
  λ newCtx, finalCtx ← merge_context ctx newCtx; run_template tmpl finalCtx.

(** The call [layout(doc)] of a layout from the cache. *)
Definition render_layout (l : Layout) (doc : Value) : Res string :=
  partialTemplate (lay_tmpl l) (lay_ctx l) doc.

(** ** getLayout *)

(** What the identifier [ctx] in the body of [getLayout] resolves to.
    [getLayout] declares no [ctx], nor does the module; the [var ctx] of
    [generate] is local to [generate]. The identifier is therefore
    looked up in the global object: [None] stands for a global object
    without a [ctx] property, which is what it is unless something
    outside heckle.js defines one. *)
Context (global_ctx : option Value).

Definition lookup_ctx : Res Value :=
  match global_ctx with
  | Some c => Ok c
  | None => Throw ReferenceError
  end.

(** [if (name.indexOf(".") == -1) name = name + ".html";] and the
    conversion of the name to a property key, with which
    [layouts.hasOwnProperty(name)] on the next line begins: the name
    the body of [getLayout] goes on with, whose string is the key. A
    list without an element ["."] is converted by [+], a list with one
    by [hasOwnProperty]. *)
Definition layout_name (name : Value) : Res Value :=
  _ ← callable name MIndexOf;
  name ← match name with
         | VStr s =>
             Ok (if bool_decide (Str.index_of "." s = -1)
                 then VStr (s +:+ ".html") else name)
         | VArr xs _ =>
             if existsb (λ x, match x with
                              | VStr e => bool_decide (e = ".")
                              | _ => false
                              end) xs
             then Ok name
             else s ← ToString name; Ok (VStr (s +:+ ".html"))
         | _ => Throw TypeError
         end;
  _ ← ToString name;
  Ok name.

Definition compile (source : string) : M Template := λ st,
  ({| trace := trace st ++ [EvCompile source]; layouts := layouts st;
      partials := partials st |},
   Ok {| tpl_partials := partials st; tpl_source := source |}).

Definition cache_layout (key : string) (l : Layout) : M unit := λ st,
  ({| trace := trace st; layouts := <[key := l]> (layouts st);
      partials := partials st |}, Ok ()).

Definition getLayout (root : list Entry) (name : Value) : M Layout :=
  name ← lift (layout_name name);
  let key := to_string name in
  st ← get_state;
  match layouts st !! key with
  | Some l => mret l
  | None =>
      source ← readFileSync root ("_layouts/" +:+ key);
      tmpl ← compile source;
      ctx ← lift lookup_ctx;
      let mergedTmpl :=
        {| lay_tmpl := tmpl; lay_ctx := ctx; lay_filename := name |} in
      _ ← cache_layout key mergedTmpl;
      mret mergedTmpl
  end.

(** ** generate *)

Definition site_context (posts : list Value) (tags : TagIndex) (config : Value)
    : Value :=
  VObj [("site", VObj [("posts", VArr posts []);
                       ("tags", VObj (buckets tags));
                       ("config", config)]);
        ("dateFormat", VFun (dateformat host))].

(** The body of [posts.forEach(function(post) {...})]. *)
Definition emit_post (root : list Entry) (config post : Value) : M unit :=
  isLink ← lift (get post "isLink");
  if truthy isLink then mret () else
  tpl ← lift (get config "postFileName");
  rel ← lift (fillTemplate tpl post);
  rel ← lift (ToString rel);
  let path := "_site/" +:+ rel in
  _ ← ensureDirectories root path;
  l ← lift (get post "layout");
  layout ← getLayout root (js_or l (VStr "post.html"));
  html ← lift (render_layout layout post);
  writeFileSync root path html.

(** [list.some(function (exclude) {
       return rest.indexOf(exclude) === 0; })]: the elements are
    converted and tested in turn, up to the first that fits. *)
Fixpoint some_prefix (rest : string) (list : list Value) : Res bool :=
  match list with
  | [] => Ok false
  | exclude :: list' =>
      s ← ToString exclude;
      if bool_decide (Str.index_of s rest = 0) then Ok true
      else some_prefix rest list'
  end.

Definition isExcluded (config : Value) (path : string) : Res bool :=
  ex ← get config "exclude";
  let list := js_or ex (VArr [] []) in
  _ ← callable list MSome;
  match list with
  | VArr xs _ => some_prefix (Str.slice path 2 None) xs
  | _ => Throw TypeError
  end.

(** The non-directory branch of [walkDir]. *)
Definition emit_file (renderMarkdown : string → string) (root : list Entry)
    (fname file : string) : M unit :=
  let out := "_site/" +:+ file in
  _ ← ensureDirectories root out;
  text ← readFileSync root file;
  contents ← lift (readContents text);
  if truthy (frontMatter contents) then
    let doc := frontMatter contents in
    l ← lift (get doc "layout");
    layout ← getLayout root (js_or l (VStr "default.html"));
    doc ← lift (assign doc "content"
                  (VStr (if is_markdown_name fname
                         then renderMarkdown (mainText contents)
                         else mainText contents)));
    stem ← lift (match file_stem fname with
                 | Some stem => Ok stem
                 | None => Throw TypeError
                 end);
    doc ← lift (assign doc "name" (VStr stem));
    doc ← lift (assign doc "url" (VStr file));
    ext ← lift (match lay_filename layout with
                | VStr f => Ok (layout_extension f)
                | _ => Throw TypeError
                end);
    let out := replace_markdown_extension out ext in
    html ← lift (render_layout layout doc);
    writeFileSync root out html
  else copyFileSync root file out.

(** The body of [fs.readdirSync(dir).forEach(function(fname) {...})]
    for one entry, and with it [walkDir] over the entries of [dir]. *)
Fixpoint walk_entry (renderMarkdown : string → string) (config : Value)
    (root : list Entry) (dir : string) (e : Entry) {struct e} : M unit :=
  let fname := entry_name e in
  if is_hidden fname then mret () else
  let file := dir +:+ fname in
  excluded ← lift (isExcluded config file);
  if excluded : bool then mret () else
  match e with
  | Dir _ es =>
      (fix walk_list (es : list Entry) : M unit :=
         match es with
         | [] => mret ()
         | e' :: es' =>
             _ ← walk_entry renderMarkdown config root (file +:+ "/") e';
             walk_list es'
         end) es
  | File _ _ => emit_file renderMarkdown root fname file
  end.

Definition walkDir (renderMarkdown : string → string) (config : Value)
    (root : list Entry) (dir : string) (es : list Entry) : M unit :=
  forEach (walk_entry renderMarkdown config root dir) es.

Definition remove_site (root : list Entry) : list Entry :=
  filter (λ e, entry_name e ≠ "_site") root.

Definition generate (root : list Entry) : M unit :=
  config ← readConfig root;
  renderMarkdown ← lift (getRenderMarkdown config);
  posts ← readPosts renderMarkdown config root;
  '(tags, posts) ← lift (gatherTags posts);
  let ctx := site_context posts tags config in
  _ ← prepareIncludes root ctx;
  there ← exists_dir root "_site";
  root' ← (if there : bool
           then _ ← emit (EvRemove "_site"); mret (remove_site root)
           else mret root);
  _ ← forEach (emit_post root' config) posts;
  st ← get_state;
  walkDir renderMarkdown config root' "./" (disk root' (trace st)).

End Program.

(** ** Templates as sequences of literals and tokens

    A template such as [${name}.html] read as the tokens [${...}] it
    holds and the literal text between them. *)
Inductive Segment :=
| Lit (text : string)
| Tok (name : string).

Global Instance Segment_eq_dec : EqDecision Segment.
Proof. solve_decision. Defined.











(** ** The walk without hidden entries *)

(** The tree with every entry whose name starts with [_] or [.] taken
    out, at every depth. *)
Fixpoint prune_entry (e : Entry) : Entry :=
  match e with
  | File n t => File n t
  | Dir n es =>
      Dir n ((fix prune_list (es : list Entry) : list Entry :=
                match es with
                | [] => []
                | e' :: es' =>
                    if is_hidden (entry_name e') then prune_list es'
                    else prune_entry e' :: prune_list es'
                end) es)
  end.

Fixpoint prune (es : list Entry) : list Entry :=
  match es with
  | [] => []
  | e :: es' =>
      if is_hidden (entry_name e) then prune es'
      else prune_entry e :: prune es'
  end.


(** The state after some more events. *)
Definition with_trace (st : State) (evs : list Event) : State :=
  {| trace := trace st ++ evs; layouts := layouts st; partials := partials st |}.

(** ** Notions the claims are stated with *)

(** A header block is recognised when the text opens with the line of
    three dashes and a closing line of three dashes follows. *)
Definition recognized_header (contents : string) : bool :=
  Str.starts_with opening_delimiter contents
  && Str.occurs closing_delimiter contents.

(** The time value of the local midnight that begins the calendar day
    [y]-[m]-[d]. *)
Definition midnight (host : Host) (y m d : Z) : Z :=
  utc_of_local host (calendar_day y m d * ms_per_day).

(** What C5 says of a post file: the date of the post read from it is
    the calendar day that the three numbers of its name spell. *)
Definition date_is_encoded_day (host : Host) (root : list Entry)
    (file : string) : Prop :=
  ∀ rm config d1 d2 d3 d4 d5 st st' post,
    match_post_name file = Some (d1, d2, d3, d4, d5) →
    readPost host rm config root [] file st = (st', Ok [post]) →
    field "date" post
    = VDate (midnight host (Str.digits_value d1) (Str.digits_value d2)
               (Str.digits_value d3)) [].


(** ** A host for the examples *)

Definition text_of (v : Value) : string :=
  match v with
  | VStr s => s
  | _ => ""
  end.

Fixpoint escape_html (s : string) : string :=
  match s with
  | "" => ""
  | String c s' =>
      (if bool_decide (c = "<"%char) then "&lt;"
       else if bool_decide (c = ">"%char) then "&gt;"
       else if bool_decide (c = "&"%char) then "&amp;"
       else if bool_decide (c = "034"%char) then "&quot;"
       else String c "") +:+ escape_html s'
  end.

(** A printer of the integers beyond the safe ones for the examples,
    exact for an integer of up to 15 digits followed by zeros, as
    [10^21] is: all the digits up to 21 of them, and from there on the
    exponent form, which is the digits before the trailing zeros, a
    point after the first of them, and the exponent. *)
Fixpoint strip_zeros (s : string) : string :=
  match s with
  | "" => ""
  | String c s' =>
      let r := strip_zeros s' in
      if bool_decide (r = "") && bool_decide (c = "0"%char) then ""
      else String c r
  end.

Definition sci_string (n : Z) : string :=
  let digits := Str.of_N (Z.abs_N n) in
  if bool_decide (Str.len digits ≤ 21)%nat then Str.of_Z n else
  let mantissa := strip_zeros digits in
  (if n <? 0 then "-" else "")
  +:+ Str.take 1 mantissa
  +:+ (if bool_decide (Str.len mantissa ≤ 1)%nat then ""
       else "." +:+ Str.drop 1 mantissa)
  +:+ "e+" +:+ Str.of_nat (Str.len digits - 1).

(** A YAML parser that knows a handful of documents. *)
Definition demo_yaml (s : string) : Res Value :=
  if bool_decide (s = "") then Ok VUndefined
  else if bool_decide (s = "title: Hi" +:+ Str.nl +:+ "tags: a b" +:+ Str.nl)
  then Ok (VObj [("title", VStr "Hi"); ("tags", VStr "a b")])
  else if bool_decide (s = "date: 1999-01-01" +:+ Str.nl)
  then Ok (VObj [("date", VDate 915148800000 [])])
  else if bool_decide (s = "url: http://x.com/?a&b" +:+ Str.nl)
  then Ok (VObj [("url", VStr "http://x.com/?a&b")])
  else if bool_decide (s = "layout: feed.xml" +:+ Str.nl)
  then Ok (VObj [("layout", VStr "feed.xml")])
  else Throw YAMLException.

(** A template engine whose output shows the template and the [title]
    and [content] it was given. *)
Definition demo_render (ps : list (string * string)) (source : string)
    (context : Value) : Res string :=
  Ok (source +:+ "[" +:+ text_of (field "title" context) +:+ "|"
      +:+ text_of (field "content" context) +:+ "]").

Definition demo_host : Host := {|
  yaml_load := demo_yaml;
  markdown_module := λ _, Ok (λ s, "<md>" +:+ s +:+ "</md>");
  escapeHTML := λ v, Ok (escape_html (text_of v));
  hb_render := demo_render;
  utc_of_local := λ t, t;
  date_to_string := λ t, "Date(" +:+ Str.of_Z t +:+ ")";
  date_to_iso := λ t, "ISO(" +:+ Str.of_Z t +:+ ")";
  big_number_to_string := sci_string;
  fun_source := λ _, "function () { [native code] }";
  call_replacer := λ _ _ _ _, "";
  dateformat := 0%nat
|}.

(** A text with a front-matter block. *)
Definition with_front_matter (block body : string) : string :=
  opening_delimiter +:+ block +:+ "---" +:+ Str.nl +:+ body.

(** The values that hold named properties: plain objects, arrays and
    dates. *)
Definition record_like (v : Value) : Prop :=
  match v with
  | VObj _ | VArr _ _ | VDate _ _ => True
  | _ => False
  end.

(** A key that is no array index and none of the two special names. *)
Definition plain_key (k : string) : Prop :=
  array_index k = None ∧ k ≠ "length" ∧ k ≠ "__proto__".

(** A source tree for the examples: two posts, one of them with a
    [date] in its metadata, a link post, layouts and a few pages. *)
Definition demo_root : list Entry :=
  [ Dir "_posts"
      [ File "2024-3-5-dated.md"
          (with_front_matter ("date: 1999-01-01" +:+ Str.nl) "**hi**");
        File "2024-03-06-elsewhere.link"
          (with_front_matter ("url: http://x.com/?a&b" +:+ Str.nl) "ignored");
        File "notes.txt" "not a post" ];
    Dir "_layouts"
      [ File "post.html" "POST"; File "default.html" "DEFAULT";
        File "feed.xml" "FEED" ];
    File "index.html" (with_front_matter "" "welcome");
    File "atom.html" (with_front_matter ("layout: feed.xml" +:+ Str.nl) "x");
    File "about.md" (with_front_matter ("layout: feed.xml" +:+ Str.nl) "me");
    File "logo.png" "PNG";
    Dir "css" [ File "_draft.css" "x"; File "site.css" "body {}";
                Dir ".cache" [ File "tmp" "y" ] ] ].

Definition demo_config : Value := VObj defaults.

Definition is_mkdir (ev : Event) : Prop :=
  match ev with EvMkdir _ => True | _ => False end.

(** A value made of what JSON can hold: no function, no date, no
    [undefined], and arrays without named properties. *)
Fixpoint data_only (v : Value) : bool :=
  match v with
  | VUndefined | VFun _ | VDate _ _ => false
  | VNull | VBool _ | VNum _ | VStr _ => true
  | VArr xs ps => forallb data_only xs && bool_decide (ps = [])
  | VObj ps =>
      (fix all (l : Props) : bool :=
         match l with
         | [] => true
         | (_, x) :: l' => data_only x && all l'
         end) ps
  end.

(** The properties of an object that survive serialisation, each with
    its copy. *)
Definition json_props (host : Host) (ps : Props) : Props :=
  omap (λ p : string * Value, (λ y, (p.1, y)) <$> json_copy host p.2) ps.

(** The tags a post declares, as the keys [gatherTags] files it under. *)
Definition tags_of (host : Host) (post : Value) : list string :=
  match field "tags" post with
  | VArr xs _ => to_string host <$> xs
  | _ => []
  end.

(** A post with a name and tags, for the examples. *)
Definition tagged (name : string) (tags : list string) : Value :=
  VObj [("name", VStr name); ("tags", VArr (VStr <$> tags) [])].

(** The posts a run files under the tag [T]: one entry for each time a
    post lists [T], in the order of the posts. *)
Definition filed_under (host : Host) (T : string) (posts : list Value)
    : list Value :=
  posts ≫= λ p, (λ _, p) <$> filter (λ t, t = T) (tags_of host p).

(** The bucket of a tag, empty if the index has no such key. *)
Definition bucket (idx : TagIndex) (T : string) : list Value :=
  match lookup_prop T (buckets idx) with
  | Some (VArr xs _) => xs
  | _ => []
  end.

(** Every own property of the index is a non-empty array without named
    properties. *)
Definition buckets_ok (idx : TagIndex) : Prop :=
  ∀ T v, lookup_prop T (buckets idx) = Some v → ∃ xs, xs ≠ [] ∧ v = VArr xs [].

(** * The store of objects

    A JavaScript object has an identity: a post is one object that
    [site.posts], its tag buckets and the [newCtx] of its render all
    refer to, and a write through one reference shows through the
    others. The definitions above work on the tree a value unfolds to;
    the ones below place values in a store of cells, where identity and
    aliasing show, and give [partialTemplate] on it. *)

Abbreviation loc := nat.

(** A value as a variable or a property holds it: a primitive, or a
    reference to a cell of the store. *)
Inductive hval :=
| HUndefined
| HNull
| HBool (b : bool)
| HNum (n : Z)
| HStr (s : string)
| HRef (l : loc).

Inductive cell :=
| CObj (ps : list (string * hval))
| CArr (xs : list hval) (ps : list (string * hval))
| CDate (t : Z) (ps : list (string * hval))
| CFun (f : nat).

Abbreviation heap := (list cell).

(** The tree a value unfolds to, following at most [n] references in a
    row. Among [length h] cells a chain of more references than cells
    passes through some cell twice: with [n] above [length h] the result
    is [None] only for a value that reaches itself (or a cell the store
    does not have). *)
Fixpoint reify (n : nat) (h : heap) (v : hval) : option Value :=
  match v with
  | HUndefined => Some VUndefined
  | HNull => Some VNull
  | HBool b => Some (VBool b)
  | HNum z => Some (VNum z)
  | HStr s => Some (VStr s)
  | HRef l =>
      match n with
      | O => None
      | S n' =>
          let props :=
            mapM (λ p : string * hval, (λ x, (p.1, x)) <$> reify n' h p.2) in
          c ← h !! l;
          match c with
          | CObj ps => VObj <$> props ps
          | CArr xs ps =>
              xs' ← mapM (reify n' h) xs; ps' ← props ps; Some (VArr xs' ps')
          | CDate t ps => VDate t <$> props ps
          | CFun f => Some (VFun f)
          end
      end
  end.

(** The properties of a cell, each unfolded. *)
Definition reify_props (n : nat) (h : heap) (ps : list (string * hval))
    : option Props :=
  mapM (λ p : string * hval, (λ x, (p.1, x)) <$> reify n h p.2) ps.

(** The objects that [JSON.parse] builds for a tree: one new cell for
    every object and array, each at the end of the store. *)
Fixpoint alloc (v : Value) (h : heap) : heap * hval :=
  let alloc_list :=
    fix go (xs : list Value) (h : heap) : heap * list hval :=
      match xs with
      | [] => (h, [])
      | x :: xs' =>
          let '(h1, x') := alloc x h in
          let '(h2, xs'') := go xs' h1 in
          (h2, x' :: xs'')
      end in
  let alloc_props :=
    fix go (ps : Props) (h : heap) : heap * list (string * hval) :=
      match ps with
      | [] => (h, [])
      | (k, x) :: ps' =>
          let '(h1, x') := alloc x h in
          let '(h2, ps'') := go ps' h1 in
          (h2, (k, x') :: ps'')
      end in
  match v with
  | VUndefined => (h, HUndefined)
  | VNull => (h, HNull)
  | VBool b => (h, HBool b)
  | VNum n => (h, HNum n)
  | VStr s => (h, HStr s)
  | VFun f => (h ++ [CFun f], HRef (length h))
  | VObj ps =>
      let '(h1, ps') := alloc_props ps h in
      (h1 ++ [CObj ps'], HRef (length h1))
  | VArr xs ps =>
      let '(h1, xs') := alloc_list xs h in
      let '(h2, ps') := alloc_props ps h1 in
      (h2 ++ [CArr xs' ps'], HRef (length h2))
  | VDate t ps =>
      let '(h1, ps') := alloc_props ps h in
      (h1 ++ [CDate t ps'], HRef (length h1))
  end.

Fixpoint alloc_list (xs : list Value) (h : heap) : heap * list hval :=
  match xs with
  | [] => (h, [])
  | x :: xs' =>
      let '(h1, x') := alloc x h in
      let '(h2, xs'') := alloc_list xs' h1 in
      (h2, x' :: xs'')
  end.

Fixpoint alloc_props (ps : Props) (h : heap) : heap * list (string * hval) :=
  match ps with
  | [] => (h, [])
  | (k, x) :: ps' =>
      let '(h1, x') := alloc x h in
      let '(h2, ps'') := alloc_props ps' h1 in
      (h2, (k, x') :: ps'')
  end.

Fixpoint h_char_props (i : nat) (s : string) : list (string * hval) :=
  match s with
  | "" => []
  | String c s' => (Str.of_nat i, HStr (String c "")) :: h_char_props (S i) s'
  end.

(** [Object.keys(v)] paired with [v[key]], as [for_in] on the store. *)
Definition h_for_in (h : heap) (v : hval) : list (string * hval) :=
  match v with
  | HRef l =>
      match h !! l with
      | Some (CObj ps) | Some (CDate _ ps) => enum_props ps
      | Some (CArr xs ps) => element_props xs ++ enum_props ps
      | _ => []
      end
  | HStr s => h_char_props 0 s
  | _ => []
  end.

(** [c[k] = x] on the cell of an object, as [assign] on the store. *)
Definition cell_assign (c : cell) (k : string) (x : hval) : Res cell :=
  if bool_decide (k = "__proto__") then Ok c else
  match c with
  | CFun _ => Ok c
  | CObj ps => Ok (CObj (set_prop k x ps))
  | CDate t ps => Ok (CDate t (set_prop k x ps))
  | CArr xs ps =>
      match array_index k with
      | Some i =>
          Ok (if within i (length xs) then CArr (<[N.to_nat i := x]> xs) ps
              else CArr (xs ++ replicate (N.to_nat i - length xs) HUndefined
                            ++ [x]) ps)
      | None =>
          if bool_decide (k = "length") then
            match x with
            | HNum n =>
                if bool_decide (0 ≤ n) then
                  Ok (CArr (take (Z.to_nat n) xs
                            ++ replicate (Z.to_nat n - length xs) HUndefined) ps)
                else Throw TypeError
            | _ => Throw TypeError
            end
          else Ok (CArr xs (set_prop k x ps))
      end
  end.

(** [v[k] = x]: the write goes to the cell [v] refers to and to no
    other; a primitive receiver ignores it. (A reference the store has
    no cell for does not arise; the write is given no effect.) *)
Definition h_assign (v : hval) (k : string) (x : hval) (h : heap)
    : heap * Res unit :=
  match v with
  | HUndefined | HNull => (h, Throw TypeError)
  | HBool _ | HNum _ | HStr _ => (h, Ok ())
  | HRef l =>
      match h !! l with
      | Some c =>
          match cell_assign c k x with
          | Ok c' => (<[l := c']> h, Ok ())
          | Throw e => (h, Throw e)
          end
      | None => (h, Ok ())
      end
  end.

Section Store.
Context (host : Host).

(** [JSON.parse(JSON.stringify(ctx))]: [stringify] walks the object
    graph and throws a TypeError on a value that reaches itself; [parse]
    builds new objects. *)
Definition h_json_roundtrip (ctx : hval) (h : heap) : heap * Res hval :=
  match reify (S (length h)) h ctx with
  | None => (h, Throw TypeError)
  | Some c =>
      match json_roundtrip host c with
      | Ok copy => let '(h1, finalCtx) := alloc copy h in (h1, Ok finalCtx)
      | Throw e => (h, Throw e)
      end
  end.

(** [Object.keys(newCtx).forEach(function (key) {
       finalCtx[key] = newCtx[key]; })] *)
Fixpoint h_overlay (finalCtx : hval) (entries : list (string * hval))
    (h : heap) : heap * Res unit :=
  match entries with
  | [] => (h, Ok ())
  | (key, x) :: rest =>
      match h_assign finalCtx key x h with
      | (h', Ok _) => h_overlay finalCtx rest h'
      | (h', Throw e) => (h', Throw e)
      end
  end.

Definition h_merge_context (ctx newCtx : hval) (h : heap) : heap * Res hval :=
  match h_json_roundtrip ctx h with
  | (h1, Throw e) => (h1, Throw e)
  | (h1, Ok finalCtx) =>
      match newCtx with
      | HUndefined | HNull => (h1, Throw TypeError)
      | _ =>
          match h_overlay finalCtx (h_for_in h1 newCtx) h1 with
          | (h2, Ok _) => (h2, Ok finalCtx)
          | (h2, Throw e) => (h2, Throw e)
          end
      end
  end.

(** The function [partialTemplate(tmpl, ctx)] returns, applied to
    [newCtx]. The template engine is a function of the tree the context
    unfolds to; a context that reaches itself has no such tree and the
    call is given no result ([None]). *)
Definition h_partialTemplate (tmpl : Template) (ctx newCtx : hval) (h : heap)
    : option (heap * Res string) :=
  match h_merge_context ctx newCtx h with
  | (h2, Throw e) => Some (h2, Throw e)
  | (h2, Ok finalCtx) =>
      context ← reify (S (length h2)) h2 finalCtx;
      Some (h2, run_template host tmpl context)
  end.

End Store.

(** What relates the properties of a cell to the properties of a tree:
    the same keys in the same order, with related values. *)
Definition props_rel {A B} (R : A → B → Prop)
    : list (string * A) → list (string * B) → Prop :=
  Forall2 (λ p q, p.1 = q.1 ∧ R p.2 q.2).

(** What [alloc] leaves: the store it was given with new cells at its
    end, a value that is a primitive or one of the new cells, and that
    unfolds to the tree. *)
Definition alloc_ok (v : Value) : Prop :=
  ∀ h, ∃ cells,
    (alloc v h).1 = h ++ cells
    ∧ (∀ l, (alloc v h).2 = HRef l → (length h ≤ l < length h + length cells)%nat)
    ∧ ∀ n ext, (length cells ≤ n)%nat →
        reify n (h ++ cells ++ ext) (alloc v h).2 = Some v.

(** What C8 says of a site context and a document in a store: a write
    to whatever the merged context holds under one of its keys leaves
    the tree of the site context as it was. *)
Definition writes_leave_site_context (host : Host) (ctx doc : hval)
    (h : heap) : Prop :=
  ∀ h2 l fps k target key x,
    h_merge_context host ctx doc h = (h2, Ok (HRef l)) →
    h2 !! l = Some (CObj fps) →
    lookup_prop k fps = Some target →
    reify (S (length h2)) (h_assign target key x h2).1 ctx
    = reify (S (length h)) h ctx.

(** A value unfolds to the tree [t] by the cells of [hp] alone: whatever
    cells follow them, and with any bound from their number on. *)
Definition unfolds_in (hp : heap) (x : hval) (t : Value) : Prop :=
  ∀ n ext, (length hp ≤ n)%nat → reify n (hp ++ ext) x = Some t.

(** A store for the examples: a site context with one post and the
    date formatter, and two documents. The post is the same object in
    [site.posts] and as a document. *)
Definition demo_heap : heap :=
  [ (* 0 *) CArr [HStr "a"] [];
    (* 1 *) CObj [("title", HStr "First"); ("tags", HRef 0)];
    (* 2 *) CArr [HRef 1] [];
    (* 3 *) CObj [("posts", HRef 2)];
    (* 4 *) CFun 0;
    (* 5 *) CObj [("site", HRef 3); ("dateFormat", HRef 4)];
    (* 6 *) CObj [("title", HStr "About"); ("content", HStr "text")] ].

Definition demo_template : Template :=
  {| tpl_partials := []; tpl_source := "<page>" |}.

(** The number of objects nested in one another along the longest
    branch of a tree. *)
Fixpoint depth (v : Value) : nat :=
  let props_depth :=
    fix go (ps : Props) : nat :=
      match ps with
      | [] => O
      | (_, x) :: ps' => Nat.max (depth x) (go ps')
      end in
  let list_depth :=
    fix go (xs : list Value) : nat :=
      match xs with
      | [] => O
      | x :: xs' => Nat.max (depth x) (go xs')
      end in
  match v with
  | VUndefined | VNull | VBool _ | VNum _ | VStr _ => O
  | VFun _ => 1%nat
  | VObj ps | VDate _ ps => S (props_depth ps)
  | VArr xs ps => S (Nat.max (list_depth xs) (props_depth ps))
  end.

Fixpoint props_depth (ps : Props) : nat :=
  match ps with
  | [] => O
  | (_, x) :: ps' => Nat.max (depth x) (props_depth ps')
  end.

Fixpoint list_depth (xs : list Value) : nat :=
  match xs with
  | [] => O
  | x :: xs' => Nat.max (depth x) (list_depth xs')
  end.

(** The store with the cell at [l] replaced by one that holds itself:
    a value that reaches [l] in it unfolds to no tree. *)
Definition blank (l : loc) (h : heap) : heap :=
  <[l := CObj [("self", HRef l)]]> h.

(** ** Properties of a whole run *)

Definition is_write (ev : Event) : Prop :=
  match ev with EvWrite _ _ => True | _ => False end.

(** Nothing was rendered so far: the cache of layouts is empty and no
    file was written by [writeFileSync]. *)
Definition nothing_rendered (st : State) : Prop :=
  layouts st = ∅ ∧ Forall (λ ev, ¬ is_write ev) (trace st).

(** A statement keeps a property of the state, however it ends. *)
Definition keeps {A} (I : State → Prop) (m : M A) : Prop :=
  ∀ st, I st → I (m st).1.

(** A statement that keeps the property and always throws. *)
Definition throws_keeping {A} (I : State → Prop) (m : M A) : Prop :=
  ∀ st, I st → I (m st).1 ∧ ∃ e, (m st).2 = Throw e.

(** Whether the walk finds the entry [e] of the directory [dir]
    excluded. *)
Definition excluded_at (host : Host) (config : Value) (dir : string)
    (e : Entry) : bool :=
  match isExcluded host config (dir +:+ entry_name e) with
  | Ok b => b
  | Throw _ => false
  end.

(** The entries of the directory [dir] with every excluded entry taken
    out, at every depth. *)
Fixpoint drop_excluded_entry (host : Host) (config : Value) (dir : string)
    (e : Entry) : Entry :=
  match e with
  | File n t => File n t
  | Dir n es =>
      Dir n ((fix drop_list (es : list Entry) : list Entry :=
                match es with
                | [] => []
                | e' :: es' =>
                    if excluded_at host config (dir +:+ n +:+ "/") e'
                    then drop_list es'
                    else drop_excluded_entry host config
                           (dir +:+ n +:+ "/") e' :: drop_list es'
                end) es)
  end.

Fixpoint drop_excluded (host : Host) (config : Value) (dir : string)
    (es : list Entry) : list Entry :=
  match es with
  | [] => []
  | e :: es' =>
      if excluded_at host config dir e then drop_excluded host config dir es'
      else drop_excluded_entry host config dir e
           :: drop_excluded host config dir es'
  end.

(** The directories [ensureDirectories] visits for the components
    [parts] of a path, starting below [cur]: every component but the
    last, each with what precedes it. *)
Fixpoint ancestors (cur : string) (parts : list string) : list string :=
  match parts with
  | [] | [_] => []
  | part :: rest =>
      (cur +:+ part +:+ "/") :: ancestors (cur +:+ part +:+ "/") rest
  end.

(** * Facts about strings *)

Lemma sapp_cons c s t : String c s +:+ t = String c (s +:+ t).
Proof. reflexivity. Qed.

Lemma sapp_nil_r s : s +:+ "" = s.
Proof. induction s as [|c s IH]; [done|]. by rewrite sapp_cons, IH. Qed.

Lemma sapp_assoc s t u : (s +:+ t) +:+ u = s +:+ t +:+ u.
Proof. induction s as [|c s IH]; [done|]. by rewrite !sapp_cons, IH. Qed.

Lemma slen_app s t : Str.len (s +:+ t) = (Str.len s + Str.len t)%nat.
Proof. induction s as [|c s IH]; [done|]. rewrite sapp_cons. simpl. lia. Qed.

Lemma sdrop_app s t : Str.drop (Str.len s) (s +:+ t) = t.
Proof. induction s as [|c s IH]; [done|]. by rewrite sapp_cons. Qed.

Lemma stake_app s t : Str.take (Str.len s) (s +:+ t) = s.
Proof.
  induction s as [|c s IH]; [by destruct t|].
  rewrite sapp_cons. simpl. by rewrite IH.
Qed.

Lemma strip_prefix_app p r : Str.strip_prefix p (p +:+ r) = Some r.
Proof.
  induction p as [|a p IH]; [done|].
  rewrite sapp_cons. simpl. by rewrite decide_True.
Qed.

Lemma strip_prefix_Some p s r : Str.strip_prefix p s = Some r → s = p +:+ r.
Proof.
  revert s; induction p as [|a p IH]; intros s H; simpl in H.
  - by inversion H.
  - destruct s as [|b s]; [done|]. case_decide; [|done].
    subst. rewrite sapp_cons. f_equal. by apply IH.
Qed.

Lemma split_first_Some pat s a b :
  Str.split_first pat s = Some (a, b) → s = a +:+ pat +:+ b.
Proof.
  revert a b; induction s as [|c s IH]; intros a b H; simpl in H.
  - destruct (Str.strip_prefix pat "") eqn:E; [|done].
    inversion H; subst. by apply strip_prefix_Some in E.
  - destruct (Str.strip_prefix pat (String c s)) eqn:E.
    + inversion H; subst. by apply strip_prefix_Some in E.
    + destruct (Str.split_first pat s) as [[a' b']|] eqn:E'; [|done].
      inversion H; subst. rewrite sapp_cons. f_equal. by apply IH.
Qed.

Lemma split_first_cons pat c s :
  Str.strip_prefix pat (String c s) = None →
  Str.split_first pat (String c s)
  = (λ ab : string * string, (String c ab.1, ab.2)) <$> Str.split_first pat s.
Proof.
  intros H. simpl. rewrite H. by destruct (Str.split_first pat s) as [[??]|].
Qed.

Lemma index_of_occurs pat s :
  Str.index_of pat s = -1 ↔ Str.occurs pat s = false.
Proof.
  unfold Str.index_of, Str.occurs.
  destruct (Str.split_first pat s) as [[a b]|]; split; try done. lia.
Qed.


Lemma clamp_of_nat (n k : nat) :
  Str.clamp (Z.of_nat n) (Z.of_nat k) = (k `min` n)%nat.
Proof.
  unfold Str.clamp. destruct (Z.ltb_spec (Z.of_nat k) 0); lia.
Qed.

Lemma slice_from_app a b :
  Str.slice (a +:+ b) (Z.of_nat (Str.len a)) None = b.
Proof.
  unfold Str.slice. rewrite clamp_of_nat, slen_app.
  replace (Str.len a `min` (Str.len a + Str.len b))%nat with (Str.len a) by lia.
  rewrite sdrop_app.
  replace (Str.len a + Str.len b - Str.len a)%nat with (Str.len b) by lia.
  rewrite <- (sapp_nil_r b) at 2. apply stake_app.
Qed.

Lemma slice_mid_app a b c :
  Str.slice (a +:+ b +:+ c) (Z.of_nat (Str.len a))
    (Some (Z.of_nat (Str.len a + Str.len b))) = b.
Proof.
  unfold Str.slice. rewrite !clamp_of_nat, !slen_app.
  replace (Str.len a `min` (Str.len a + (Str.len b + Str.len c)))%nat
    with (Str.len a) by lia.
  replace ((Str.len a + Str.len b) `min` (Str.len a + (Str.len b + Str.len c))
           - Str.len a)%nat with (Str.len b) by lia.
  rewrite sdrop_app. apply stake_app.
Qed.

(** * readContents *)

Lemma starts_with_true p s :
  Str.starts_with p s = true → ∃ r, s = p +:+ r.
Proof.
  unfold Str.starts_with. destruct (Str.strip_prefix p s) eqn:E; [|done].
  intros _. eexists. by apply strip_prefix_Some.
Qed.

Lemma split_first_here pat s r :
  Str.strip_prefix pat s = Some r → Str.split_first pat s = Some ("", r).
Proof. intros H. destruct s; simpl; by rewrite H. Qed.

(** Where the closing delimiter is found in a text that opens with the
    opening delimiter: right after the three dashes, or after a block
    of lines. *)
Lemma split_closing rest a b :
  Str.split_first closing_delimiter (opening_delimiter +:+ rest) = Some (a, b) →
  (a = "---" ∧ rest = "---" +:+ Str.nl +:+ b)
  ∨ ∃ block, a = opening_delimiter +:+ block
             ∧ rest = block +:+ closing_delimiter +:+ b.
Proof.
  unfold opening_delimiter. rewrite !sapp_cons. intros H.
  do 3 (rewrite split_first_cons in H by done).
  change ("" +:+ rest) with rest in H.
  destruct (Str.strip_prefix closing_delimiter (String "010" rest)) as [r|] eqn:E.
  - left. rewrite (split_first_here _ _ _ E) in H. simpl in H.
    inversion H; subst.
    apply strip_prefix_Some in E. unfold closing_delimiter in E.
    rewrite sapp_cons in E. by inversion E.
  - right. rewrite split_first_cons in H by done.
    destruct (Str.split_first closing_delimiter rest) as [[a3 b3]|] eqn:E3;
      [|done].
    simpl in H. inversion H; subst. apply split_first_Some in E3.
    by exists a3.
Qed.

Section ReadContents.
Context (host : Host).

Lemma readContents_no_header contents :
  recognized_header contents = false →
  readContents host contents = Ok {| frontMatter := VNull; mainText := contents |}.
Proof.
  unfold recognized_header, readContents. intros H.
  destruct (Str.starts_with opening_delimiter contents); [|done].
  simpl in H. apply index_of_occurs in H. rewrite H.
  by rewrite bool_decide_false by (intros ?; done).
Qed.

Lemma readContents_header contents :
  recognized_header contents = true →
  ∃ block body,
    contents = opening_delimiter +:+ block +:+ "---" +:+ Str.nl +:+ body
    ∧ readContents host contents
      = (fm ← yaml_load host block;
         Ok {| frontMatter := js_or fm (VObj []); mainText := body |}).
Proof.
  unfold recognized_header. intros [H1 H2]%andb_true_iff.
  destruct (starts_with_true _ _ H1) as [rest ->].
  unfold readContents. rewrite H1. unfold Str.index_of.
  unfold Str.occurs in H2.
  destruct (Str.split_first _ _) as [[a b]|] eqn:E; [clear H2|done].
  rewrite bool_decide_true by lia.
  destruct (split_closing _ _ _ E) as [[-> ->]|(block & -> & ->)].
  - exists "", b. split; [done|].
    pose proof (slice_mid_app opening_delimiter "" ("---" +:+ Str.nl +:+ b)) as S1.
    pose proof (slice_from_app (opening_delimiter +:+ "---" +:+ Str.nl) b) as S2.
    rewrite !sapp_assoc in S2.
    change (Z.of_nat (Str.len "---") + 1)
      with (Z.of_nat (Str.len opening_delimiter + Str.len "")).
    change (Z.of_nat (Str.len "---") + 5)
      with (Z.of_nat (Str.len (opening_delimiter +:+ "---" +:+ Str.nl))).
    change 4 with (Z.of_nat (Str.len opening_delimiter)).
    change ("" +:+ "---" +:+ Str.nl +:+ b) with ("---" +:+ Str.nl +:+ b) in S1.
    by rewrite S1, S2.
  - exists (block +:+ Str.nl), b.
    assert (opening_delimiter +:+ block +:+ closing_delimiter +:+ b
            = opening_delimiter +:+ (block +:+ Str.nl) +:+ "---" +:+ Str.nl +:+ b)
      as Heq.
    { unfold closing_delimiter. f_equal. rewrite !sapp_assoc. done. }
    split; [done|]. rewrite Heq.
    pose proof (slice_mid_app opening_delimiter (block +:+ Str.nl)
                  ("---" +:+ Str.nl +:+ b)) as S1.
    pose proof (slice_from_app
                  (opening_delimiter +:+ (block +:+ Str.nl) +:+ "---" +:+ Str.nl)
                  b) as S2.
    rewrite !sapp_assoc in S2.
    replace (Z.of_nat (Str.len (opening_delimiter +:+ block)) + 1)
      with (Z.of_nat (Str.len opening_delimiter + Str.len (block +:+ Str.nl)))
      by (rewrite !slen_app; simpl; lia).
    replace (Z.of_nat (Str.len (opening_delimiter +:+ block)) + 5)
      with (Z.of_nat (Str.len (opening_delimiter +:+ (block +:+ Str.nl)
                               +:+ "---" +:+ Str.nl)))
      by (rewrite !slen_app; simpl; lia).
    change 4 with (Z.of_nat (Str.len opening_delimiter)).
    rewrite !sapp_assoc. rewrite !sapp_assoc in S1.
    by rewrite S1, S2.
Qed.

(** C1: the front-matter splitter returns null metadata exactly when no
    header block is recognised. Without the opening line of three dashes
    at the very start, or without a closing line after it, the result is
    null metadata and the whole text as body. With both, the text is the
    opening line, a block, the closing line and the body; the block goes
    to the YAML parser and the metadata is what it loads, or the empty
    mapping when that is [null], [undefined] or another falsy value, and
    so never null. A block the parser rejects makes the call throw. *)
Theorem readContents_null_iff_no_header (contents : string) :
  (recognized_header contents = false →
     readContents host contents
     = Ok {| frontMatter := VNull; mainText := contents |})
  ∧ (recognized_header contents = true →
     ∃ block body,
       contents = opening_delimiter +:+ block +:+ "---" +:+ Str.nl +:+ body
       ∧ (∀ fm, yaml_load host block = Ok fm →
            readContents host contents
            = Ok {| frontMatter := if truthy fm then fm else VObj [];
                    mainText := body |})
       ∧ (∀ e, yaml_load host block = Throw e →
            readContents host contents = Throw e))
  ∧ (∀ r, readContents host contents = Ok r →
       (frontMatter r = VNull ↔ recognized_header contents = false)).
Proof.
  split; [apply readContents_no_header|]. split.
  - intros H. destruct (readContents_header _ H) as (block & body & Hc & Hr).
    exists block, body. split; [done|]. rewrite Hr.
    split; [intros fm ->|intros e ->]; done.
  - intros r Hr. destruct (recognized_header contents) eqn:H.
    + destruct (readContents_header _ H) as (block & body & _ & Hr').
      rewrite Hr' in Hr. destruct (yaml_load host block) as [fm|]; [|done].
      simpl in Hr. inversion Hr; subst; simpl. unfold js_or.
      split; intros Hx; [|done].
      destruct fm; simpl in Hx; repeat case_match; done.
    + rewrite (readContents_no_header _ H) in Hr. by inversion Hr.
Qed.

End ReadContents.

(** * fillTemplate *)


Lemma has_char_cons c a s :
  Str.has_char c (String a s) = false ↔ a ≠ c ∧ Str.has_char c s = false.
Proof.
  unfold Str.has_char. simpl. rewrite !negb_false_iff.
  by rewrite andb_true_iff, negb_true_iff, bool_decide_eq_false.
Qed.















(** ** The string of a value *)

Section ToStringFacts.
Context (host : Host).

Lemma ToString_to_string v s : ToString host v = Ok s → to_string host v = s.
Proof. unfold to_string. by intros ->. Qed.

Lemma to_string_Ok v :
  (∃ s, ToString host v = Ok s) → ToString host v = Ok (to_string host v).
Proof. unfold to_string. by intros [s ->]. Qed.


End ToStringFacts.

Section FillTemplate.
Context (host : Host).




End FillTemplate.



Section FillTemplateClaim.
Context (host : Host).


End FillTemplateClaim.



(** * Facts about values *)

Lemma bind_Ok {A B} (r : Res A) (k : A → Res B) (y : B) :
  (r ≫= k) = Ok y → ∃ a, r = Ok a ∧ k a = Ok y.
Proof. destruct r as [a|e]; [|done]. intros H. by exists a. Qed.

Lemma lookup_set_prop {A} k (v : A) ps :
  lookup_prop k (set_prop k v ps) = Some v.
Proof.
  induction ps as [|[k' v'] ps IH]; simpl; [by rewrite decide_True|].
  case_decide; simpl; [by rewrite decide_True|]. by rewrite decide_False.
Qed.

Lemma lookup_set_prop_ne {A} k k' (v : A) ps :
  k' ≠ k → lookup_prop k' (set_prop k v ps) = lookup_prop k' ps.
Proof.
  intros Hne. induction ps as [|[k1 v1] ps IH]; simpl.
  - by rewrite decide_False.
  - destruct (decide (k = k1)) as [->|]; simpl.
    + by rewrite !decide_False.
    + by rewrite IH.
Qed.

Lemma assign_record o k v :
  record_like o → plain_key k →
  ∃ o', assign o k v = Ok o' ∧ record_like o' ∧ field k o' = v
        ∧ ∀ k', k' ≠ k → field k' o' = field k' o.
Proof.
  intros Ho (Hi & Hl & Hp). destruct o as [| | | | | |ps|xs ps|t ps]; try done.
  - exists (VObj (set_prop k v ps)). simpl. rewrite bool_decide_false by done.
    repeat split.
    + unfold field. simpl. by rewrite lookup_set_prop.
    + intros k' Hne. unfold field. simpl. by rewrite lookup_set_prop_ne.
  - exists (VArr xs (set_prop k v ps)). simpl.
    rewrite bool_decide_false, Hi, bool_decide_false by done.
    repeat split.
    + unfold field. simpl. rewrite Hi, bool_decide_false by done.
      by rewrite lookup_set_prop.
    + intros k' Hne. unfold field. simpl.
      destruct (array_index k'); [done|]. case_bool_decide; [done|].
      by rewrite lookup_set_prop_ne.
  - exists (VDate t (set_prop k v ps)). simpl. rewrite bool_decide_false by done.
    repeat split.
    + unfold field. simpl. by rewrite lookup_set_prop.
    + intros k' Hne. unfold field. simpl. by rewrite lookup_set_prop_ne.
Qed.

Lemma get_record o k : record_like o → get o k = Ok (field k o).
Proof.
  intros Ho. unfold field.
  destruct o as [| | | | | |ps|xs ps|t ps]; try done.
  simpl. by destruct (array_index k).
Qed.

Ltac plain_key := repeat split; (reflexivity || discriminate).

Section Posts.
Context (host : Host).

(** Tags are normalised on records only; on anything else the reading of
    [post.tags.forEach] throws. *)
Lemma normalize_tags_Ok post post' :
  normalize_tags post = Ok post' →
  record_like post ∧ record_like post'
  ∧ ∀ k, k ≠ "tags" → field k post' = field k post.
Proof.
  intros H.
  assert (record_like post) as Hr.
  { destruct post as [| | | | | |ps|xs ps|t ps]; try done;
      unfold normalize_tags in H; simpl in H;
      try destruct (array_index "tags"); try done;
      repeat (case_match; simplify_eq/=; try done). }
  split; [done|].
  unfold normalize_tags in H. rewrite (get_record _ _ Hr) in H. simpl in H.
  destruct (assign_record post "tags" (VArr [] []) Hr ltac:(plain_key))
    as (p1 & Hp1 & Hr1 & Hf1 & Hk1).
  set (p2 := if truthy (field "tags" post) then post else p1).
  assert (record_like p2 ∧ ∀ k, k ≠ "tags" → field k p2 = field k post)
    as [Hr2 Hk2].
  { unfold p2. destruct (truthy _); [done|]. split; [done|]. apply Hk1. }
  assert ((if truthy (field "tags" post) then Ok post
           else assign post "tags" (VArr [] [])) = Ok p2) as Hp2.
  { unfold p2. by destruct (truthy _). }
  rewrite Hp2 in H. simpl in H. rewrite (get_record _ _ Hr2) in H. simpl in H.
  apply bind_Ok in H as (fe & Hfe & H).
  destruct (resolved_truthy fe).
  { inversion H; subst. done. }
  apply bind_Ok in H as (sp & Hsp & H).
  destruct (resolved_truthy sp); [|by inversion H; subst].
  apply bind_Ok in H as (? & _ & H).
  destruct (field "tags" p2) eqn:Et; try done.
  destruct (assign_record p2 "tags" (VArr (VStr <$> Str.split_ws s) []) Hr2
              ltac:(plain_key)) as (p3 & Hp3 & Hr3 & Hf3 & Hk3).
  rewrite Hp3 in H. inversion H; subst. split; [done|].
  intros k Hk. by rewrite Hk3, Hk2.
Qed.

End Posts.

Section BuildPost.
Context (host : Host).

Ltac use_assign o k v Hp :=
  let o' := fresh "p" in
  let E := fresh "E" in
  let Hr := fresh "Hr" in
  let Hf := fresh "Hf" in
  let Hk := fresh "Hk" in
  destruct (assign_record o k v ltac:(done) ltac:(plain_key))
    as (o' & E & Hr & Hf & Hk);
  rewrite E in Hp; simpl in Hp.

(** What the body of the loop of [readPosts] leaves in a post. *)
Lemma build_post_Ok renderMarkdown config d1 d2 d3 d4 d5 contents post :
  build_post host renderMarkdown config (d1, d2, d3, d4, d5) contents = Ok post →
  let metadata := js_or (frontMatter contents) (VObj []) in
  record_like post
  ∧ field "date" post
    = new_Date host (Str.digits_value d1) (Str.digits_value d2 - 1)
        (Str.digits_value d3)
  ∧ field "name" post = VStr d4
  ∧ (d5 = "link" →
       field "isLink" post = VBool true
       ∧ (∃ escd,
            escapeHTML host (field "url" metadata) = Ok escd
            ∧ field "content" post = VStr (link_fragment escd))
       ∧ field "url" post = field "url" metadata)
  ∧ (d5 ≠ "link" → field "isLink" post = field "isLink" metadata).
Proof.
  intros H metadata. unfold build_post in H. fold metadata in H.
  apply bind_Ok in H as (p1 & Hp1 & H). apply bind_Ok in H as (p2 & Hp2 & H).
  apply bind_Ok in H as (p3 & Hp3 & H).
  apply normalize_tags_Ok in Hp3 as (Hr2 & Hr3 & Hk3).
  assert (record_like metadata) as Hr0.
  { destruct metadata; simpl in Hp1; simplify_eq; simpl in Hp2; simplify_eq;
      done. }
  use_assign metadata "date"
    (new_Date host (Str.digits_value d1) (Str.digits_value d2 - 1)
       (Str.digits_value d3)) Hp1.
  inversion Hp1; subst p1; clear Hp1.
  use_assign p "name" (VStr d4) Hp2. inversion Hp2; subst p2; clear Hp2.
  case_bool_decide as Hd5.
  - rewrite (get_record _ _ Hr3) in H. simpl in H.
    apply bind_Ok in H as (escd & Hescd & H).
    apply bind_Ok in H as (p4 & Hp4 & H).
    use_assign p3 "content" (VStr (link_fragment escd)) Hp4.
    inversion Hp4; subst p4; clear Hp4.
    use_assign p1 "isLink" (VBool true) H. inversion H; subst post; clear H.
    assert (∀ k, k ≠ "date" → k ≠ "name" → k ≠ "tags" → k ≠ "content" →
                 k ≠ "isLink" → field k p2 = field k metadata) as Hother.
    { intros k ?????. by rewrite Hk2, Hk1, Hk3, Hk0, Hk. }
    split; [done|]. split.
    { by rewrite Hk2, Hk1, Hk3, Hk0. }
    split.
    { by rewrite Hk2, Hk1, Hk3. }
    split; [|done]. intros _. split; [done|]. split.
    + exists escd. split; [|by rewrite Hk2, Hf1].
      rewrite <-Hescd. f_equal. by rewrite Hk3, Hk0, Hk.
    + by apply Hother.
  - apply bind_Ok in H as (p4 & Hp4 & H). apply bind_Ok in H as (url & Hu & H).
    match type of Hp4 with assign _ _ ?v = _ => use_assign p3 "content" v Hp4 end.
    inversion Hp4; subst p4; clear Hp4.
    use_assign p1 "url" url H. inversion H; subst post; clear H.
    split; [done|]. split.
    { by rewrite Hk2, Hk1, Hk3, Hk0. }
    split.
    { by rewrite Hk2, Hk1, Hk3. }
    split; [done|]. intros _.
    by rewrite Hk2, Hk1, Hk3, Hk0, Hk.
Qed.

End BuildPost.

(** * Facts about the state monad *)

Lemma mbind_Ok {A B} (m : M A) (k : A → M B) st st' (y : B) :
  (m ≫= k) st = (st', Ok y) →
  ∃ a st1, m st = (st1, Ok a) ∧ k a st1 = (st', Ok y).
Proof.
  unfold mbind, M_bind. destruct (m st) as [st1 [a|e]]; [|done].
  intros H. by exists a, st1.
Qed.

Lemma lift_Ok {A} (r : Res A) st st' (a : A) :
  lift r st = (st', Ok a) → st' = st ∧ r = Ok a.
Proof. unfold lift. by intros [= -> ->]. Qed.

Lemma readFileSync_Ok root path st st' text :
  readFileSync root path st = (st', Ok text) →
  file_data root (trace st) (norm_path path) = Some text
  ∧ trace st' = trace st ++ [EvRead path]
  ∧ layouts st' = layouts st ∧ partials st' = partials st.
Proof.
  unfold readFileSync. intros H. apply mbind_Ok in H as (s & st1 & Hs & H).
  inversion Hs; subst; clear Hs.
  destruct (file_data _ _ _) as [d|]; [|by apply lift_Ok in H as [_ ?]].
  apply mbind_Ok in H as ([] & st2 & He & H).
  inversion He; subst; clear He. by inversion H; subst.
Qed.

(** * readPosts *)

Lemma digits12_dash_Some s m r :
  digits12_dash s = Some (m, r) →
  s = m +:+ "-" +:+ r ∧ Str.forallb Str.is_digit m = true
  ∧ (Str.len m = 1 ∨ Str.len m = 2)%nat.
Proof.
  unfold digits12_dash. intros H.
  repeat (case_match; simplify_eq/=; try done);
    repeat match goal with
           | H : bool_decide _ = true |- _ => apply bool_decide_eq_true in H
           end; subst; rewrite ?andb_true_r; auto.
  split; [done|]. split; [|by right]. by apply andb_true_iff.
Qed.

Lemma split_last_Some c s a b :
  Str.split_last c s = Some (a, b) →
  s = a +:+ String c b ∧ Str.has_char c b = false.
Proof.
  revert a; induction s as [|x s IH]; intros a H; [done|]. simpl in H.
  destruct (Str.split_last c s) as [[a' b']|] eqn:E.
  - inversion H; subst. destruct (IH _ eq_refl) as [-> ?].
    by rewrite sapp_cons.
  - case_decide; [|done]. inversion H; subst. split; [done|].
    clear -E. induction b as [|y b IHb]; [done|]. simpl in E.
    destruct (Str.split_last c b) as [[??]|]; [done|].
    case_decide; [done|]. apply has_char_cons. auto.
Qed.

(** A name that matches is the year, the month, the day, the slug and
    the extension with their separators. *)
Lemma match_post_name_Some file d1 d2 d3 d4 d5 :
  match_post_name file = Some (d1, d2, d3, d4, d5) →
  file = d1 +:+ "-" +:+ d2 +:+ "-" +:+ d3 +:+ "-" +:+ d4 +:+ "." +:+ d5
  ∧ Str.len d1 = 4%nat ∧ Str.forallb Str.is_digit d1 = true
  ∧ (Str.len d2 = 1 ∨ Str.len d2 = 2)%nat ∧ Str.forallb Str.is_digit d2 = true
  ∧ (Str.len d3 = 1 ∨ Str.len d3 = 2)%nat ∧ Str.forallb Str.is_digit d3 = true
  ∧ d4 ≠ "" ∧ d5 ∈ post_extensions.
Proof.
  unfold match_post_name. intros H.
  destruct (bool_decide (Str.len (Str.take 4 file) = 4%nat)
            && Str.forallb Str.is_digit (Str.take 4 file)) eqn:Hy; [|done].
  apply andb_true_iff in Hy as [Hlen%bool_decide_eq_true Hdig].
  destruct (Str.strip_prefix "-" (Str.drop 4 file)) as [r1|] eqn:E1; [|done].
  simpl in H.
  destruct (digits12_dash r1) as [[m r2]|] eqn:E2; [|done]. simpl in H.
  destruct (digits12_dash r2) as [[d r3]|] eqn:E3; [|done]. simpl in H.
  destruct (Str.split_last "." r3) as [[slug ext]|] eqn:E4; [|done]. simpl in H.
  case_match eqn:Hc; [|done]. inversion H; subst; clear H.
  apply andb_true_iff in Hc as [[Hs%negb_true_iff _]%andb_true_iff He].
  apply bool_decide_eq_false in Hs. apply bool_decide_eq_true in He.
  apply strip_prefix_Some in E1.
  apply digits12_dash_Some in E2 as (-> & ? & ?).
  apply digits12_dash_Some in E3 as (-> & ? & ?).
  apply split_last_Some in E4 as [-> _].
  repeat split; try done.
  assert (∀ n s, Str.take n s +:+ Str.drop n s = s) as Htd.
  { clear. induction n as [|n IH]; intros [|c s]; simpl; try done.
    by rewrite sapp_cons, IH. }
  rewrite <- (Htd 4%nat file) at 1. by rewrite E1.
Qed.

(** * The calendar *)

Lemma digits_value_go_nonneg s : ∀ acc, 0 ≤ acc → 0 ≤ Str.digits_value_go acc s.
Proof.
  induction s as [|c s IH]; intros acc Hacc; [done|]. simpl.
  destruct (Ascii.is_nat c); [apply IH; lia|done].
Qed.

Lemma digits_value_nonneg s : 0 ≤ Str.digits_value s.
Proof. by apply digits_value_go_nonneg. Qed.

Lemma leap_year_spec y :
  leap_year y = true ↔ y mod 4 = 0 ∧ (y mod 100 ≠ 0 ∨ y mod 400 = 0).
Proof.
  unfold leap_year.
  rewrite andb_true_iff, orb_true_iff, negb_true_iff, !Z.eqb_eq, Z.eqb_neq.
  done.
Qed.

Ltac month_table :=
  unfold days_to_month;
  repeat match goal with
         | |- context [seqZ ?a ?b] =>
             let l := eval vm_compute in (seqZ a b) in
             change (seqZ a b) with l
         end;
  cbn [foldr]; unfold days_in_month;
  cbn -[Z.div Z.modulo Z.mul Z.add Z.sub leap_year].

Ltac leap_cases y :=
  let E := fresh "E" in
  destruct (leap_year y) eqn:E;
  [apply leap_year_spec in E
  |apply not_true_iff_false in E; rewrite leap_year_spec in E].

(** The day number of the first of a month, computed by
    [days_from_civil], is the one the calendar gives. *)
Lemma days_from_civil_calendar y m :
  1 ≤ m ≤ 12 → days_from_civil y m 1 = calendar_day y m 1.
Proof.
  intros Hm.
  assert (m = 1 ∨ m = 2 ∨ m = 3 ∨ m = 4 ∨ m = 5 ∨ m = 6 ∨ m = 7 ∨ m = 8
          ∨ m = 9 ∨ m = 10 ∨ m = 11 ∨ m = 12) as Hc by lia.
  unfold calendar_day, days_to_year.
  repeat (destruct Hc as [->|Hc]); try subst m;
    unfold days_from_civil; month_table; leap_cases y;
    Z.div_mod_to_equations; lia.
Qed.

(** The calendar counts days: within a month, from a month to the
    next, and from a year to the next. *)
Lemma calendar_day_next y m d :
  1 ≤ m ≤ 12 →
  calendar_day y m (d + 1) = calendar_day y m d + 1
  ∧ (m < 12 →
       calendar_day y (m + 1) 1 = calendar_day y m (days_in_month y m) + 1)
  ∧ calendar_day (y + 1) 1 1 = calendar_day y 12 31 + 1.
Proof.
  intros Hm. split; [unfold calendar_day; lia|]. split.
  - intros Hlt.
    assert (m = 1 ∨ m = 2 ∨ m = 3 ∨ m = 4 ∨ m = 5 ∨ m = 6 ∨ m = 7 ∨ m = 8
            ∨ m = 9 ∨ m = 10 ∨ m = 11) as Hc by lia.
    unfold calendar_day.
    repeat (destruct Hc as [->|Hc]); try subst m;
      month_table; leap_cases y; lia.
  - unfold calendar_day, days_to_year. month_table. leap_cases y;
      Z.div_mod_to_equations; lia.
Qed.

Section ReadPost.
Context (host : Host).

Lemma readPost_Ok rm config root posts file d st st' posts' :
  match_post_name file = Some d →
  readPost host rm config root posts file st = (st', Ok posts') →
  ∃ text contents post,
    file_data root (trace st) (norm_path ("_posts/" +:+ file)) = Some text
    ∧ readContents host text = Ok contents
    ∧ build_post host rm config d contents = Ok post
    ∧ posts' = posts ++ [post].
Proof.
  unfold readPost. intros -> H.
  apply mbind_Ok in H as (text & st1 & Ht & H).
  apply readFileSync_Ok in Ht as (Ht & _).
  apply mbind_Ok in H as (contents & st2 & Hc & H).
  apply lift_Ok in Hc as [-> Hc].
  apply mbind_Ok in H as (post & st3 & Hp & H).
  apply lift_Ok in Hp as [-> Hp].
  inversion H; subst. by exists text, contents, post.
Qed.

(** The day number [make_day] computes is the day of the calendar: the
    month, counted from zero, carries into the year by twelves. *)
Lemma make_day_calendar y m d :
  make_day y (m - 1) d
  = calendar_day (y + (m - 1) / 12) ((m - 1) mod 12 + 1) d.
Proof.
  unfold make_day.
  rewrite days_from_civil_calendar by (Z.div_mod_to_equations; lia).
  unfold calendar_day. lia.
Qed.

(** C5, amended: for a post file whose name matches the pattern, i.e.
    is [year-month-day-slug.ext] with a year of four digits and a month
    and a day of one or two, the date of the post that is collected
    comes from the three numbers of the name alone; whatever the
    metadata of the file says, a [date] in it included, plays no part.
    With a year from 0100 on and a month from 1 to 12 the date is the
    local midnight of the calendar day the name spells. A year 0000 to
    0099 stands for the year 1900 later; a month 00 or beyond 12 is
    counted on from January by twelves into the years before or after,
    and a day 00 or beyond the end of the month is counted on from the
    first of the month. The day number is the calendar's: 1 January
    1970 is day 0, each day of a month is one more than the day before,
    each first of a month one more than the last of the month before. *)
Theorem post_date_from_file_name rm config root posts file d1 d2 d3 d4 d5
    st st' posts' :
  match_post_name file = Some (d1, d2, d3, d4, d5) →
  readPost host rm config root posts file st = (st', Ok posts') →
  ∃ y m d post,
    file = d1 +:+ "-" +:+ d2 +:+ "-" +:+ d3 +:+ "-" +:+ d4 +:+ "." +:+ d5
    ∧ y = Str.digits_value d1 ∧ m = Str.digits_value d2
    ∧ d = Str.digits_value d3
    ∧ 0 ≤ y ∧ 0 ≤ m ∧ 0 ≤ d
    ∧ posts' = posts ++ [post]
    ∧ field "date" post
      = VDate (midnight host
                 ((if y <=? 99 then 1900 + y else y) + (m - 1) / 12)
                 ((m - 1) mod 12 + 1) d) []
    ∧ (100 ≤ y → 1 ≤ m ≤ 12 →
         field "date" post = VDate (midnight host y m d) [])
    ∧ calendar_day 1970 1 1 = 0
    ∧ (∀ Y M D, 1 ≤ M ≤ 12 →
         calendar_day Y M (D + 1) = calendar_day Y M D + 1
         ∧ (M < 12 →
              calendar_day Y (M + 1) 1
              = calendar_day Y M (days_in_month Y M) + 1)
         ∧ calendar_day (Y + 1) 1 1 = calendar_day Y 12 31 + 1).
Proof.
  intros Hm H.
  destruct (readPost_Ok _ _ _ _ _ _ _ _ _ Hm H)
    as (text & contents & post & _ & _ & Hp & ->).
  apply build_post_Ok in Hp as (_ & Hd & _).
  pose proof (digits_value_nonneg d1) as Hy.
  exists (Str.digits_value d1), (Str.digits_value d2), (Str.digits_value d3),
    post.
  split; [by apply match_post_name_Some in Hm as [? _]|].
  do 3 (split; [done|]).
  do 3 (split; [apply digits_value_nonneg|]).
  split; [done|].
  assert (field "date" post
          = VDate (midnight host
                     ((if Str.digits_value d1 <=? 99
                       then 1900 + Str.digits_value d1
                       else Str.digits_value d1)
                      + (Str.digits_value d2 - 1) / 12)
                     ((Str.digits_value d2 - 1) mod 12 + 1)
                     (Str.digits_value d3)) []) as Hdate.
  { rewrite Hd. unfold new_Date, midnight. rewrite make_day_calendar.
    replace (0 <=? Str.digits_value d1) with true
      by (symmetry; by apply Z.leb_le).
    done. }
  split; [done|]. split.
  { intros Hy' Hmonth. rewrite Hdate.
    rewrite (proj2 (Z.leb_gt _ _)) by lia.
    replace ((Str.digits_value d2 - 1) / 12) with 0
      by (Z.div_mod_to_equations; lia).
    replace ((Str.digits_value d2 - 1) mod 12 + 1) with (Str.digits_value d2)
      by (Z.div_mod_to_equations; lia).
    by rewrite Z.add_0_r. }
  split; [done|]. apply calendar_day_next.
Qed.

End ReadPost.

(** C5 as stated fails: the file [0099-01-01-old.md] gives a post of
    1 January 1999. *)
Lemma post_date_year_99_counterexample :
  ¬ date_is_encoded_day demo_host
      [Dir "_posts" [File "0099-01-01-old.md" "old"]] "0099-01-01-old.md".
Proof.
  intros H.
  specialize (H id demo_config "0099" "01" "01" "old" "md" initial_state).
  set (r := readPost demo_host id demo_config
              [Dir "_posts" [File "0099-01-01-old.md" "old"]] []
              "0099-01-01-old.md" initial_state) in H.
  assert (∃ st' post, r = (st', Ok [post])
            ∧ field "date" post
              = VDate (midnight demo_host 1999 1 1) [])
    as (st' & post & Hr & Hd).
  { do 2 eexists. split; by vm_compute. }
  specialize (H st' post eq_refl Hr). rewrite Hd in H.
  vm_compute in H. discriminate.
Qed.

Lemma post_date_from_file_name_witness :
  ∃ post,
    [post] = [] ++ [post]
    ∧ field "date" post = VDate 1709596800000 []
    ∧ readContents demo_host
        (with_front_matter ("date: 1999-01-01" +:+ Str.nl) "**hi**")
      = Ok {| frontMatter := VObj [("date", VDate 915148800000 [])];
              mainText := "**hi**" |}.
Proof.
  destruct (post_date_from_file_name demo_host id demo_config demo_root []
              "2024-3-5-dated.md" "2024" "3" "5" "dated" "md" initial_state
              (readPost demo_host id demo_config demo_root []
                 "2024-3-5-dated.md" initial_state).1
              (match (readPost demo_host id demo_config demo_root []
                        "2024-3-5-dated.md" initial_state).2 with
               | Ok l => l
               | Throw _ => []
               end)
              eq_refl ltac:(by vm_compute))
    as (y & m & d & post & _ & -> & -> & -> & _ & _ & _ & Hp & _ & Hd & _).
  exists post. split; [done|]. split; [|by vm_compute].
  rewrite Hd by (vm_compute; intuition discriminate). by vm_compute.
Defined.



Section LinkPosts.
Context (host : Host).




End LinkPosts.


(** * The walk *)

(** Induction over a tree of entries, with the claim available for
    every entry of a directory. *)
Lemma Entry_tree_ind (P : Entry → Prop) :
  (∀ n t, P (File n t)) →
  (∀ n es, Forall P es → P (Dir n es)) →
  ∀ e, P e.
Proof.
  intros HF HD. fix IH 1. intros [n t|n es]; [apply HF|].
  apply HD. induction es as [|e es IHes]; constructor; [apply IH|apply IHes].
Qed.

Lemma prune_entry_Dir n es : prune_entry (Dir n es) = Dir n (prune es).
Proof. reflexivity. Qed.

Lemma M_bind_ext {A B} (m : M A) (k1 k2 : A → M B) st :
  (∀ a st1, k1 a st1 = k2 a st1) → (m ≫= k1) st = (m ≫= k2) st.
Proof.
  intros H. unfold mbind, M_bind. by destruct (m st) as [st1 [a|e]].
Qed.

Section Walk.
Context (host : Host) (global_ctx : option Value).
Context (renderMarkdown : string → string) (config : Value) (root : list Entry).

(** A directory that is neither hidden nor excluded is walked by
    [walkDir] itself, one level down. *)
Lemma walk_entry_Dir dir n es st :
  walk_entry host global_ctx renderMarkdown config root dir (Dir n es) st
  = (if is_hidden n then mret ()
     else excluded ← lift (isExcluded host config (dir +:+ n));
          if excluded : bool then mret ()
          else walkDir host global_ctx renderMarkdown config root
                 (dir +:+ n +:+ "/") es) st.
Proof.
  simpl. destruct (is_hidden n); [done|].
  apply M_bind_ext. intros [] st1; [done|].
  rewrite sapp_assoc. generalize (dir +:+ n +:+ "/"). intros d. revert st1.
  unfold walkDir.
  induction es as [|e es IH]; intros st1; [done|].
  simpl forEach. by apply M_bind_ext.
Qed.

Lemma walk_entry_hidden dir e st :
  is_hidden (entry_name e) = true →
  walk_entry host global_ctx renderMarkdown config root dir e st = (st, Ok ()).
Proof. intros H. destruct e; simpl in *; by rewrite H. Qed.

Lemma walkDir_cons dir e es st :
  walkDir host global_ctx renderMarkdown config root dir (e :: es) st
  = (_ ← walk_entry host global_ctx renderMarkdown config root dir e;
     walkDir host global_ctx renderMarkdown config root dir es) st.
Proof. reflexivity. Qed.

Lemma walkDir_prune_step dir e es st :
  (∀ st1, walk_entry host global_ctx renderMarkdown config root dir e st1
          = walk_entry host global_ctx renderMarkdown config root dir
              (prune_entry e) st1) →
  (∀ st1, walkDir host global_ctx renderMarkdown config root dir es st1
          = walkDir host global_ctx renderMarkdown config root dir
              (prune es) st1) →
  walkDir host global_ctx renderMarkdown config root dir (e :: es) st
  = walkDir host global_ctx renderMarkdown config root dir (prune (e :: es)) st.
Proof.
  intros He Hes. rewrite walkDir_cons. simpl prune.
  destruct (is_hidden (entry_name e)) eqn:Hh.
  - unfold mbind, M_bind. rewrite walk_entry_hidden by done. apply Hes.
  - rewrite walkDir_cons. unfold mbind, M_bind. rewrite <- He.
    destruct (walk_entry _ _ _ _ _ _ e st) as [st2 [[]|?]]; [|done]. apply Hes.
Qed.

Lemma walk_entry_prune e : ∀ dir st,
  walk_entry host global_ctx renderMarkdown config root dir e st
  = walk_entry host global_ctx renderMarkdown config root dir (prune_entry e) st.
Proof.
  induction e as [n t|n es IH] using Entry_tree_ind; intros dir st; [done|].
  rewrite prune_entry_Dir, !walk_entry_Dir.
  destruct (is_hidden n); [done|].
  apply M_bind_ext. intros [] st1; [done|].
  generalize (dir +:+ n +:+ "/"). intros d. revert st1.
  induction IH as [|e es He Hes IHes]; intros st1; [done|].
  by apply walkDir_prune_step.
Qed.

(** C10: an entry whose name starts with an underscore or a dot is
    skipped at whatever depth the walk meets it: walking it changes
    nothing and does nothing, and the walk of a directory goes exactly as
    the walk of the same directory with all such entries, at every
    depth, taken out: the same events in the same order, the same layout
    cache and the same outcome. Nothing of them is read, copied, rendered
    or entered, so nothing of them reaches the output tree. *)
Theorem walk_skips_hidden_entries :
  (∀ dir e st,
     is_hidden (entry_name e) = true →
     walk_entry host global_ctx renderMarkdown config root dir e st
     = (st, Ok ()))
  ∧ (∀ dir es st,
       walkDir host global_ctx renderMarkdown config root dir es st
       = walkDir host global_ctx renderMarkdown config root dir (prune es) st).
Proof.
  split; [apply walk_entry_hidden|].
  intros dir es. induction es as [|e es IH]; intros st; [done|].
  apply walkDir_prune_step; [|done]. intros st1. apply walk_entry_prune.
Qed.

End Walk.

(** * getLayout *)

Lemma written_data_app tr tr' p :
  written_data (tr ++ tr') p
  = match written_data tr' p with
    | Some d => Some d
    | None => written_data tr p
    end.
Proof.
  induction tr as [|ev tr IH]; simpl.
  - by destruct (written_data tr' p).
  - rewrite IH. by destruct (written_data tr' p).
Qed.

(** Reading and compiling leave the files as they are. *)
Lemma file_data_read_compile root tr path source p :
  file_data root (tr ++ [EvRead path; EvCompile source]) p = file_data root tr p.
Proof. unfold file_data. by rewrite written_data_app. Qed.

Section GetLayout.
Context (host : Host).

(** A call that finds the name in the cache changes nothing. *)
Lemma getLayout_hit global_ctx root name nm l st :
  layout_name host name = Ok nm →
  layouts st !! to_string host nm = Some l →
  getLayout host global_ctx root name st = (st, Ok l).
Proof.
  intros Hn Hl. unfold getLayout. unfold mbind at 1, M_bind, lift. rewrite Hn.
  unfold mbind at 1, M_bind, get_state. by rewrite Hl.
Qed.

(** A call that misses the cache reads the file and compiles it; then
    the identifier [ctx] is evaluated. *)
Lemma getLayout_miss global_ctx root name nm source st :
  layout_name host name = Ok nm →
  layouts st !! to_string host nm = None →
  file_data root (trace st) (norm_path ("_layouts/" +:+ to_string host nm))
  = Some source →
  getLayout host global_ctx root name st
  = match global_ctx with
    | None =>
        (with_trace st [EvRead ("_layouts/" +:+ to_string host nm);
                        EvCompile source],
         Throw ReferenceError)
    | Some ctx =>
        let l := {| lay_tmpl := {| tpl_partials := partials st;
                                   tpl_source := source |};
                    lay_ctx := ctx;
                    lay_filename := nm |} in
        ({| trace := trace st ++ [EvRead ("_layouts/" +:+ to_string host nm);
                                  EvCompile source];
            layouts := <[to_string host nm := l]> (layouts st);
            partials := partials st |},
         Ok l)
    end.
Proof.
  intros Hn Hl Hf. unfold getLayout. unfold mbind at 1, M_bind, lift.
  rewrite Hn. unfold mbind at 1, M_bind, get_state. rewrite Hl.
  unfold readFileSync, mbind, M_bind, get_state, emit, compile, lift,
    lookup_ctx, cache_layout, with_trace. simpl. rewrite Hf. simpl.
  rewrite <- !(assoc_L (++)). by destruct global_ctx.
Qed.



End GetLayout.

(** C3, on the code as it stands: [getLayout] evaluates [ctx], an
    identifier that nothing binds, after it has read and compiled the
    file and before it stores anything in [layouts]. A call for a name
    that is not cached therefore reads the file, compiles it and throws a
    ReferenceError, and a second call with the same name does all of it
    again: two reads, two compilations, no render function. *)
Theorem getLayout_unbound_ctx_reads_again (host : Host) root name nm source st :
  layout_name host name = Ok nm →
  layouts st !! to_string host nm = None →
  file_data root (trace st) (norm_path ("_layouts/" +:+ to_string host nm))
  = Some source →
  let events := [EvRead ("_layouts/" +:+ to_string host nm);
                 EvCompile source] in
  getLayout host None root name st
  = (with_trace st events, Throw ReferenceError)
  ∧ getLayout host None root name (with_trace st events)
    = (with_trace st (events ++ events), Throw ReferenceError).
Proof.
  intros Hn Hl Hf events. subst events. split.
  - by rewrite (getLayout_miss host None _ _ _ _ _ Hn Hl Hf).
  - rewrite (getLayout_miss host None _ _ nm source); try done.
    + unfold with_trace. simpl. by rewrite <- (assoc_L (++)).
    + simpl. by rewrite file_data_read_compile.
Qed.

Lemma getLayout_unbound_ctx_reads_again_witness :
  (getLayout demo_host None demo_root (VStr "post") initial_state).2
  = Throw ReferenceError
  ∧ getLayout demo_host None demo_root (VStr "post")
      (getLayout demo_host None demo_root (VStr "post") initial_state).1
    = (with_trace initial_state
         [EvRead "_layouts/post.html"; EvCompile "POST";
          EvRead "_layouts/post.html"; EvCompile "POST"],
       Throw ReferenceError).
Proof.
  destruct (getLayout_unbound_ctx_reads_again demo_host demo_root
              (VStr "post") (VStr "post.html") "POST" initial_state
              eq_refl eq_refl eq_refl) as [H1 H2].
  split; [by rewrite H1|]. rewrite H1. exact H2.
Defined.

(** If the global object does bind [ctx], the cache works as C3 says: the
    first call for a name reads and compiles the file once, the second
    returns the very same layout and touches nothing. *)
Lemma getLayout_cached_when_ctx_bound (host : Host) ctx root name nm source st :
  layout_name host name = Ok nm →
  layouts st !! to_string host nm = None →
  file_data root (trace st) (norm_path ("_layouts/" +:+ to_string host nm))
  = Some source →
  ∃ st1 l,
    getLayout host (Some ctx) root name st = (st1, Ok l)
    ∧ trace st1 = trace st ++ [EvRead ("_layouts/" +:+ to_string host nm);
                               EvCompile source]
    ∧ lay_filename l = nm
    ∧ getLayout host (Some ctx) root name st1 = (st1, Ok l).
Proof.
  intros Hn Hl Hf. eexists _, _.
  rewrite (getLayout_miss host (Some ctx) _ _ _ _ _ Hn Hl Hf). simpl.
  split; [done|]. split; [done|]. split; [done|].
  apply (getLayout_hit host _ _ _ nm); [done|]. simpl.
  apply lookup_insert_eq.
Qed.

(** * The walk: where a rendered file is written *)

Lemma written_data_mkdirs tr evs p :
  Forall is_mkdir evs → written_data (tr ++ evs) p = written_data tr p.
Proof.
  intros H. rewrite written_data_app.
  assert (written_data evs p = None) as ->; [|done].
  induction H as [|ev evs Hev _ IH]; [done|]. simpl. rewrite IH.
  by destruct ev.
Qed.

Lemma mkdirSync_Ok root path st st' :
  mkdirSync root path st = (st', Ok ()) → st' = with_trace st [EvMkdir path].
Proof.
  unfold mkdirSync, mbind, M_bind, get_state, lift, emit.
  destruct (file_data _ _ _); [done|]. by intros [= <-].
Qed.

(** [ensureDirectories] makes directories and does nothing else. *)
Lemma ensure_loop_Ok root parts : ∀ cur st st',
  ensure_loop root cur parts st = (st', Ok ()) →
  ∃ evs, st' = with_trace st evs ∧ Forall is_mkdir evs.
Proof.
  induction parts as [|part parts IH]; intros cur st st' H.
  - inversion H; subst. exists []. unfold with_trace.
    rewrite app_nil_r. by destruct st'.
  - destruct parts as [|part' parts].
    + inversion H; subst. exists []. unfold with_trace.
      rewrite app_nil_r. by destruct st'.
    + change (ensure_loop root cur (part :: part' :: parts))
        with (there ← exists_dir root (cur +:+ part +:+ "/");
              _ ← (if there : bool then mret ()
                   else mkdirSync root (cur +:+ part +:+ "/"));
              ensure_loop root (cur +:+ part +:+ "/") (part' :: parts)) in H.
      apply mbind_Ok in H as (there & st1 & H1 & H).
      unfold exists_dir, mbind, M_bind, get_state in H1. simpl in H1.
      inversion H1; subst st1; clear H1.
      apply mbind_Ok in H as ([] & st2 & H2 & H).
      apply IH in H as (evs & -> & Hevs).
      destruct there.
      * inversion H2; subst st2. by exists evs.
      * apply mkdirSync_Ok in H2 as ->.
        exists (EvMkdir (cur +:+ part +:+ "/") :: evs). split.
        -- unfold with_trace. simpl. by rewrite <- (assoc_L (++)).
        -- by constructor.
Qed.



(** ** Suffixes *)










Lemma get_truthy v k : truthy v = true → get v k = Ok (field k v).
Proof.
  intros H. unfold field. destruct v; simpl in *; try done;
    repeat case_match; done.
Qed.

Lemma file_data_mkdirs root tr evs p :
  Forall is_mkdir evs → file_data root (tr ++ evs) p = file_data root tr p.
Proof. intros H. unfold file_data. by rewrite written_data_mkdirs. Qed.

Lemma file_data_read root tr path p :
  file_data root (tr ++ [EvRead path]) p = file_data root tr p.
Proof. unfold file_data. by rewrite written_data_app. Qed.

Section EmitFile.
Context (host : Host).


End EmitFile.


(** * The JSON copy of the context *)

(** Induction over a value with the claim available for every element
    and every property value. *)
Lemma Value_tree_ind (P : Value → Prop) :
  P VUndefined → P VNull → (∀ b, P (VBool b)) → (∀ n, P (VNum n)) →
  (∀ s, P (VStr s)) → (∀ f, P (VFun f)) →
  (∀ ps, Forall (λ p, P p.2) ps → P (VObj ps)) →
  (∀ xs ps, Forall P xs → Forall (λ p, P p.2) ps → P (VArr xs ps)) →
  (∀ t ps, Forall (λ p, P p.2) ps → P (VDate t ps)) →
  ∀ v, P v.
Proof.
  intros HU HN HB HZ HS HF HO HA HD. fix IH 1.
  intros [| |b|n|s|f|ps|xs ps|t ps];
    [exact HU|exact HN|apply HB|apply HZ|apply HS|apply HF|..].
  - apply HO.
    induction ps as [|[k x] ps IHps]; constructor; [apply IH|exact IHps].
  - apply HA.
    + induction xs as [|x xs IHxs]; constructor; [apply IH|exact IHxs].
    + induction ps as [|[k x] ps IHps]; constructor; [apply IH|exact IHps].
  - apply HD.
    induction ps as [|[k x] ps IHps]; constructor; [apply IH|exact IHps].
Qed.



Lemma insert_by_index_perm {A} (e : N * (string * A)) l :
  insert_by_index e l ≡ₚ e :: l.
Proof.
  induction l as [|e' l IH]; [done|]. simpl.
  destruct (_ <=? _)%N; [done|]. rewrite IH. apply Permutation_swap.
Qed.

(** The enumeration order is a rearrangement of the properties. *)
Lemma enum_props_perm {A} (ps : list (string * A)) : enum_props ps ≡ₚ ps.
Proof.
  unfold enum_props. induction ps as [|[k v] ps IH]; [done|].
  rewrite filter_cons. simpl in *.
  destruct (array_index k) as [i|] eqn:E; simpl.
  - rewrite insert_by_index_perm. simpl. by rewrite IH.
  - rewrite <- Permutation_middle. by rewrite IH.
Qed.


Lemma lookup_prop_cons {A} k k' (v : A) ps :
  lookup_prop k ((k', v) :: ps)
  = if decide (k = k') then Some v else lookup_prop k ps.
Proof. reflexivity. Qed.


Lemma lookup_prop_Some {A} k (v : A) ps :
  lookup_prop k ps = Some v → k ∈ ps.*1.
Proof.
  induction ps as [|[k' x] ps IH]; [done|]. rewrite lookup_prop_cons, fmap_cons.
  case_decide; subst; rewrite elem_of_cons; auto.
Qed.

Section JsonCopy.
Context (host : Host).

Lemma json_props_cons k x ps :
  json_props host ((k, x) :: ps)
  = match json_copy host x with
    | Some y => (k, y) :: json_props host ps
    | None => json_props host ps
    end.
Proof. unfold json_props. simpl. by destruct (json_copy host x). Qed.

Lemma json_copy_VObj ps :
  json_copy host (VObj ps) = Some (VObj (enum_props (json_props host ps))).
Proof.
  simpl. do 3 f_equal.
  induction ps as [|[k x] ps IH]; [done|]. rewrite json_props_cons.
  destruct (json_copy host x); by rewrite IH.
Qed.






End JsonCopy.

Lemma assign_VObj ps k v :
  assign (VObj ps) k v
  = Ok (VObj (if bool_decide (k = "__proto__") then ps else set_prop k v ps)).
Proof. simpl. by case_bool_decide. Qed.

(** The overlay of the call-specific keys writes those keys and no
    other. *)
Lemma overlay_VObj entries : ∀ ps finalCtx,
  overlay (VObj ps) entries = Ok finalCtx →
  ∃ ps', finalCtx = VObj ps'
         ∧ ∀ k, k ∉ entries.*1 → lookup_prop k ps' = lookup_prop k ps.
Proof.
  unfold overlay.
  induction entries as [|[k v] entries IH]; intros ps finalCtx H.
  - inversion H; subst. by exists ps.
  - cbn [foldM fst snd] in H. rewrite assign_VObj in H.
    apply bind_Ok in H as (acc & [= <-] & H).
    apply IH in H as (ps' & -> & Hps'). exists ps'. split; [done|].
    intros k'. rewrite fmap_cons. intros [Hne Hk']%not_elem_of_cons.
    rewrite Hps' by done. case_bool_decide; [done|].
    by apply lookup_set_prop_ne.
Qed.

Section PartialTemplate.
Context (host : Host).



End PartialTemplate.


Section GatherTags.
Context (host : Host).

Lemma foldM_nil {A B} (f : B → A → Res B) b : foldM f b [] = Ok b.
Proof. reflexivity. Qed.

Lemma foldM_cons {A B} (f : B → A → Res B) b a l :
  foldM f b (a :: l) = f b a ≫= λ b', foldM f b' l.
Proof. reflexivity. Qed.

Lemma foldM_app {A B} (f : B → A → Res B) l1 l2 : ∀ b,
  foldM f b (l1 ++ l2) = foldM f b l1 ≫= λ b', foldM f b' l2.
Proof.
  induction l1 as [|a l1 IH]; intros b; [done|].
  rewrite <-app_comm_cons, !foldM_cons. destruct (f b a); [apply IH|done].
Qed.

(** Filing a post under a tag named [__proto__] replaces the prototype
    of the index; no own key of that name ever appears. *)
Lemma file_under_proto post idx tag idx' :
  file_under host post idx tag = Ok idx' →
  lookup_prop "__proto__" (buckets idx) = None →
  lookup_prop "__proto__" (buckets idx') = None
  ∧ proto_bucket idx'
    = if bool_decide (to_string host tag = "__proto__") then Some [post]
      else proto_bucket idx.
Proof.
  unfold file_under. intros H Hnone.
  destruct (lookup_prop "hasOwnProperty" (buckets idx)); [done|].
  destruct (ToString host tag) as [key|e] eqn:Et; [|done].
  apply ToString_to_string in Et as <-. cbn [mbind Res_bind] in H.
  destruct (lookup_prop (to_string host tag) (buckets idx)) as [v|] eqn:Hk.
  - assert (to_string host tag ≠ "__proto__") as Hne by congruence.
    destruct v; try done. injection H as <-. simpl.
    rewrite lookup_set_prop_ne by done. by rewrite bool_decide_eq_false_2.
  - case_bool_decide; injection H as <-; simpl; [done|].
    by rewrite lookup_set_prop_ne.
Qed.

Lemma foldM_file_under_proto post xs : ∀ idx idx',
  foldM (file_under host post) idx xs = Ok idx' →
  lookup_prop "__proto__" (buckets idx) = None →
  lookup_prop "__proto__" (buckets idx') = None
  ∧ proto_bucket idx'
    = if bool_decide ("__proto__" ∈ to_string host <$> xs) then Some [post]
      else proto_bucket idx.
Proof.
  induction xs as [|x xs IH]; intros idx idx' H Hnone.
  - injection H as <-. split; [done|]. rewrite bool_decide_eq_false_2; [done|].
    apply not_elem_of_nil.
  - rewrite foldM_cons in H. apply bind_Ok in H as (idx1 & H1 & H).
    destruct (file_under_proto _ _ _ _ H1 Hnone) as [Hnone1 Hp1].
    destruct (IH _ _ H Hnone1) as [Hnone' Hp']. split; [done|].
    rewrite Hp', Hp1, fmap_cons.
    destruct (decide (to_string host x = "__proto__")) as [Heq|Hne].
    + rewrite (bool_decide_eq_true_2 (_ ∈ _ :: _)) by (rewrite Heq; left).
      rewrite (bool_decide_eq_true_2 (_ = _)) by done. by case_bool_decide.
    + rewrite (bool_decide_eq_false_2 (_ = _)) by done.
      rewrite (bool_decide_ext (_ ∈ _ :: _) ("__proto__" ∈ to_string host <$> xs));
        [done|]. rewrite elem_of_cons. naive_solver.
Qed.

Lemma gather_post_proto acc post acc' :
  gather_post host acc post = Ok acc' →
  lookup_prop "__proto__" (buckets acc.1) = None →
  lookup_prop "__proto__" (buckets acc'.1) = None
  ∧ proto_bucket acc'.1
    = if bool_decide ("__proto__" ∈ tags_of host post) then Some [post]
      else proto_bucket acc.1.
Proof.
  unfold gather_post, tags_of, field. intros H Hnone.
  apply bind_Ok in H as (tags & -> & H).
  destruct (truthy tags) eqn:Ht.
  - apply bind_Ok in H as ([] & _ & H). destruct tags; try done.
    apply bind_Ok in H as (idx & H & [= <-]). simpl.
    by apply foldM_file_under_proto.
  - apply bind_Ok in H as (post' & _ & [= <-]). simpl. split; [done|].
    rewrite bool_decide_eq_false_2; [done|].
    destruct tags; try done; apply not_elem_of_nil.
Qed.

Lemma foldM_gather_post_proto posts : ∀ acc acc',
  foldM (gather_post host) acc posts = Ok acc' →
  lookup_prop "__proto__" (buckets acc.1) = None →
  lookup_prop "__proto__" (buckets acc'.1) = None
  ∧ proto_bucket acc'.1
    = match last (filter (λ p, "__proto__" ∈ tags_of host p) posts) with
      | Some p => Some [p]
      | None => proto_bucket acc.1
      end.
Proof.
  induction posts as [|p posts IH] using rev_ind; intros acc acc' H Hnone.
  - by injection H as <-.
  - rewrite foldM_app in H. apply bind_Ok in H as (acc1 & H1 & H).
    rewrite foldM_cons in H. apply bind_Ok in H as (acc2 & H2 & [= <-]).
    destruct (IH _ _ H1 Hnone) as [Hnone1 Hp1].
    destruct (gather_post_proto _ _ _ H2 Hnone1) as [Hnone2 Hp2].
    split; [done|]. rewrite Hp2, filter_app, filter_cons, filter_nil.
    case_bool_decide as Hin.
    + rewrite decide_True by done. by rewrite last_snoc.
    + rewrite decide_False by done. by rewrite app_nil_r.
Qed.

(** C6: the bucket that [tags["__proto__"]] reads holds the last post
    that declares the tag [__proto__] and no other, however many posts
    declare it, and [__proto__] never becomes a key of the index: every
    such post replaces the prototype of the index by a new array that
    holds this post alone. *)
Theorem gatherTags_proto_tag_keeps_last_post posts idx posts' :
  gatherTags host posts = Ok (idx, posts') →
  lookup_prop "__proto__" (buckets idx) = None
  ∧ tag_lookup idx "__proto__"
    = (λ p, [p]) <$> last (filter (λ p, "__proto__" ∈ tags_of host p) posts).
Proof.
  intros H. unfold gatherTags in H.
  destruct (foldM_gather_post_proto _ _ _ H eq_refl) as [Hnone Hp].
  split; [done|]. unfold tag_lookup. rewrite bool_decide_eq_true_2 by done.
  simpl in Hp. rewrite Hp. by destruct (last _).
Qed.

End GatherTags.

Lemma gatherTags_proto_tag_keeps_last_post_witness :
  ∃ idx,
    gatherTags demo_host
      [tagged "one" ["__proto__"]; tagged "two" ["a"; "__proto__"]]
    = Ok (idx, [tagged "one" ["__proto__"]; tagged "two" ["a"; "__proto__"]])
    ∧ buckets idx = [("a", VArr [tagged "two" ["a"; "__proto__"]] [])]
    ∧ tag_lookup idx "__proto__" = Some [tagged "two" ["a"; "__proto__"]].
Proof.
  set (p1 := tagged "one" ["__proto__"]).
  set (p2 := tagged "two" ["a"; "__proto__"]).
  exists {| buckets := [("a", VArr [p2] [])]; proto_bucket := Some [p2] |}.
  split; [by vm_compute|]. split; [done|].
  destruct (gatherTags_proto_tag_keeps_last_post demo_host [p1; p2]
              {| buckets := [("a", VArr [p2] [])]; proto_bucket := Some [p2] |}
              [p1; p2] ltac:(by vm_compute)) as [_ ->].
  by vm_compute.
Defined.

Section TagIndexExact.
Context (host : Host).

Lemma file_under_bucket post idx tag idx' T :
  file_under host post idx tag = Ok idx' →
  T ≠ "__proto__" →
  buckets_ok idx →
  buckets_ok idx'
  ∧ bucket idx' T
    = bucket idx T ++ (if decide (to_string host tag = T) then [post] else []).
Proof.
  unfold file_under, bucket. intros H HT Hok.
  destruct (lookup_prop "hasOwnProperty" (buckets idx)); [done|].
  destruct (ToString host tag) as [key|e] eqn:Et; [|done].
  apply ToString_to_string in Et as <-. cbn [mbind Res_bind] in H.
  destruct (lookup_prop (to_string host tag) (buckets idx)) as [v|] eqn:Hk.
  - destruct (Hok _ _ Hk) as (xs & Hxs & ->). injection H as <-. simpl. split.
    + intros T' v'. simpl. destruct (decide (T' = to_string host tag)) as [->|Hne].
      * rewrite lookup_set_prop. intros [= <-]. exists (xs ++ [post]).
        split; [|done]. by destruct xs.
      * rewrite lookup_set_prop_ne by done. apply Hok.
    + case_decide as Heq.
      * subst T. by rewrite lookup_set_prop, Hk.
      * rewrite lookup_set_prop_ne by done. by rewrite app_nil_r.
  - case_bool_decide as Hp; injection H as <-; simpl.
    + split; [done|]. rewrite decide_False by congruence. by rewrite app_nil_r.
    + split.
      * intros T' v'. simpl. destruct (decide (T' = to_string host tag)) as [->|Hne].
        -- rewrite lookup_set_prop. intros [= <-]. by exists [post].
        -- rewrite lookup_set_prop_ne by done. apply Hok.
      * case_decide as Heq.
        -- subst T. by rewrite lookup_set_prop, Hk.
        -- rewrite lookup_set_prop_ne by done. by rewrite app_nil_r.
Qed.

Lemma foldM_file_under_bucket post T xs : ∀ idx idx',
  foldM (file_under host post) idx xs = Ok idx' →
  T ≠ "__proto__" →
  buckets_ok idx →
  buckets_ok idx'
  ∧ bucket idx' T
    = bucket idx T ++ ((λ _, post) <$> filter (λ t, t = T) (to_string host <$> xs)).
Proof.
  induction xs as [|x xs IH]; intros idx idx' H HT Hok.
  - injection H as <-. split; [done|]. by rewrite app_nil_r.
  - rewrite foldM_cons in H. apply bind_Ok in H as (idx1 & H1 & H).
    destruct (file_under_bucket _ _ _ _ T H1 HT Hok) as [Hok1 Hb1].
    destruct (IH _ _ H HT Hok1) as [Hok' Hb']. split; [done|].
    rewrite Hb', Hb1, <-app_assoc, fmap_cons, filter_cons. f_equal.
    by case_decide.
Qed.

Lemma gather_post_bucket acc post acc' T :
  gather_post host acc post = Ok acc' →
  T ≠ "__proto__" →
  buckets_ok acc.1 →
  buckets_ok acc'.1
  ∧ bucket acc'.1 T = bucket acc.1 T ++ filed_under host T [post].
Proof.
  unfold gather_post, filed_under. intros H HT Hok.
  rewrite bind_singleton. unfold tags_of, field.
  apply bind_Ok in H as (tags & -> & H).
  destruct (truthy tags) eqn:Ht.
  - apply bind_Ok in H as ([] & _ & H). destruct tags; try done.
    apply bind_Ok in H as (idx & H & [= <-]). simpl.
    by apply foldM_file_under_bucket.
  - apply bind_Ok in H as (post' & _ & [= <-]). simpl. split; [done|].
    destruct tags; try done; by rewrite app_nil_r.
Qed.

Lemma foldM_gather_post_bucket T posts : ∀ acc acc',
  foldM (gather_post host) acc posts = Ok acc' →
  T ≠ "__proto__" →
  buckets_ok acc.1 →
  buckets_ok acc'.1
  ∧ bucket acc'.1 T = bucket acc.1 T ++ filed_under host T posts.
Proof.
  induction posts as [|p posts IH]; intros acc acc' H HT Hok.
  - injection H as <-. split; [done|]. by rewrite app_nil_r.
  - rewrite foldM_cons in H. apply bind_Ok in H as (acc1 & H1 & H).
    destruct (gather_post_bucket _ _ _ T H1 HT Hok) as [Hok1 Hb1].
    destruct (IH _ _ H HT Hok1) as [Hok' Hb']. split; [done|].
    rewrite Hb', Hb1, <-app_assoc. f_equal.
    unfold filed_under. by rewrite bind_singleton, bind_cons.
Qed.

Lemma filter_eq_NoDup (T : string) (l : list string) :
  NoDup l → filter (λ t, t = T) l = if decide (T ∈ l) then [T] else [].
Proof.
  induction 1 as [|t l Hnin Hnd IH]; [done|]. rewrite filter_cons, IH.
  destruct (decide (t = T)) as [->|Hne].
  - rewrite (decide_True (P := T ∈ T :: l)) by left. by rewrite decide_False.
  - destruct (decide (T ∈ l)) as [Hin|Hnin'].
    + by rewrite decide_True by by right.
    + rewrite decide_False; [done|]. rewrite elem_of_cons. naive_solver.
Qed.

Lemma filed_under_NoDup T posts :
  (∀ p, p ∈ posts → NoDup (tags_of host p)) →
  filed_under host T posts = filter (λ p, T ∈ tags_of host p) posts.
Proof.
  unfold filed_under. induction posts as [|p posts IH]; intros Hnd; [done|].
  rewrite bind_cons, filter_cons, IH by (intros; apply Hnd; by right).
  rewrite filter_eq_NoDup by (apply Hnd; left). by case_decide.
Qed.

(** The tag index away from the name [__proto__]: a run of [gatherTags]
    that returns leaves, for every other tag [T], a key [T] exactly if
    some post lists [T]; the value is then an array of the posts that
    list [T], in the order of the posts, once for each time a post lists
    it. *)
Theorem gatherTags_exact posts idx posts' T :
  gatherTags host posts = Ok (idx, posts') →
  T ≠ "__proto__" →
  lookup_prop T (buckets idx)
  = (if decide (filed_under host T posts = []) then None
     else Some (VArr (filed_under host T posts) []))
  ∧ ((∀ p, p ∈ posts → NoDup (tags_of host p)) →
     filed_under host T posts = filter (λ p, T ∈ tags_of host p) posts).
Proof.
  intros H HT. split; [|apply filed_under_NoDup].
  destruct (foldM_gather_post_bucket T _ _ _ H HT) as [Hok Hb].
  { intros ? ? [=]. }
  simpl in Hb. unfold bucket in Hb.
  destruct (lookup_prop T (buckets idx)) as [v|] eqn:Hk.
  - destruct (Hok _ _ Hk) as (xs & Hxs & ->). subst xs.
    by rewrite decide_False.
  - by rewrite <-Hb, decide_True.
Qed.

End TagIndexExact.

Lemma gatherTags_exact_witness :
  ∃ idx,
    lookup_prop "a" (buckets idx)
    = Some (VArr [tagged "one" ["a"; "b"]; tagged "three" ["a"]] [])
    ∧ lookup_prop "c" (buckets idx) = None.
Proof.
  set (posts := [tagged "one" ["a"; "b"]; tagged "two" [];
                 tagged "three" ["a"]]).
  pose (r := gatherTags demo_host posts).
  assert (∃ idx, r = Ok (idx, posts)) as [idx Hr].
  { eexists. by vm_compute. }
  exists idx. split.
  - destruct (gatherTags_exact demo_host posts idx posts "a" Hr
                ltac:(done)) as [-> _].
    by vm_compute.
  - destruct (gatherTags_exact demo_host posts idx posts "c" Hr
                ltac:(done)) as [-> _].
    by vm_compute.
Defined.

(** A tag named [hasOwnProperty] becomes an own property of the index
    and hides the method: filing the next tag throws. *)
Lemma gatherTags_hasOwnProperty_tag_throws :
  gatherTags demo_host [tagged "one" ["hasOwnProperty"; "a"]]
  = Throw TypeError.
Proof. by vm_compute. Qed.

(** A post that lists a tag twice is filed twice under it. *)
Lemma gatherTags_repeated_tag_files_twice :
  ∃ idx,
    gatherTags demo_host [tagged "one" ["a"; "a"]]
    = Ok (idx, [tagged "one" ["a"; "a"]])
    ∧ tag_lookup idx "a"
      = Some [tagged "one" ["a"; "a"]; tagged "one" ["a"; "a"]].
Proof. eexists. split; by vm_compute. Qed.

(** * The store *)

Lemma mapM_impl {A B} (f g : A → option B) l k :
  mapM f l = Some k → (∀ x y, f x = Some y → g x = Some y) →
  mapM g l = Some k.
Proof.
  rewrite !mapM_Some. intros H Hfg. eapply Forall2_impl; [exact H|]. auto.
Qed.

Lemma reify_props_Some n h ps tps :
  reify_props n h ps = Some tps ↔ props_rel (λ x t, reify n h x = Some t) ps tps.
Proof.
  unfold reify_props, props_rel. rewrite mapM_Some.
  split; intros H; (eapply Forall2_impl; [exact H|]); intros [k x] [k' t]; simpl.
  - destruct (reify n h x); [|done]. by intros [= -> ->].
  - by intros [-> ->].
Qed.

Lemma reify_0 h v :
  reify 0 h v
  = match v with
    | HUndefined => Some VUndefined
    | HNull => Some VNull
    | HBool b => Some (VBool b)
    | HNum z => Some (VNum z)
    | HStr s => Some (VStr s)
    | HRef _ => None
    end.
Proof. by destruct v. Qed.

Lemma reify_S n h v :
  reify (S n) h v
  = match v with
    | HUndefined => Some VUndefined
    | HNull => Some VNull
    | HBool b => Some (VBool b)
    | HNum z => Some (VNum z)
    | HStr s => Some (VStr s)
    | HRef l =>
        c ← h !! l;
        match c with
        | CObj ps => VObj <$> reify_props n h ps
        | CArr xs ps =>
            xs' ← mapM (reify n h) xs;
            ps' ← reify_props n h ps; Some (VArr xs' ps')
        | CDate t ps => VDate t <$> reify_props n h ps
        | CFun f => Some (VFun f)
        end
    end.
Proof. by destruct v. Qed.

(** More fuel and more cells unfold a value to the same tree. *)
Lemma reify_mono n : ∀ m h ext v t,
  reify n h v = Some t → (n ≤ m)%nat → reify m (h ++ ext) v = Some t.
Proof.
  induction n as [|n IH]; intros m h ext v t H Hle.
  - rewrite reify_0 in H. destruct m; [rewrite reify_0|rewrite reify_S];
      by destruct v.
  - destruct m as [|m]; [lia|]. rewrite reify_S in H. rewrite reify_S.
    destruct v as [| | | | |l]; try done.
    destruct (h !! l) as [c|] eqn:Hl; [|done].
    rewrite (lookup_app_l_Some _ _ _ _ Hl). simpl in *.
    assert (∀ ps tps, reify_props n h ps = Some tps →
              reify_props m (h ++ ext) ps = Some tps) as Hps.
    { intros ps tps Hp. eapply mapM_impl; [exact Hp|].
      intros [k x] [k' y]. simpl.
      destruct (reify n h x) as [z|] eqn:Hx; [|done].
      rewrite (IH m h ext x z Hx) by lia. done. }
    destruct c as [ps|xs ps|d ps|f]; [| | |done].
    + destruct (reify_props n h ps) as [tps|] eqn:Hp; [|done].
      by rewrite (Hps _ _ Hp).
    + destruct (mapM (reify n h) xs) as [txs|] eqn:Hxs; [|done].
      destruct (reify_props n h ps) as [tps|] eqn:Hp; [|done].
      rewrite (mapM_impl _ (reify m (h ++ ext)) _ _ Hxs), (Hps _ _ Hp); [done|].
      intros x y Hx. apply IH; [done|lia].
    + destruct (reify_props n h ps) as [tps|] eqn:Hp; [|done].
      by rewrite (Hps _ _ Hp).
Qed.

Lemma alloc_list_eq xs h :
  (fix go (xs : list Value) (h : heap) : heap * list hval :=
     match xs with
     | [] => (h, [])
     | x :: xs' =>
         let '(h1, x') := alloc x h in
         let '(h2, xs'') := go xs' h1 in
         (h2, x' :: xs'')
     end) xs h = alloc_list xs h.
Proof.
  revert h. induction xs as [|x xs IH]; intros h; [done|]. simpl.
  destruct (alloc x h) as [h1 x']. by rewrite IH.
Qed.

Lemma alloc_props_eq ps h :
  (fix go (ps : Props) (h : heap) : heap * list (string * hval) :=
     match ps with
     | [] => (h, [])
     | (k, x) :: ps' =>
         let '(h1, x') := alloc x h in
         let '(h2, ps'') := go ps' h1 in
         (h2, (k, x') :: ps'')
     end) ps h = alloc_props ps h.
Proof.
  revert h. induction ps as [|[k x] ps IH]; intros h; [done|]. simpl.
  destruct (alloc x h) as [h1 x']. by rewrite IH.
Qed.

Lemma alloc_VObj ps h :
  alloc (VObj ps) h
  = ((alloc_props ps h).1 ++ [CObj (alloc_props ps h).2],
     HRef (length (alloc_props ps h).1)).
Proof. simpl. rewrite alloc_props_eq. by destruct (alloc_props ps h). Qed.

Lemma alloc_VDate t ps h :
  alloc (VDate t ps) h
  = ((alloc_props ps h).1 ++ [CDate t (alloc_props ps h).2],
     HRef (length (alloc_props ps h).1)).
Proof. simpl. rewrite alloc_props_eq. by destruct (alloc_props ps h). Qed.

Lemma alloc_VArr xs ps h :
  alloc (VArr xs ps) h
  = let h1 := (alloc_list xs h).1 in
    ((alloc_props ps h1).1
       ++ [CArr (alloc_list xs h).2 (alloc_props ps h1).2],
     HRef (length (alloc_props ps h1).1)).
Proof.
  simpl. rewrite alloc_list_eq. destruct (alloc_list xs h) as [h1 xs'].
  rewrite alloc_props_eq. simpl. by destruct (alloc_props ps h1).
Qed.


Lemma reify_props_cons n h k x ps :
  reify_props n h ((k, x) :: ps)
  = t ← reify n h x; tps ← reify_props n h ps; Some ((k, t) :: tps).
Proof. unfold reify_props. simpl. by destruct (reify n h x). Qed.

Lemma mapM_cons {A B} (f : A → option B) x l :
  mapM f (x :: l) = y ← f x; k ← mapM f l; Some (y :: k).
Proof. reflexivity. Qed.

Lemma alloc_props_cons k x ps h :
  alloc_props ((k, x) :: ps) h
  = ((alloc_props ps (alloc x h).1).1,
     (k, (alloc x h).2) :: (alloc_props ps (alloc x h).1).2).
Proof.
  simpl. destruct (alloc x h) as [h1 x']. simpl.
  by destruct (alloc_props ps h1).
Qed.

Lemma alloc_list_cons x xs h :
  alloc_list (x :: xs) h
  = ((alloc_list xs (alloc x h).1).1,
     (alloc x h).2 :: (alloc_list xs (alloc x h).1).2).
Proof.
  simpl. destruct (alloc x h) as [h1 x']. simpl.
  by destruct (alloc_list xs h1).
Qed.

Lemma alloc_props_ok ps :
  Forall (λ p, alloc_ok p.2) ps →
  ∀ h, ∃ cells,
    (alloc_props ps h).1 = h ++ cells
    ∧ ∀ n ext, (length cells ≤ n)%nat →
        reify_props n (h ++ cells ++ ext) (alloc_props ps h).2 = Some ps.
Proof.
  induction 1 as [|[k x] ps Hx _ IH]; intros h.
  - exists []. split; [by rewrite app_nil_r|done].
  - rewrite alloc_props_cons. simpl in Hx.
    destruct (Hx h) as (c1 & E1 & _ & R1).
    destruct (IH (alloc x h).1) as (c2 & E2 & R2).
    exists (c1 ++ c2). cbn [fst snd]. split; [by rewrite E2, E1, app_assoc|].
    intros n ext Hn. rewrite length_app in Hn.
    rewrite reify_props_cons, <-(app_assoc c1 c2 ext), R1 by lia. simpl.
    specialize (R2 n ext). rewrite E1, <-app_assoc in R2.
    rewrite E1. by rewrite R2 by lia.
Qed.

Lemma alloc_list_ok xs :
  Forall alloc_ok xs →
  ∀ h, ∃ cells,
    (alloc_list xs h).1 = h ++ cells
    ∧ ∀ n ext, (length cells ≤ n)%nat →
        mapM (reify n (h ++ cells ++ ext)) (alloc_list xs h).2 = Some xs.
Proof.
  induction 1 as [|x xs Hx _ IH]; intros h.
  - exists []. split; [by rewrite app_nil_r|done].
  - rewrite alloc_list_cons.
    destruct (Hx h) as (c1 & E1 & _ & R1).
    destruct (IH (alloc x h).1) as (c2 & E2 & R2).
    exists (c1 ++ c2). cbn [fst snd]. split; [by rewrite E2, E1, app_assoc|].
    intros n ext Hn. rewrite length_app in Hn.
    rewrite mapM_cons, <-(app_assoc c1 c2 ext), R1 by lia. simpl.
    specialize (R2 n ext). rewrite E1, <-app_assoc in R2.
    rewrite E1. by rewrite R2 by lia.
Qed.

Lemma reify_primitive n h v t :
  match v with HRef _ => False | _ => True end →
  reify 0 h v = Some t → reify n h v = Some t.
Proof. destruct v, n; done. Qed.

Lemma alloc_spec v : alloc_ok v.
Proof.
  induction v as [| |b|z|s|f|ps IH|xs ps IHxs IH|t ps IH] using Value_tree_ind;
    intros h.
  1-5: exists []; simpl; split; [by rewrite app_nil_r|]; split; [done|];
    intros n ext _; by destruct n.
  - exists [CFun f]. simpl. split; [done|]. split; [intros l [= <-]; lia|].
    intros [|n] ext Hn; [simpl in Hn; lia|].
    rewrite reify_S. simpl. by rewrite list_lookup_middle.
  - destruct (alloc_props_ok ps IH h) as (c & E & R).
    exists (c ++ [CObj (alloc_props ps h).2]). rewrite alloc_VObj. simpl.
    rewrite E, length_app, length_app. simpl.
    split; [by rewrite app_assoc|]. split; [intros l [= <-]; lia|].
    intros [|n] ext Hn; [lia|]. rewrite reify_S.
    rewrite <-(app_assoc c), (app_assoc h c). simpl.
    rewrite list_lookup_middle by by rewrite length_app. simpl.
    rewrite <-app_assoc.
    by rewrite (R n (CObj (alloc_props ps h).2 :: ext)) by lia.
  - destruct (alloc_list_ok xs IHxs h) as (c1 & E1 & R1).
    destruct (alloc_props_ok ps IH (alloc_list xs h).1) as (c2 & E2 & R2).
    rewrite alloc_VArr. cbn zeta.
    remember (CArr (alloc_list xs h).2
                (alloc_props ps (alloc_list xs h).1).2) as cl eqn:Hcl.
    exists (c1 ++ c2 ++ [cl]). cbn [fst snd].
    rewrite E2, E1, !length_app. cbn [length].
    split; [by rewrite <-!app_assoc|]. split; [intros l [= <-]; lia|].
    intros [|n] ext Hn; [lia|]. rewrite reify_S.
    replace (h ++ (c1 ++ c2 ++ [cl]) ++ ext)
      with ((h ++ c1 ++ c2) ++ cl :: ext) by by rewrite <-!app_assoc.
    rewrite list_lookup_middle by (rewrite !length_app; lia).
    cbn [mbind option_bind]. rewrite Hcl at 1. rewrite <-!app_assoc.
    rewrite (R1 n (c2 ++ cl :: ext)) by lia. cbn [mbind option_bind].
    specialize (R2 n (cl :: ext)). rewrite E1, <-!app_assoc in R2.
    rewrite E1. by rewrite R2 by lia.
  - destruct (alloc_props_ok ps IH h) as (c & E & R).
    exists (c ++ [CDate t (alloc_props ps h).2]). rewrite alloc_VDate. simpl.
    rewrite E, length_app, length_app. simpl.
    split; [by rewrite app_assoc|]. split; [intros l [= <-]; lia|].
    intros [|n] ext Hn; [lia|]. rewrite reify_S.
    rewrite <-(app_assoc c), (app_assoc h c). simpl.
    rewrite list_lookup_middle by by rewrite length_app. simpl.
    rewrite <-app_assoc.
    by rewrite (R n (CDate t (alloc_props ps h).2 :: ext)) by lia.
Qed.

(** A write through a reference changes the cell it refers to and no
    other: the cells below it stay as they are, and no cell is added. *)
Lemma h_assign_frame v k x h t h' r :
  h_assign v k x (h ++ t) = (h', r) →
  (∀ l, v = HRef l → (length h ≤ l)%nat) →
  ∃ t', h' = h ++ t' ∧ length t' = length t.
Proof.
  intros H Hv. destruct v as [| | | | |l]; simpl in H;
    try (injection H as <- <-; by exists t).
  specialize (Hv l eq_refl).
  destruct ((h ++ t) !! l) as [c|]; [|injection H as <- <-; by exists t].
  destruct (cell_assign c k x) as [c'|e]; injection H as <- <-;
    [|by exists t].
  exists (<[(l - length h)%nat := c']> t).
  by rewrite insert_app_r_alt, length_insert.
Qed.

Section StoreFacts.
Context (host : Host).

Lemma h_overlay_frame f entries : ∀ h t h' r,
  h_overlay f entries (h ++ t) = (h', r) →
  (∀ l, f = HRef l → (length h ≤ l)%nat) →
  ∃ t', h' = h ++ t' ∧ length t' = length t.
Proof.
  induction entries as [|[k x] entries IH]; intros h t h' r H Hf.
  - injection H as <- <-. by exists t.
  - simpl in H. destruct (h_assign f k x (h ++ t)) as [h1 [[]|e]] eqn:Ha.
    + destruct (h_assign_frame _ _ _ _ _ _ _ Ha Hf) as (t1 & -> & Hlen).
      destruct (IH _ _ _ _ H Hf) as (t' & -> & Hlen').
      exists t'. split; [done|congruence].
    + injection H as <- <-. by eapply h_assign_frame.
Qed.

Lemma h_json_roundtrip_frame ctx h h1 r :
  h_json_roundtrip host ctx h = (h1, r) →
  ∃ t, h1 = h ++ t
       ∧ ∀ f l, r = Ok f → f = HRef l → (length h ≤ l < length h1)%nat.
Proof.
  unfold h_json_roundtrip. intros H.
  destruct (reify _ h ctx) as [c|];
    [|injection H as <- <-; exists []; by rewrite app_nil_r].
  destruct (json_roundtrip host c) as [copy|e];
    [|injection H as <- <-; exists []; by rewrite app_nil_r].
  destruct (alloc_spec copy h) as (cells & E & Hl & _).
  destruct (alloc copy h) as [h1' f']. injection H as <- <-. simpl in *.
  exists cells. split; [done|]. intros f l [= <-] ->.
  rewrite E, length_app. by apply Hl.
Qed.

(** The merge adds cells to the store and changes none that was there;
    the merged context, when it is an object, is one of the new cells. *)
Lemma h_merge_context_frame ctx newCtx h h2 r :
  h_merge_context host ctx newCtx h = (h2, r) →
  ∃ t, h2 = h ++ t
       ∧ ∀ f l, r = Ok f → f = HRef l → (length h ≤ l < length h2)%nat.
Proof.
  unfold h_merge_context. intros H.
  destruct (h_json_roundtrip host ctx h) as [h1 [f|e]] eqn:Hj;
    destruct (h_json_roundtrip_frame _ _ _ _ Hj) as (t & -> & Hf);
    [|injection H as <- <-; by exists t].
  assert (∀ l, f = HRef l → (length h ≤ l)%nat) as Hf'.
  { intros l ->. by destruct (Hf _ l eq_refl eq_refl). }
  assert (∀ h2 r,
    match h_overlay f (h_for_in (h ++ t) newCtx) (h ++ t) with
    | (h2, Ok _) => (h2, Ok f)
    | (h2, Throw e) => (h2, Throw e)
    end = (h2, r) →
    ∃ t0, h2 = h ++ t0
      ∧ ∀ f l, r = Ok f → f = HRef l → (length h ≤ l < length h2)%nat) as Hov.
  { clear H. intros h2' r' H.
    destruct (h_overlay f _ (h ++ t)) as [h3 [[]|e]] eqn:Ho;
      destruct (h_overlay_frame _ _ _ _ _ _ Ho Hf') as (t' & -> & Hlen);
      injection H as <- <-; exists t'; (split; [done|]); [|done].
    intros f0 l [= <-] ->.
    specialize (Hf _ l eq_refl eq_refl). rewrite length_app in *. lia. }
  destruct newCtx; try (by apply Hov);
    injection H as <- <-; by exists t.
Qed.

Lemma h_partialTemplate_frame tmpl ctx newCtx h h2 r :
  h_partialTemplate host tmpl ctx newCtx h = Some (h2, r) →
  ∃ t, h2 = h ++ t.
Proof.
  unfold h_partialTemplate. intros H.
  destruct (h_merge_context host ctx newCtx h) as [h2' [f|e]] eqn:Hm;
    destruct (h_merge_context_frame _ _ _ _ _ Hm) as (t & -> & _).
  - destruct (reify _ _ f); [|done]. injection H as <- <-. by exists t.
  - injection H as <- <-. by exists t.
Qed.

End StoreFacts.

Section PropsRel.
Context {A B : Type} (R : A → B → Prop).

Lemma insert_by_index_rel (e : N * (string * A)) (e' : N * (string * B)) l l' :
  e.1 = e'.1 → e.2.1 = e'.2.1 → R e.2.2 e'.2.2 →
  Forall2 (λ a b, a.1 = b.1 ∧ a.2.1 = b.2.1 ∧ R a.2.2 b.2.2) l l' →
  Forall2 (λ a b, a.1 = b.1 ∧ a.2.1 = b.2.1 ∧ R a.2.2 b.2.2)
    (insert_by_index e l) (insert_by_index e' l').
Proof.
  intros He1 He2 He3. induction 1 as [|a b l l' (Ha1 & Ha2 & Ha3) Hl IH].
  - by repeat constructor.
  - simpl. rewrite <-He1, <-Ha1. destruct (_ <=? _)%N.
    + by repeat constructor.
    + by constructor.
Qed.

(** The enumeration order depends on the keys alone. *)
Lemma enum_props_rel ps qs :
  props_rel R ps qs → props_rel R (enum_props ps) (enum_props qs).
Proof.
  unfold props_rel, enum_props. intros H. apply Forall2_app.
  - apply Forall2_fmap.
    eapply Forall2_impl with
      (P := λ a b, a.1 = b.1 ∧ a.2.1 = b.2.1 ∧ R a.2.2 b.2.2);
      [|by intros ?? (_ & ? & ?)].
    induction H as [|[k x] [k' y] ps qs [Hk Hxy] _ IH]; [constructor|].
    simpl in Hk, Hxy. subst k'. cbn [omap list_omap fst].
    destruct (array_index k) as [i|]; cbn [fmap option_fmap option_map];
      [|exact IH].
    cbn [foldr]. by apply insert_by_index_rel.
  - eapply Forall2_filter; [|exact H]. intros [k x] [k' y] [Hk _].
    simpl in *. by subst.
Qed.

Lemma element_props_rel xs ys :
  Forall2 R xs ys → props_rel R (element_props xs) (element_props ys).
Proof.
  unfold props_rel, element_props. intros H.
  apply Forall2_same_length_lookup. split.
  { rewrite !length_imap. by eapply Forall2_length. }
  intros i [k x] [k' y]. rewrite !list_lookup_imap.
  destruct (xs !! i) as [x0|] eqn:Hx; [|done].
  destruct (ys !! i) as [y0|] eqn:Hy; [|done].
  simpl. intros [= <- <-] [= <- <-]. split; [done|]. simpl.
  by eapply Forall2_lookup_lr.
Qed.

Lemma set_prop_rel k x y ps qs :
  R x y → props_rel R ps qs →
  props_rel R (set_prop k x ps) (set_prop k y qs).
Proof.
  unfold props_rel. intros Hxy.
  induction 1 as [|[k1 x1] [k2 y2] ps qs [Hk Hr] Hps IH]; simpl in *.
  - by repeat constructor.
  - subst k2. case_decide; constructor; done.
Qed.

End PropsRel.

Lemma char_props_rel (R : hval → Value → Prop) s :
  (∀ c, R (HStr c) (VStr c)) →
  ∀ i, props_rel R (h_char_props i s) (char_props i s).
Proof.
  intros HR. induction s as [|c s IH]; intros i; [constructor|].
  constructor; [split; [done|apply HR]|apply IH].
Qed.

(** The entries [Object.keys] gives for a value of the store are those
    of the tree it unfolds to, each value unfolding to the value of the
    tree. *)
Lemma h_for_in_rel n h doc d :
  reify (S n) h doc = Some d →
  props_rel (λ x t, reify n h x = Some t) (h_for_in h doc) (for_in d).
Proof.
  rewrite reify_S. destruct doc as [| | | |s|l]; try (intros [= <-]; constructor).
  - intros [= <-]. apply char_props_rel. intros c. by destruct n.
  - simpl. destruct (h !! l) as [c|]; [|done]. simpl.
    destruct c as [ps|xs ps|t ps|f].
    + destruct (reify_props n h ps) as [tps|] eqn:Hp; [|done].
      intros [= <-]. by apply enum_props_rel, reify_props_Some.
    + destruct (mapM (reify n h) xs) as [txs|] eqn:Hxs; [|done].
      destruct (reify_props n h ps) as [tps|] eqn:Hp; [|done].
      intros [= <-]. apply Forall2_app.
      * by apply (element_props_rel (λ x t, reify n h x = Some t)), mapM_Some.
      * by apply (enum_props_rel (λ x t, reify n h x = Some t)),
          reify_props_Some.
    + destruct (reify_props n h ps) as [tps|] eqn:Hp; [|done].
      intros [= <-]. by apply enum_props_rel, reify_props_Some.
    + intros [= <-]. constructor.
Qed.

Lemma unfolds_in_mono n h cells x t :
  reify n h x = Some t → (n ≤ length (h ++ cells))%nat →
  unfolds_in (h ++ cells) x t.
Proof.
  intros H Hn m ext Hm. rewrite <-app_assoc. eapply reify_mono; [exact H|lia].
Qed.

Lemma alloc_props_rel ps h :
  ∃ cells,
    (alloc_props ps h).1 = h ++ cells
    ∧ props_rel (unfolds_in (h ++ cells)) (alloc_props ps h).2 ps.
Proof.
  revert h. induction ps as [|[k x] ps IH]; intros h.
  - exists []. split; [by rewrite app_nil_r|constructor].
  - rewrite alloc_props_cons.
    destruct (alloc_spec x h) as (c1 & E1 & _ & R1).
    destruct (IH (alloc x h).1) as (c2 & E2 & R2).
    exists (c1 ++ c2). cbn [fst snd]. split; [by rewrite E2, E1, app_assoc|].
    constructor.
    + split; [done|]. intros n ext Hn. cbn [snd].
      rewrite !length_app in Hn. rewrite <-!app_assoc. apply R1. lia.
    + rewrite app_assoc, <-E1. exact R2.
Qed.

Lemma h_for_in_ext n h ext doc d :
  reify (S n) h doc = Some d → h_for_in (h ++ ext) doc = h_for_in h doc.
Proof.
  rewrite reify_S. destruct doc as [| | | | |l]; try done. simpl.
  destruct (h !! l) as [c|] eqn:Hl; [|done].
  by rewrite (lookup_app_l_Some _ _ _ _ Hl).
Qed.

Section Refinement.
Context (host : Host).

Lemma overlay_nil v : overlay v [] = Ok v.
Proof. reflexivity. Qed.

Lemma overlay_cons ps k x es :
  overlay (VObj ps) ((k, x) :: es)
  = overlay (VObj (if bool_decide (k = "__proto__") then ps
                   else set_prop k x ps)) es.
Proof. unfold overlay. cbn [foldM fst snd]. by rewrite assign_VObj. Qed.

(** The overlay on the store writes the cell of the merged context as
    the overlay on trees writes the tree. *)
Lemma h_overlay_refines hp es tes :
  props_rel (unfolds_in hp) es tes →
  ∀ fps tps,
    props_rel (unfolds_in hp) fps tps →
    ∃ fps' tps',
      h_overlay (HRef (length hp)) es (hp ++ [CObj fps])
      = (hp ++ [CObj fps'], Ok ())
      ∧ overlay (VObj tps) tes = Ok (VObj tps')
      ∧ props_rel (unfolds_in hp) fps' tps'
      ∧ ∀ k0, k0 ∉ es.*1 → lookup_prop k0 fps' = lookup_prop k0 fps.
Proof.
  induction 1 as [|[k x] [k' y] es tes [Hk Hxy] _ IH]; intros fps tps Hps.
  - by exists fps, tps.
  - simpl in Hk, Hxy. subst k'. rewrite overlay_cons.
    cbn [h_overlay h_assign]. rewrite list_lookup_middle by done.
    unfold cell_assign. case_bool_decide.
    + rewrite list_insert_id by by rewrite list_lookup_middle.
      destruct (IH _ _ Hps) as (fps' & tps' & ? & ? & ? & Hlk).
      exists fps', tps'. repeat split; try done.
      intros k0 [_ Hk0]%not_elem_of_cons. by apply Hlk.
    + rewrite insert_app_r_alt, Nat.sub_diag by done. cbn [insert list_insert].
      destruct (IH (set_prop k x fps) (set_prop k y tps))
        as (fps' & tps' & ? & ? & ? & Hlk); [by apply set_prop_rel|].
      exists fps', tps'. repeat split; try done.
      intros k0 [Hne Hk0]%not_elem_of_cons. rewrite Hlk by done.
      by apply lookup_set_prop_ne.
Qed.

Lemma alloc_props_fresh ps : ∀ h k l,
  lookup_prop k (alloc_props ps h).2 = Some (HRef l) → (length h ≤ l)%nat.
Proof.
  induction ps as [|[k' x] ps IH]; intros h k l; [done|].
  rewrite alloc_props_cons. cbn [snd]. rewrite lookup_prop_cons.
  destruct (alloc_spec x h) as (c1 & E1 & Hl & _).
  case_decide.
  - intros [= Hx]. by destruct (Hl _ Hx).
  - intros Hk%IH. rewrite E1, length_app in Hk. lia.
Qed.

Lemma reify_not_nullish n h doc d :
  reify n h doc = Some d →
  (doc = HUndefined ∧ d = VUndefined) ∨ (doc = HNull ∧ d = VNull)
  ∨ (doc ≠ HUndefined ∧ doc ≠ HNull ∧ object_entries d = Ok (for_in d)).
Proof.
  destruct n as [|n]; [rewrite reify_0|rewrite reify_S];
    destruct doc as [| | | | |l]; try (intros [= <-]; naive_solver).
  intros Hdoc. right; right. split; [done|]. split; [done|].
  destruct (h !! l) as [[ps|xs ps|t ps|f]|]; simpl in Hdoc; [..|done].
  - destruct (reify_props _ h ps); [|done]. by injection Hdoc as <-.
  - destruct (mapM _ xs); [|done]. simpl in Hdoc.
    destruct (reify_props _ h ps); [|done]. by injection Hdoc as <-.
  - destruct (reify_props _ h ps); [|done]. by injection Hdoc as <-.
  - by injection Hdoc as <-.
Qed.

(** The merge on the store, for a site context that is an object and a
    document that is a finite tree: it throws exactly if the merge on
    trees throws; otherwise the merged context is a new cell at the end
    of the store, it unfolds to the merged context on trees, and what it
    holds under a key the document does not have is a primitive or a
    new cell. *)
Lemma h_merge_context_spec ctx doc h base d :
  reify (S (length h)) h ctx = Some (VObj base) →
  reify (S (length h)) h doc = Some d →
  (∃ h1, h_merge_context host ctx doc h = (h1, Throw TypeError)
         ∧ merge_context host (VObj base) d = Throw TypeError)
  ∨ (∃ cc fps tps,
       h_merge_context host ctx doc h
       = ((h ++ cc) ++ [CObj fps], Ok (HRef (length (h ++ cc))))
       ∧ merge_context host (VObj base) d = Ok (VObj tps)
       ∧ props_rel (unfolds_in (h ++ cc)) fps tps
       ∧ ∀ k l, k ∉ (h_for_in h doc).*1 →
           lookup_prop k fps = Some (HRef l) → (length h ≤ l)%nat).
Proof.
  intros Hctx Hdoc.
  unfold h_merge_context, h_json_roundtrip, merge_context, json_roundtrip.
  rewrite Hctx, json_copy_VObj, alloc_VObj.
  set (cps := enum_props (json_props host base)).
  destruct (alloc_props_rel cps h) as (cc & E & Hfps).
  pose proof (alloc_props_fresh cps h) as Hfresh.
  destruct (alloc_props cps h) as [hp fps]. simpl in E, Hfps, Hfresh. subst hp.
  cbn [fst snd]. change (Ok (VObj cps) ≫= ?k) with (k (VObj cps)).
  cbn beta.
  destruct (reify_not_nullish _ _ _ _ Hdoc)
    as [[-> ->]|[[-> ->]|(Hu & Hn & Hd)]]; [left; by eexists..|].
  right. rewrite Hd. change (Ok (for_in d) ≫= ?k) with (k (for_in d)).
  cbn beta.
  pose proof (h_for_in_rel _ _ _ _ Hdoc) as Hes.
  assert (h_for_in ((h ++ cc) ++ [CObj fps]) doc = h_for_in h doc) as Hfi.
  { by rewrite <-app_assoc, (h_for_in_ext _ _ _ _ _ Hdoc). }
  assert (props_rel (unfolds_in (h ++ cc))
            (h_for_in ((h ++ cc) ++ [CObj fps]) doc) (for_in d)) as Hes'.
  { rewrite Hfi.
    eapply Forall2_impl; [exact Hes|]. intros [k x] [k' y] [Hk Hxy].
    split; [done|]. eapply unfolds_in_mono; [exact Hxy|].
    rewrite length_app. lia. }
  destruct (h_overlay_refines _ _ _ Hes' _ _ Hfps)
    as (fps' & tps' & Hov & Htov & Hrel & Hlk).
  exists cc, fps', tps'. rewrite Htov.
  split; [destruct doc; try done; by rewrite Hov|].
  split; [done|]. split; [done|].
  intros k l Hk. rewrite Hlk by by rewrite Hfi. apply Hfresh.
Qed.

(** The render on the store is the render on trees: its result is the
    one [partialTemplate] gives for the tree of the site context and
    the tree of the document. *)
Lemma h_partialTemplate_refines tmpl ctx doc h base d :
  reify (S (length h)) h ctx = Some (VObj base) →
  reify (S (length h)) h doc = Some d →
  ∃ h', h_partialTemplate host tmpl ctx doc h
        = Some (h', partialTemplate host tmpl (VObj base) d).
Proof.
  intros Hctx Hdoc. unfold h_partialTemplate, partialTemplate.
  destruct (h_merge_context_spec _ _ _ _ _ Hctx Hdoc)
    as [(h1 & -> & ->)|(cc & fps & tps & -> & -> & Hrel & _)];
    [by eexists|].
  replace (reify _ _ (HRef (length (h ++ cc)))) with (Some (VObj tps));
    [by eexists|].
  symmetry. rewrite reify_S, list_lookup_middle by done.
  cbn [mbind option_bind].
  replace (reify_props _ _ fps) with (Some tps); [done|].
  symmetry. apply reify_props_Some.
  eapply Forall2_impl; [exact Hrel|]. intros [k x] [k' y] [Hk Hxy].
  split; [done|]. apply Hxy. rewrite !length_app. simpl. lia.
Qed.

End Refinement.

Section ContextIsolation.
Context (host : Host).

(** C8, amended: the site context and the documents are finite trees in
    a store [h], the site context an object. The merged context of a
    render is a new cell of the store; what it holds under a key the
    document does not have is a primitive or a new cell as well, and a
    write to a new cell leaves every cell of [h] as it was. A render
    adds cells to the store and changes none, so the site context
    unfolds to the same tree after it. A second document rendered after
    the first one gives what it gives when rendered alone: the result
    [partialTemplate] computes from the tree of the site context and
    the tree of that document. Nothing of this holds of what the merged
    context has under a key of the document, which is the document's
    own value. *)
Theorem partialTemplate_leaves_site_context tmpl ctx doc1 doc2 h base d1 d2 :
  reify (S (length h)) h ctx = Some (VObj base) →
  reify (S (length h)) h doc1 = Some d1 →
  reify (S (length h)) h doc2 = Some d2 →
  (∀ h2 finalCtx,
     h_merge_context host ctx doc1 h = (h2, Ok finalCtx) →
     ∃ l fps,
       finalCtx = HRef l ∧ (length h ≤ l)%nat ∧ h2 !! l = Some (CObj fps)
       ∧ (∀ k l', k ∉ (h_for_in h doc1).*1 →
            lookup_prop k fps = Some (HRef l') → (length h ≤ l')%nat)
       ∧ (∀ l' k x, (length h ≤ l')%nat →
            ∃ cells, (h_assign (HRef l') k x h2).1 = h ++ cells))
  ∧ ∃ h1 cells,
      h_partialTemplate host tmpl ctx doc1 h
      = Some (h1, partialTemplate host tmpl (VObj base) d1)
      ∧ h1 = h ++ cells
      ∧ reify (S (length h1)) h1 ctx = Some (VObj base)
      ∧ ∃ h2 h2',
          h_partialTemplate host tmpl ctx doc2 h
          = Some (h2, partialTemplate host tmpl (VObj base) d2)
          ∧ h_partialTemplate host tmpl ctx doc2 h1
            = Some (h2', partialTemplate host tmpl (VObj base) d2).
Proof.
  intros Hctx Hdoc1 Hdoc2. split.
  - intros h2 finalCtx Hm.
    destruct (h_merge_context_spec host _ _ _ _ _ Hctx Hdoc1)
      as [(h1 & E & _)|(cc & fps & tps & E & _ & _ & Hfresh)];
      rewrite E in Hm; [done|].
    injection Hm as <- <-. exists (length (h ++ cc)), fps.
    split; [done|]. split; [rewrite length_app; lia|].
    split; [by rewrite list_lookup_middle|]. split; [exact Hfresh|].
    intros l' k x Hl'.
    destruct (h_assign (HRef l') k x ((h ++ cc) ++ [CObj fps]))
      as [h3 r] eqn:Ha.
    rewrite <-app_assoc in Ha.
    destruct (h_assign_frame _ _ _ _ _ _ _ Ha) as (t' & -> & _);
      [by intros ? [= <-]|].
    by exists t'.
  - destruct (h_partialTemplate_refines host tmpl _ _ _ _ _ Hctx Hdoc1)
      as [h1 H1].
    destruct (h_partialTemplate_frame _ _ _ _ _ _ _ H1) as [cells ->].
    assert (∀ x t, reify (S (length h)) h x = Some t →
              reify (S (length (h ++ cells))) (h ++ cells) x = Some t) as Hm.
    { intros x t Hx. eapply reify_mono; [exact Hx|]. rewrite length_app. lia. }
    exists (h ++ cells), cells. split; [done|]. split; [done|].
    split; [by apply Hm|].
    destruct (h_partialTemplate_refines host tmpl _ _ _ _ _ Hctx Hdoc2)
      as [h2 H2].
    destruct (h_partialTemplate_refines host tmpl _ _ _ _ _
                (Hm _ _ Hctx) (Hm _ _ Hdoc2)) as [h2' H2'].
    by exists h2, h2'.
Qed.

End ContextIsolation.

Lemma partialTemplate_leaves_site_context_witness :
  ∃ h1 h2,
    h_partialTemplate demo_host demo_template (HRef 5) (HRef 1) demo_heap
    = Some (h1, Ok "<page>[First|]")
    ∧ take (length demo_heap) h1 = demo_heap
    ∧ h_partialTemplate demo_host demo_template (HRef 5) (HRef 6) h1
      = Some (h2, Ok "<page>[About|text]").
Proof.
  set (post := VObj [("title", VStr "First"); ("tags", VArr [VStr "a"] [])]).
  set (base := [("site", VObj [("posts", VArr [post] [])]);
                ("dateFormat", VFun 0)]).
  set (about := VObj [("title", VStr "About"); ("content", VStr "text")]).
  destruct (partialTemplate_leaves_site_context demo_host demo_template
              (HRef 5) (HRef 1) (HRef 6) demo_heap base post about
              eq_refl eq_refl eq_refl)
    as [_ (h1 & cells & H1 & -> & _ & h2 & h2' & _ & H2)].
  exists (demo_heap ++ cells), h2'. split; [exact H1|].
  split; [by rewrite take_app_length|]. exact H2.
Defined.

(** C8 as stated fails: the merged context of a post holds the post's
    own list of tags, and the post is among [site.posts]; a write to
    the first tag through the merged context changes the tree of the
    site context. *)
Lemma merged_context_write_reaches_site_counterexample :
  ¬ writes_leave_site_context demo_host (HRef 5) (HRef 1) demo_heap.
Proof.
  intros H.
  assert (∃ h2 l fps,
            h_merge_context demo_host (HRef 5) (HRef 1) demo_heap
            = (h2, Ok (HRef l))
            ∧ h2 !! l = Some (CObj fps)
            ∧ lookup_prop "tags" fps = Some (HRef 0)
            ∧ reify (S (length h2))
                (h_assign (HRef 0) "0" (HStr "x") h2).1 (HRef 5)
              ≠ reify (S (length demo_heap)) demo_heap (HRef 5))
    as (h2 & l & fps & Hm & Hl & Hk & Hne).
  { do 3 eexists. split; [by vm_compute|]. split; [by vm_compute|].
    split; [by vm_compute|]. vm_compute. discriminate. }
  by apply Hne, (H h2 l fps "tags" (HRef 0) "0" (HStr "x")).
Qed.

(** What the merged context holds under a key of the document is the
    value the document holds, not a copy: for a post, which is part of
    the site context, a write through such a key reaches the post's own
    object. *)
Lemma merged_context_shares_document_values :
  ∃ h2 l fps,
    h_merge_context demo_host (HRef 5) (HRef 1) demo_heap = (h2, Ok (HRef l))
    ∧ h2 !! l = Some (CObj fps)
    ∧ lookup_prop "tags" fps = Some (HRef 0)
    ∧ demo_heap !! 0%nat = Some (CArr [HStr "a"] [])
    ∧ (h_assign (HRef 0) "0" (HStr "x") h2).1 !! 0%nat
      = Some (CArr [HStr "x"] []).
Proof. do 3 eexists. repeat split; by vm_compute. Qed.

Lemma getLayout_cached_when_ctx_bound_witness :
  ∃ st1 l,
    getLayout demo_host (Some (VObj [])) demo_root (VStr "post") initial_state
    = (st1, Ok l)
    ∧ trace st1 = [EvRead "_layouts/post.html"; EvCompile "POST"]
    ∧ getLayout demo_host (Some (VObj [])) demo_root (VStr "post") st1
      = (st1, Ok l).
Proof.
  destruct (getLayout_cached_when_ctx_bound demo_host (VObj []) demo_root
              (VStr "post") (VStr "post.html") "POST" initial_state
              eq_refl eq_refl eq_refl) as (st1 & l & H1 & Htr & _ & H2).
  by exists st1, l.
Defined.

(** * The bound of [reify]

    A tree has no branch of more objects than the store has cells, so
    the bound [length h] lets every value that has a tree unfold to
    it. *)

Lemma depth_VObj ps : depth (VObj ps) = S (props_depth ps).
Proof. reflexivity. Qed.

Lemma depth_VDate t ps : depth (VDate t ps) = S (props_depth ps).
Proof. reflexivity. Qed.

Lemma depth_VArr xs ps :
  depth (VArr xs ps) = S (Nat.max (list_depth xs) (props_depth ps)).
Proof. reflexivity. Qed.

Lemma props_depth_le ps k x : (k, x) ∈ ps → (depth x ≤ props_depth ps)%nat.
Proof.
  induction ps as [|[k' x'] ps IH]; [by intros ?%elem_of_nil|].
  intros [[= <- <-]|Hin]%elem_of_cons; cbn [props_depth]; [lia|].
  specialize (IH Hin). lia.
Qed.

Lemma list_depth_le xs x : x ∈ xs → (depth x ≤ list_depth xs)%nat.
Proof.
  induction xs as [|x' xs IH]; [by intros ?%elem_of_nil|].
  intros [<-|Hin]%elem_of_cons; cbn [list_depth]; [lia|].
  specialize (IH Hin). lia.
Qed.

Lemma Forall2_impl_r {A B} (P Q : A → B → Prop) l k :
  Forall2 P l k → (∀ x y, y ∈ k → P x y → Q x y) → Forall2 Q l k.
Proof.
  induction 1 as [|x y l k Hxy _ IH]; intros H; constructor.
  - apply H; [left|done].
  - apply IH. intros x' y' Hy. apply H. by right.
Qed.

(** What holds of the values a cell holds, holds of its properties and
    elements. *)
Lemma reify_props_impl n h ps tps m h' :
  reify_props n h ps = Some tps →
  (∀ x t, reify n h x = Some t → (depth t ≤ props_depth tps)%nat →
     reify m h' x = Some t) →
  reify_props m h' ps = Some tps.
Proof.
  rewrite !reify_props_Some. unfold props_rel. intros H Hx.
  eapply Forall2_impl_r; [exact H|]. intros [k x] [k' t] Hin [Hk Hr].
  split; [done|]. apply Hx; [done|]. by eapply props_depth_le.
Qed.

Lemma reify_list_impl n h xs txs m h' :
  mapM (reify n h) xs = Some txs →
  (∀ x t, reify n h x = Some t → (depth t ≤ list_depth txs)%nat →
     reify m h' x = Some t) →
  mapM (reify m h') xs = Some txs.
Proof.
  rewrite !mapM_Some. intros H Hx.
  eapply Forall2_impl_r; [exact H|]. intros x t Hin Hr.
  apply Hx; [done|]. by apply list_depth_le.
Qed.

(** The cell behind a reference that unfolds, with the trees of what
    the cell holds. *)
Lemma reify_ref_Some n h l t :
  reify (S n) h (HRef l) = Some t →
  ∃ c, h !! l = Some c
    ∧ match c with
      | CObj ps => ∃ tps, reify_props n h ps = Some tps ∧ t = VObj tps
      | CArr xs ps =>
          ∃ txs tps, mapM (reify n h) xs = Some txs
                     ∧ reify_props n h ps = Some tps ∧ t = VArr txs tps
      | CDate d ps => ∃ tps, reify_props n h ps = Some tps ∧ t = VDate d tps
      | CFun f => t = VFun f
      end.
Proof.
  rewrite reify_S. destruct (h !! l) as [c|]; [|done]. cbn [mbind option_bind].
  intros H. exists c. split; [done|]. destruct c as [ps|xs ps|d ps|f].
  - destruct (reify_props n h ps) as [tps|]; [|done].
    injection H as <-. by exists tps.
  - destruct (mapM (reify n h) xs) as [txs|]; [|done].
    cbn [mbind option_bind] in H.
    destruct (reify_props n h ps) as [tps|]; [|done].
    injection H as <-. by exists txs, tps.
  - destruct (reify_props n h ps) as [tps|]; [|done].
    injection H as <-. by exists tps.
  - by injection H as <-.
Qed.

Lemma reify_ref_intro n h l c t :
  h !! l = Some c →
  match c with
  | CObj ps => ∃ tps, reify_props n h ps = Some tps ∧ t = VObj tps
  | CArr xs ps =>
      ∃ txs tps, mapM (reify n h) xs = Some txs
                 ∧ reify_props n h ps = Some tps ∧ t = VArr txs tps
  | CDate d ps => ∃ tps, reify_props n h ps = Some tps ∧ t = VDate d tps
  | CFun f => t = VFun f
  end →
  reify (S n) h (HRef l) = Some t.
Proof.
  intros Hl H. rewrite reify_S, Hl. cbn [mbind option_bind].
  destruct c as [ps|xs ps|d ps|f].
  - destruct H as (tps & -> & ->). done.
  - destruct H as (txs & tps & -> & -> & ->). done.
  - destruct H as (tps & -> & ->). done.
  - by subst.
Qed.

Lemma reify_primitive_any n m h h' v t :
  match v with HRef _ => False | _ => True end →
  reify n h v = Some t → reify m h' v = Some t.
Proof. destruct v, n, m; done. Qed.

(** A bound equal to the depth of the tree is enough. *)
Lemma reify_depth n : ∀ h v t,
  reify n h v = Some t → reify (depth t) h v = Some t.
Proof.
  induction n as [|n IH]; intros h v t H.
  - destruct v; try done; by eapply reify_primitive_any; [|exact H].
  - destruct v as [| | | | |l];
      try (by eapply reify_primitive_any; [|exact H]).
    destruct (reify_ref_Some _ _ _ _ H) as (c & Hl & Hc).
    assert (∀ d x t0, reify n h x = Some t0 → (depth t0 ≤ d)%nat →
              reify d h x = Some t0) as Hch.
    { intros d x t0 Hx Hle. rewrite <-(app_nil_r h).
      eapply reify_mono; [by apply IH|done]. }
    destruct c as [ps|xs ps|d ps|f].
    + destruct Hc as (tps & Hps & ->). rewrite depth_VObj.
      eapply reify_ref_intro; [exact Hl|]. exists tps. split; [|done].
      eapply reify_props_impl; [exact Hps|]. intros; by apply Hch.
    + destruct Hc as (txs & tps & Hxs & Hps & ->). rewrite depth_VArr.
      eapply reify_ref_intro; [exact Hl|]. exists txs, tps.
      split; [|split; [|done]].
      * eapply reify_list_impl; [exact Hxs|]. intros; apply Hch; [done|lia].
      * eapply reify_props_impl; [exact Hps|]. intros; apply Hch; [done|lia].
    + destruct Hc as (tps & Hps & ->). rewrite depth_VDate.
      eapply reify_ref_intro; [exact Hl|]. exists tps. split; [|done].
      eapply reify_props_impl; [exact Hps|]. intros; by apply Hch.
    + subst t. by eapply reify_ref_intro.
Qed.

(** A value has one tree, whatever the bound. *)
Lemma reify_det n m h v t t' :
  reify n h v = Some t → reify m h v = Some t' → t = t'.
Proof.
  intros H H'.
  pose proof (reify_mono _ (Nat.max n m) _ [] _ _ H ltac:(lia)) as E.
  pose proof (reify_mono _ (Nat.max n m) _ [] _ _ H' ltac:(lia)) as E'.
  congruence.
Qed.

Lemma blank_lookup_eq l h :
  (l < length h)%nat → blank l h !! l = Some (CObj [("self", HRef l)]).
Proof. intros. unfold blank. by rewrite list_lookup_insert_eq. Qed.

Lemma blank_lookup_ne l l' h : l' ≠ l → blank l h !! l' = h !! l'.
Proof. intros. unfold blank. by rewrite list_lookup_insert_ne. Qed.

Lemma blank_length l h : length (blank l h) = length h.
Proof. unfold blank. by rewrite length_insert. Qed.

(** A cell that holds itself unfolds to nothing. *)
Lemma reify_blank l h n : reify n (blank l h) (HRef l) = None.
Proof.
  induction n as [|n IH]; [done|]. rewrite reify_S.
  destruct (decide (l < length h)%nat) as [Hl|Hl].
  - rewrite blank_lookup_eq by done. cbn [mbind option_bind].
    rewrite reify_props_cons. cbn [snd]. by rewrite IH.
  - rewrite (lookup_ge_None_2 (blank l h)); [done|]. rewrite blank_length. lia.
Qed.

(** What unfolds in the store with a cell blanked unfolds in the store
    itself, to the same tree. *)
Lemma reify_unblank l n : ∀ h v t,
  reify n (blank l h) v = Some t → reify n h v = Some t.
Proof.
  induction n as [|n IH]; intros h v t H.
  - destruct v; try done.
  - destruct v as [| | | | |l'];
      try (by eapply reify_primitive_any; [|exact H]).
    destruct (decide (l' = l)) as [->|Hne]; [by rewrite reify_blank in H|].
    destruct (reify_ref_Some _ _ _ _ H) as (c & Hl & Hc).
    rewrite blank_lookup_ne in Hl by done.
    eapply reify_ref_intro; [exact Hl|].
    destruct c as [ps|xs ps|d ps|f].
    + destruct Hc as (tps & Hps & ->). exists tps. split; [|done].
      eapply reify_props_impl; [exact Hps|]. intros; by apply IH.
    + destruct Hc as (txs & tps & Hxs & Hps & ->). exists txs, tps.
      split; [|split; [|done]].
      * eapply reify_list_impl; [exact Hxs|]. intros; by apply IH.
      * eapply reify_props_impl; [exact Hps|]. intros; by apply IH.
    + destruct Hc as (tps & Hps & ->). exists tps. split; [|done].
      eapply reify_props_impl; [exact Hps|]. intros; by apply IH.
    + done.
Qed.

(** A value whose tree is less deep than the tree of the cell at [l]
    does not reach [l]: it unfolds with that cell blanked. *)
Lemma reify_avoids l h tl n0 :
  reify n0 h (HRef l) = Some tl →
  ∀ n v t,
    reify n h v = Some t → (depth t < depth tl)%nat →
    reify n (blank l h) v = Some t.
Proof.
  intros Htl. induction n as [|n IH]; intros v t H Hd.
  - destruct v; try done.
  - destruct v as [| | | | |l'];
      try (by eapply reify_primitive_any; [|exact H]).
    destruct (decide (l' = l)) as [->|Hne].
    { pose proof (reify_det _ _ _ _ _ _ H Htl). subst. lia. }
    destruct (reify_ref_Some _ _ _ _ H) as (c & Hl & Hc).
    eapply reify_ref_intro; [by rewrite blank_lookup_ne|].
    destruct c as [ps|xs ps|d ps|f].
    + destruct Hc as (tps & Hps & ->). exists tps. split; [|done].
      rewrite depth_VObj in Hd.
      eapply reify_props_impl; [exact Hps|]. intros; apply IH; [done|lia].
    + destruct Hc as (txs & tps & Hxs & Hps & ->). exists txs, tps.
      rewrite depth_VArr in Hd. split; [|split; [|done]].
      * eapply reify_list_impl; [exact Hxs|]. intros; apply IH; [done|lia].
      * eapply reify_props_impl; [exact Hps|]. intros; apply IH; [done|lia].
    + destruct Hc as (tps & Hps & ->). exists tps. split; [|done].
      rewrite depth_VDate in Hd.
      eapply reify_props_impl; [exact Hps|]. intros; apply IH; [done|lia].
    + done.
Qed.

Lemma NoDup_below_length (D : list nat) N :
  NoDup D → (∀ l, l ∈ D → (l < N)%nat) → (length D ≤ N)%nat.
Proof.
  intros Hnd Hlt. rewrite <-(length_seq N 0).
  apply submseteq_length, NoDup_submseteq; [done|].
  intros l Hl. apply elem_of_seq. specialize (Hlt l Hl). lia.
Qed.

(** With the cells of [D] unfolding to nothing, a tree is no deeper
    than the number of the other cells. *)
Lemma depth_le_live k : ∀ h D n v t,
  NoDup D →
  (∀ l, l ∈ D → (l < length h)%nat ∧ ∀ m, reify m h (HRef l) = None) →
  (length h ≤ k + length D)%nat →
  reify n h v = Some t →
  (depth t ≤ k)%nat.
Proof.
  induction k as [|k IH]; intros h D n v t Hnd HD Hlen H.
  - destruct v as [| | | | |l];
      try (destruct n; simpl in H; injection H as <-; simpl; lia).
    exfalso. destruct n as [|n]; [done|].
    destruct (reify_ref_Some _ _ _ _ H) as (c & Hl & _).
    apply lookup_lt_Some in Hl.
    assert (l ∉ D) as Hnin.
    { intros Hin. destruct (HD l Hin) as [_ Hdead]. by rewrite Hdead in H. }
    pose proof (NoDup_below_length (l :: D) (length h)) as Hp.
    cbn [length] in Hp. 
    assert (S (length D) ≤ length h)%nat; [|lia].
    apply Hp; [by constructor|].
    intros l' [->|Hin]%elem_of_cons; [done|]. by apply HD.
  - destruct v as [| | | | |l];
      try (destruct n; simpl in H; injection H as <-; simpl; lia).
    destruct n as [|n]; [done|].
    destruct (reify_ref_Some _ _ _ _ H) as (c & Hl & Hc).
    pose proof (lookup_lt_Some _ _ _ Hl) as Hlt.
    assert (l ∉ D) as Hnin.
    { intros Hin. destruct (HD l Hin) as [_ Hdead]. by rewrite Hdead in H. }
    assert (∀ x tx, reify n h x = Some tx → (depth tx < depth t)%nat →
              (depth tx ≤ k)%nat) as Hch.
    { intros x tx Hx Hd.
      apply (IH (blank l h) (l :: D) n x tx).
      - by constructor.
      - intros l' [->|Hin]%elem_of_cons.
        + rewrite blank_length. split; [done|]. apply reify_blank.
        + rewrite blank_length. destruct (HD l' Hin) as [? Hdead].
          split; [done|]. intros m.
          destruct (reify m (blank l h) (HRef l')) as [t'|] eqn:E; [|done].
          apply reify_unblank in E. by rewrite Hdead in E.
      - rewrite blank_length. cbn [length]. lia.
      - by eapply reify_avoids. }
    assert (∀ ps tps, reify_props n h ps = Some tps →
              (S (props_depth tps) ≤ depth t)%nat →
              (props_depth tps ≤ k)%nat) as Hps.
    { intros ps tps Hp Hle. apply reify_props_Some in Hp.
      clear Hc. induction Hp as [|[k1 x] [k2 tx] ps tps [_ Hr] _ IHp];
        cbn [props_depth] in *; [lia|].
      apply Nat.max_lub; [apply (Hch x); [done|lia]|apply IHp; lia]. }
    assert (∀ xs txs, mapM (reify n h) xs = Some txs →
              (S (list_depth txs) ≤ depth t)%nat →
              (list_depth txs ≤ k)%nat) as Hxs.
    { intros xs txs Hp Hle. apply mapM_Some in Hp.
      clear Hc. induction Hp as [|x tx xs txs Hr _ IHp];
        cbn [list_depth] in *; [lia|].
      apply Nat.max_lub; [apply (Hch x); [done|lia]|apply IHp; lia]. }
    destruct c as [ps|xs ps|d ps|f].
    + destruct Hc as (tps & Hp & ->). rewrite depth_VObj in *.
      specialize (Hps _ _ Hp). lia.
    + destruct Hc as (txs & tps & Hx & Hp & ->). rewrite depth_VArr in *.
      specialize (Hps _ _ Hp). specialize (Hxs _ _ Hx). lia.
    + destruct Hc as (tps & Hp & ->). rewrite depth_VDate in *.
      specialize (Hps _ _ Hp). lia.
    + subst t. simpl. lia.
Qed.

(** The bound [length h] is enough: a value that unfolds to a tree under
    some bound unfolds to it under this one. *)
Lemma reify_length n h v t :
  reify n h v = Some t → reify (length h) h v = Some t.
Proof.
  intros H.
  assert (depth t ≤ length h)%nat as Hd.
  { apply (depth_le_live (length h) h [] n v t); try done.
    - constructor.
    - by intros l ?%elem_of_nil.
    - simpl. lia. }
  rewrite <-(app_nil_r h) at 2.
  eapply reify_mono; [by eapply reify_depth|done].
Qed.

(** So [stringify] throws only on a value that has no tree at all. *)
Lemma reify_None_any h v :
  reify (S (length h)) h v = None → ∀ n, reify n h v = None.
Proof.
  intros H n. destruct (reify n h v) as [t|] eqn:E; [|done].
  apply reify_length in E.
  pose proof (reify_mono _ (S (length h)) _ [] _ _ E ltac:(lia)) as E'.
  rewrite app_nil_r in E'. congruence.
Qed.

(** * A whole run with [ctx] unbound *)

Lemma keeps_ret {A} I (a : A) : keeps I (mret a).
Proof. by intros st. Qed.

Lemma keeps_lift {A} I (r : Res A) : keeps I (lift r).
Proof. by intros st. Qed.

Lemma keeps_bind {A B} I (m : M A) (k : A → M B) :
  keeps I m → (∀ a, keeps I (k a)) → keeps I (m ≫= k).
Proof.
  intros Hm Hk st Hst. unfold mbind, M_bind. specialize (Hm st Hst).
  destruct (m st) as [st1 [a|e]]; [by apply Hk|done].
Qed.

Lemma keeps_bind_throws {A B} I (m : M A) (k : A → M B) :
  throws_keeping I m → keeps I (m ≫= k).
Proof.
  intros Hm st Hst. unfold mbind, M_bind.
  destruct (Hm st Hst) as [H1 [e He]].
  destruct (m st) as [st1 [a|e']]; [done|exact H1].
Qed.

Lemma keeps_get_state I : keeps I get_state.
Proof. by intros st. Qed.

Lemma keeps_forEach {A} I (f : A → M unit) l :
  (∀ a, keeps I (f a)) → keeps I (forEach f l).
Proof.
  intros Hf. induction l as [|a l IH]; [apply keeps_ret|].
  apply keeps_bind; [apply Hf|]. by intros [].
Qed.

Lemma keeps_emit ev : ¬ is_write ev → keeps nothing_rendered (emit ev).
Proof.
  intros Hev st [Hl Ht]. split; [done|]. simpl.
  apply Forall_app. split; [done|]. by constructor.
Qed.

Ltac keeps_step :=
  first
    [ apply keeps_ret | apply keeps_lift | apply keeps_get_state
    | apply keeps_emit; by intros []
    | apply keeps_bind; [|intros ?] ].

Section RendersNothing.
Context (host : Host) (root : list Entry).

Lemma keeps_readFileSync root' path :
  keeps nothing_rendered (readFileSync root' path).
Proof.
  unfold readFileSync. keeps_step; [keeps_step|].
  destruct (file_data _ _ _); repeat keeps_step.
Qed.

Lemma keeps_mkdirSync root' path :
  keeps nothing_rendered (mkdirSync root' path).
Proof.
  unfold mkdirSync. keeps_step; [keeps_step|].
  destruct (file_data _ _ _); repeat keeps_step.
Qed.

Lemma keeps_copyFileSync root' src dst :
  keeps nothing_rendered (copyFileSync root' src dst).
Proof.
  unfold copyFileSync. keeps_step; [keeps_step|].
  destruct (file_data _ _ _); [|keeps_step].
  destruct (writable _ _ _); repeat keeps_step.
Qed.

Lemma keeps_exists_dir root' path :
  keeps nothing_rendered (exists_dir root' path).
Proof. unfold exists_dir. repeat keeps_step. Qed.

Lemma keeps_exists_file root' path :
  keeps nothing_rendered (exists_file root' path).
Proof. unfold exists_file. repeat keeps_step. Qed.

Lemma keeps_ensure_loop root' parts : ∀ cur,
  keeps nothing_rendered (ensure_loop root' cur parts).
Proof.
  induction parts as [|part parts IH]; intros cur; [apply keeps_ret|].
  destruct parts as [|part' parts]; [apply keeps_ret|].
  change (ensure_loop root' cur (part :: part' :: parts))
    with (there ← exists_dir root' (cur +:+ part +:+ "/");
          _ ← (if there : bool then mret ()
               else mkdirSync root' (cur +:+ part +:+ "/"));
          ensure_loop root' (cur +:+ part +:+ "/") (part' :: parts)).
  apply keeps_bind; [apply keeps_exists_dir|]. intros there.
  apply keeps_bind; [|intros; apply IH].
  destruct there; [apply keeps_ret|apply keeps_mkdirSync].
Qed.

Lemma keeps_ensureDirectories root' path :
  keeps nothing_rendered (ensureDirectories root' path).
Proof. apply keeps_ensure_loop. Qed.

Lemma keeps_registerPartial name source :
  keeps nothing_rendered (registerPartial name source).
Proof.
  intros st [Hl Ht]. split; [done|]. simpl.
  apply Forall_app. split; [done|]. constructor; [by intros []|constructor].
Qed.

Lemma keeps_readConfig : keeps nothing_rendered (readConfig host root).
Proof.
  unfold readConfig. apply keeps_bind; [apply keeps_exists_file|].
  intros there. apply keeps_bind; [|intros; apply keeps_lift].
  destruct there; [|apply keeps_ret].
  apply keeps_bind; [apply keeps_readFileSync|intros; apply keeps_lift].
Qed.

Lemma keeps_readPosts rm config :
  keeps nothing_rendered (readPosts host rm config root).
Proof.
  unfold readPosts.
  destruct (resolve_path root ["_posts"]) as [[|n es]|]; try apply keeps_ret.
  apply keeps_bind; [|intros; apply keeps_ret].
  generalize (entry_name <$> es). intros files. generalize (@nil Value).
  induction files as [|file files IH]; intros posts; [apply keeps_ret|].
  cbn [read_loop]. apply keeps_bind; [|intros; apply IH].
  unfold readPost. destruct (match_post_name file); [|apply keeps_ret].
  apply keeps_bind; [apply keeps_readFileSync|]. intros text.
  repeat keeps_step.
Qed.

Lemma keeps_prepareIncludes ctx :
  keeps nothing_rendered (prepareIncludes root ctx).
Proof.
  unfold prepareIncludes. apply keeps_bind; [apply keeps_exists_dir|].
  intros [|]; [|apply keeps_ret].
  destruct (resolve_path root ["_includes"]) as [[|n es]|]; try apply keeps_ret.
  apply keeps_forEach. intros file. unfold register_include.
  destruct (file_stem file); [|apply keeps_lift].
  apply keeps_bind; [apply keeps_readFileSync|].
  intros; apply keeps_registerPartial.
Qed.

(** With [ctx] unbound and nothing in the cache, [getLayout] throws. *)
Lemma getLayout_unbound_throws root' name :
  throws_keeping nothing_rendered (getLayout host None root' name).
Proof.
  intros st [Hl Ht].
  unfold getLayout, readFileSync, compile, cache_layout, lookup_ctx, emit,
    mbind, M_bind, lift, get_state, mret, M_ret.
  destruct (layout_name host name) as [nm|e]; [|split; [done|by eexists]].
  rewrite Hl, lookup_empty.
  destruct (file_data _ _ _) as [source|]; simpl;
    [|split; [done|by eexists]].
  split; [|by eexists]. split; [done|]. simpl.
  rewrite <-app_assoc. apply Forall_app. split; [done|].
  repeat constructor; by intros [].
Qed.

Lemma keeps_emit_post root' config post :
  keeps nothing_rendered (emit_post host None root' config post).
Proof.
  unfold emit_post. apply keeps_bind; [apply keeps_lift|]. intros isLink.
  destruct (truthy isLink); [apply keeps_ret|].
  apply keeps_bind; [apply keeps_lift|]. intros tpl.
  apply keeps_bind; [apply keeps_lift|]. intros rel.
  apply keeps_bind; [apply keeps_lift|]. intros path.
  apply keeps_bind; [apply keeps_ensureDirectories|]. intros _.
  apply keeps_bind; [apply keeps_lift|]. intros l.
  apply keeps_bind_throws, getLayout_unbound_throws.
Qed.

Lemma keeps_emit_file rm root' fname file :
  keeps nothing_rendered (emit_file host None rm root' fname file).
Proof.
  unfold emit_file. apply keeps_bind; [apply keeps_ensureDirectories|].
  intros _. apply keeps_bind; [apply keeps_readFileSync|]. intros text.
  apply keeps_bind; [apply keeps_lift|]. intros contents.
  destruct (truthy (frontMatter contents)); [|apply keeps_copyFileSync].
  apply keeps_bind; [apply keeps_lift|]. intros l.
  apply keeps_bind_throws, getLayout_unbound_throws.
Qed.

Lemma keeps_walkDir rm config root' es : ∀ dir,
  keeps nothing_rendered (walkDir host None rm config root' dir es).
Proof.
  induction es as [|e es IHes]; intros dir; [apply keeps_ret|].
  assert (∀ dir, keeps nothing_rendered
                   (walk_entry host None rm config root' dir e)) as He.
  { clear IHes es dir. induction e as [n t|n es IH] using Entry_tree_ind;
      intros dir.
    - cbn [walk_entry entry_name]. destruct (is_hidden n); [apply keeps_ret|].
      apply keeps_bind; [apply keeps_lift|]. intros [|]; [apply keeps_ret|].
      apply keeps_emit_file.
    - intros st Hst. rewrite walk_entry_Dir. revert st Hst.
      change (keeps nothing_rendered
                (if is_hidden n then mret ()
                 else excluded ← lift (isExcluded host config (dir +:+ n));
                      if excluded : bool then mret ()
                      else walkDir host None rm config root'
                             (dir +:+ n +:+ "/") es)).
      destruct (is_hidden n); [apply keeps_ret|].
      apply keeps_bind; [apply keeps_lift|]. intros [|]; [apply keeps_ret|].
      generalize (dir +:+ n +:+ "/"). clear dir. intros dir.
      induction IH as [|e es He _ IHes]; [apply keeps_ret|].
      intros st Hst. rewrite walkDir_cons. revert st Hst.
      apply keeps_bind; [apply He|]. intros _. apply IHes. }
  intros st Hst. rewrite walkDir_cons. revert st Hst.
  apply keeps_bind; [apply He|]. intros _. apply IHes.
Qed.

(** The build as it stands renders nothing. [getLayout] throws on every
    call, since it evaluates the unbound [ctx] before it stores a layout,
    so no call of [writeFileSync] is ever reached: whatever the source
    tree holds, a run of [generate] writes no rendered file. What it may
    do to the disk is remove [_site], make directories and copy files
    without front matter. *)
Theorem generate_renders_nothing :
  layouts (generate host None root initial_state).1 = ∅
  ∧ ∀ path data,
      EvWrite path data ∉ trace (generate host None root initial_state).1.
Proof.
  assert (keeps nothing_rendered (generate host None root)) as H.
  { unfold generate.
    apply keeps_bind; [apply keeps_readConfig|]. intros config.
    apply keeps_bind; [apply keeps_lift|]. intros rm.
    apply keeps_bind; [apply keeps_readPosts|]. intros posts.
    apply keeps_bind; [apply keeps_lift|]. intros [tags posts'].
    apply keeps_bind; [apply keeps_prepareIncludes|]. intros _.
    apply keeps_bind; [apply keeps_exists_dir|]. intros there.
    apply keeps_bind.
    { destruct there; [|apply keeps_ret].
      apply keeps_bind; [apply keeps_emit; by intros []|].
      intros; apply keeps_ret. }
    intros root'. apply keeps_bind.
    { apply keeps_forEach. intros post. apply keeps_emit_post. }
    intros _. apply keeps_bind; [apply keeps_get_state|].
    intros st. apply keeps_walkDir. }
  destruct (H initial_state) as [Hl Ht]; [split; [done|constructor]|].
  split; [done|]. intros path data Hin.
  rewrite Forall_forall in Ht. by apply (Ht _ Hin).
Qed.

End RendersNothing.

(** * Exclusion *)

Lemma index_of_0 p s : Str.index_of p s = 0 ↔ Str.starts_with p s = true.
Proof.
  unfold Str.index_of, Str.starts_with.
  destruct s as [|c s]; simpl.
  - destruct (Str.strip_prefix p "") as [r|]; simpl; [done|].
    split; [lia|done].
  - destruct (Str.strip_prefix p (String c s)) as [r|]; simpl; [done|].
    destruct (Str.split_first p s) as [[a b]|]; simpl; split; (lia || done).
Qed.

Lemma take_len s : Str.take (Str.len s) s = s.
Proof. induction s as [|c s IH]; [done|]. simpl. by rewrite IH. Qed.

Lemma len_drop n : ∀ s, Str.len (Str.drop n s) = (Str.len s - n)%nat.
Proof.
  induction n as [|n IH]; intros s; simpl; [lia|].
  destruct s as [|c s]; simpl; [done|]. apply IH.
Qed.

Lemma drop_ge n : ∀ s, (Str.len s ≤ n)%nat → Str.drop n s = "".
Proof.
  induction n as [|n IH]; intros [|c s] Hn; simpl in *; try done; [lia|].
  apply IH. lia.
Qed.

(** [s.slice(k)] drops the first [k] characters. *)
Lemma slice_from (s : string) (k : nat) :
  Str.slice s (Z.of_nat k) None = Str.drop k s.
Proof.
  unfold Str.slice, Str.clamp.
  destruct (Z.ltb_spec (Z.of_nat k) 0) as [?|_]; [lia|].
  destruct (decide (k ≤ Str.len s)%nat) as [Hk|Hk].
  - rewrite Z.min_l, Nat2Z.id by lia. by rewrite <-len_drop, take_len.
  - rewrite Z.min_r, Nat2Z.id by lia. rewrite Nat.sub_diag.
    rewrite (drop_ge k) by lia. by destruct (Str.drop _ _).
Qed.

Section Exclusion.
Context (host : Host).

Lemma some_prefix_cons rest x xs :
  some_prefix host rest (x :: xs)
  = (s ← ToString host x;
     if bool_decide (Str.index_of s rest = 0) then Ok true
     else some_prefix host rest xs).
Proof. reflexivity. Qed.

Lemma index_of_0_decide p s :
  bool_decide (Str.index_of p s = 0) = Str.starts_with p s.
Proof.
  destruct (Str.starts_with p s) eqn:E.
  - by apply bool_decide_eq_true, index_of_0.
  - apply bool_decide_eq_false. rewrite index_of_0. congruence.
Qed.

(** The elements of the list are converted and tested in turn, up to
    the first that is a prefix. *)
Lemma some_prefix_spec rest l1 : ∀ l2,
  Forall (λ x, ∃ s, ToString host x = Ok s) l1 →
  some_prefix host rest (l1 ++ l2)
  = if existsb (λ x, Str.starts_with (to_string host x) rest) l1
    then Ok true else some_prefix host rest l2.
Proof.
  induction l1 as [|x l1 IH]; intros l2 Hl1; [done|].
  apply Forall_cons in Hl1 as [Hx Hl1].
  rewrite <-app_comm_cons, some_prefix_cons, (to_string_Ok host x Hx).
  cbn [mbind Res_bind existsb]. rewrite index_of_0_decide.
  destruct (Str.starts_with _ _); [done|]. by apply IH.
Qed.

(** [isExcluded] tests prefixes. Without [exclude] in the configuration
    nothing is excluded. With a list, the elements are converted to
    strings and tested in turn: a path is excluded when what follows
    its first two characters (the [./] the walk starts with) begins
    with the string of some element, so that an element excludes every
    path it is a prefix of and the empty string excludes everything;
    what comes after the first element that fits is not looked at, and
    an element that has no string, met before any that fits, makes the
    test throw. Any other value in [exclude] that is not falsy makes
    the test throw a TypeError. *)
Theorem isExcluded_prefix config ex path :
  get config "exclude" = Ok ex →
  (truthy ex = false → isExcluded host config path = Ok false)
  ∧ (∀ xs,
       ex = VArr xs [] →
       Forall (λ x, ∃ s, ToString host x = Ok s) xs →
       isExcluded host config path
       = Ok (existsb (λ x, Str.starts_with (to_string host x)
                             (Str.drop 2 path)) xs))
  ∧ (∀ l1 l2,
       ex = VArr (l1 ++ l2) [] →
       Forall (λ x, ∃ s, ToString host x = Ok s) l1 →
       existsb (λ x, Str.starts_with (to_string host x) (Str.drop 2 path)) l1
       = true →
       isExcluded host config path = Ok true)
  ∧ (∀ l1 x l2 e,
       ex = VArr (l1 ++ x :: l2) [] →
       Forall (λ x, ∃ s, ToString host x = Ok s) l1 →
       existsb (λ x, Str.starts_with (to_string host x) (Str.drop 2 path)) l1
       = false →
       data_only x = true →
       ToString host x = Throw e →
       isExcluded host config path = Throw e)
  ∧ (truthy ex = true → (∀ xs ps, ex ≠ VArr xs ps) →
       isExcluded host config path = Throw TypeError).
Proof.
  intros Hex.
  assert (∀ xs, ex = VArr xs [] →
            isExcluded host config path
            = some_prefix host (Str.drop 2 path) xs) as Hrun.
  { intros xs ->. unfold isExcluded. rewrite Hex.
    change (Ok (VArr xs []) ≫= ?k) with (k (VArr xs [])). cbn beta zeta.
    unfold js_or. cbn [truthy].
    change (callable (VArr xs []) MSome) with (Ok ()).
    change (Ok () ≫= ?k) with (k ()). cbn beta.
    change 2 with (Z.of_nat 2). by rewrite slice_from. }
  split; [|split; [|split; [|split]]];
    [| | | |unfold isExcluded; rewrite Hex;
            change (Ok ex ≫= ?k) with (k ex); cbn beta zeta].
  - intros Hf. unfold isExcluded. rewrite Hex.
    change (Ok ex ≫= ?k) with (k ex). cbn beta zeta.
    unfold js_or. by rewrite Hf.
  - intros xs -> Hxs. rewrite (Hrun xs eq_refl).
    rewrite <-(app_nil_r xs) at 1. rewrite some_prefix_spec by done.
    by destruct (existsb _ _).
  - intros l1 l2 -> Hl1 Hm. rewrite (Hrun _ eq_refl).
    by rewrite some_prefix_spec, Hm.
  - intros l1 x l2 e -> Hl1 Hm _ Hx. rewrite (Hrun _ eq_refl).
    rewrite some_prefix_spec, Hm by done.
    by rewrite some_prefix_cons, Hx.
  - intros Ht Hna. unfold js_or. rewrite Ht.
    destruct ex as [| |b|n|s|f|ps|xs ps|t ps]; try done;
      try (by destruct (Hna xs ps));
      unfold callable, resolve; simpl; repeat case_match; done.
Qed.

Context (global_ctx : option Value).
Context (renderMarkdown : string → string) (config : Value) (root : list Entry).

Lemma walk_entry_excluded dir e st :
  excluded_at host config dir e = true →
  walk_entry host global_ctx renderMarkdown config root dir e st = (st, Ok ()).
Proof.
  unfold excluded_at. intros H.
  destruct (isExcluded host config (dir +:+ entry_name e)) as [[|]|] eqn:E;
    try done.
  destruct e as [n t|n es]; cbn [walk_entry entry_name] in *;
    (destruct (is_hidden n); [done|]);
    unfold mbind at 1, M_bind, lift; by rewrite E.
Qed.

Lemma drop_excluded_entry_Dir dir n es :
  drop_excluded_entry host config dir (Dir n es)
  = Dir n (drop_excluded host config (dir +:+ n +:+ "/") es).
Proof.
  cbn [drop_excluded_entry]. f_equal.
  induction es as [|e es IH]; [done|]. cbn [drop_excluded].
  by rewrite IH.
Qed.

Lemma walkDir_drop_step dir e es st :
  (∀ st1, walk_entry host global_ctx renderMarkdown config root dir e st1
          = walk_entry host global_ctx renderMarkdown config root dir
              (drop_excluded_entry host config dir e) st1) →
  (∀ st1, walkDir host global_ctx renderMarkdown config root dir es st1
          = walkDir host global_ctx renderMarkdown config root dir
              (drop_excluded host config dir es) st1) →
  walkDir host global_ctx renderMarkdown config root dir (e :: es) st
  = walkDir host global_ctx renderMarkdown config root dir
      (drop_excluded host config dir (e :: es)) st.
Proof.
  intros He Hes. rewrite walkDir_cons. cbn [drop_excluded].
  destruct (excluded_at host config dir e) eqn:Hx.
  - unfold mbind, M_bind. rewrite walk_entry_excluded by done. apply Hes.
  - rewrite walkDir_cons. unfold mbind, M_bind. rewrite <- He.
    destruct (walk_entry _ _ _ _ _ _ e st) as [st2 [[]|?]]; [|done]. apply Hes.
Qed.

Lemma walk_entry_drop e : ∀ dir st,
  walk_entry host global_ctx renderMarkdown config root dir e st
  = walk_entry host global_ctx renderMarkdown config root dir
      (drop_excluded_entry host config dir e) st.
Proof.
  induction e as [n t|n es IH] using Entry_tree_ind; intros dir st; [done|].
  rewrite drop_excluded_entry_Dir, !walk_entry_Dir.
  destruct (is_hidden n); [done|].
  apply M_bind_ext. intros [] st1; [done|].
  generalize (dir +:+ n +:+ "/"). intros d. revert st1.
  induction IH as [|e es He Hes IHes]; intros st1; [done|].
  by apply walkDir_drop_step.
Qed.

(** An entry that [isExcluded] accepts is skipped at whatever depth the
    walk meets it: walking it does nothing, and the walk of a directory
    goes exactly as the walk of that directory with all such entries,
    at every depth, taken out. An excluded directory is not entered:
    nothing below it is read, copied or rendered, excluded itself or
    not. *)
Theorem walk_skips_excluded_entries :
  (∀ dir e st,
     isExcluded host config (dir +:+ entry_name e) = Ok true →
     walk_entry host global_ctx renderMarkdown config root dir e st
     = (st, Ok ()))
  ∧ (∀ dir es st,
       walkDir host global_ctx renderMarkdown config root dir es st
       = walkDir host global_ctx renderMarkdown config root dir
           (drop_excluded host config dir es) st).
Proof.
  split.
  - intros dir e st H. apply walk_entry_excluded. unfold excluded_at.
    by rewrite H.
  - intros dir es. induction es as [|e es IH]; intros st; [done|].
    apply walkDir_drop_step; [|done]. intros st1. apply walk_entry_drop.
Qed.

End Exclusion.

Lemma isExcluded_prefix_witness :
  isExcluded demo_host
    (VObj [("exclude", VArr [VStr "css/"; VStr "README"] [])])
    "./README.md"
  = Ok true
  ∧ isExcluded demo_host
      (VObj [("exclude", VArr [VStr "css/"; VObj [("toString", VNum 1)]] [])])
      "./README.md"
    = Throw TypeError.
Proof.
  split.
  - destruct (isExcluded_prefix demo_host
                (VObj [("exclude", VArr [VStr "css/"; VStr "README"] [])])
                (VArr [VStr "css/"; VStr "README"] []) "./README.md" eq_refl)
      as (_ & H & _).
    rewrite (H _ eq_refl); [done|]. repeat constructor; by eexists.
  - destruct (isExcluded_prefix demo_host
                (VObj [("exclude",
                        VArr [VStr "css/"; VObj [("toString", VNum 1)]] [])])
                (VArr [VStr "css/"; VObj [("toString", VNum 1)]] [])
                "./README.md" eq_refl)
      as (_ & _ & _ & H & _).
    apply (H [VStr "css/"] (VObj [("toString", VNum 1)]) []);
      [done| |done|done|done].
    repeat constructor; by eexists.
Defined.


(** * ensureDirectories *)

Lemma made_dir_app tr evs p :
  made_dir (tr ++ evs) p = made_dir tr p || made_dir evs p.
Proof. unfold made_dir. apply existsb_app. Qed.

(** A directory stays one, whatever the build does next. *)
Lemma is_dir_app root tr evs p :
  is_dir root tr p = true → is_dir root (tr ++ evs) p = true.
Proof.
  unfold is_dir. rewrite made_dir_app. intros H.
  apply orb_true_iff in H as [H|H]; [by rewrite H|].
  rewrite H. by rewrite !orb_true_r.
Qed.

Lemma ensure_loop_cons root cur part part' parts :
  ensure_loop root cur (part :: part' :: parts)
  = (there ← exists_dir root (cur +:+ part +:+ "/");
     _ ← (if there : bool then mret ()
          else mkdirSync root (cur +:+ part +:+ "/"));
     ensure_loop root (cur +:+ part +:+ "/") (part' :: parts)).
Proof. reflexivity. Qed.

Lemma ancestors_cons cur part part' parts :
  ancestors cur (part :: part' :: parts)
  = (cur +:+ part +:+ "/")
    :: ancestors (cur +:+ part +:+ "/") (part' :: parts).
Proof. reflexivity. Qed.

Lemma ensure_loop_dirs root parts : ∀ cur st st',
  ensure_loop root cur parts st = (st', Ok ()) →
  Forall (λ d, is_dir root (trace st') (norm_path d) = true)
    (ancestors cur parts).
Proof.
  induction parts as [|part parts IH]; intros cur st st' H; [constructor|].
  destruct parts as [|part' parts]; [constructor|].
  rewrite ensure_loop_cons in H. rewrite ancestors_cons.
  apply mbind_Ok in H as (there & st1 & H1 & H).
  apply mbind_Ok in H as ([] & st2 & H2 & H).
  pose proof (ensure_loop_Ok _ _ _ _ _ H) as (evs & -> & _).
  constructor; [|by eapply IH].
  simpl. apply is_dir_app.
  unfold exists_dir, mbind, M_bind, get_state, mret, M_ret in H1.
  injection H1 as <- <-. destruct (is_dir root (trace st) _) eqn:E.
  - by injection H2 as <-.
  - apply mkdirSync_Ok in H2 as ->. cbn [trace with_trace]. unfold is_dir.
    rewrite made_dir_app.
    assert (made_dir [EvMkdir (cur +:+ part +:+ "/")]
              (norm_path (cur +:+ part +:+ "/")) = true) as ->.
    { cbn [made_dir existsb]. by rewrite bool_decide_eq_true_2. }
    by rewrite !orb_true_r.
Qed.

Lemma ensure_loop_idle root parts : ∀ cur st,
  Forall (λ d, is_dir root (trace st) (norm_path d) = true)
    (ancestors cur parts) →
  ensure_loop root cur parts st = (st, Ok ()).
Proof.
  induction parts as [|part parts IH]; intros cur st H; [done|].
  destruct parts as [|part' parts]; [done|].
  rewrite ensure_loop_cons. rewrite ancestors_cons in H.
  apply Forall_cons in H as [H1 H].
  unfold mbind at 1, M_bind, exists_dir. 
  unfold mbind at 1, M_bind, get_state, mret, M_ret. rewrite H1.
  unfold mbind at 1, M_bind. by apply IH.
Qed.

(** [ensureDirectories] makes the directories a path passes through
    and nothing else. After a call that returns, every component of the
    path but the last names a directory, with what precedes it; the call
    made directories only; and a second call for the same path finds
    them all and does nothing. *)
Theorem ensureDirectories_makes_ancestors root path st st' :
  ensureDirectories root path st = (st', Ok ()) →
  Forall (λ d, is_dir root (trace st') (norm_path d) = true)
    (ancestors "" (Str.split_on "/" path))
  ∧ (∃ evs, st' = with_trace st evs ∧ Forall is_mkdir evs)
  ∧ ensureDirectories root path st' = (st', Ok ()).
Proof.
  unfold ensureDirectories. intros H.
  pose proof (ensure_loop_dirs _ _ _ _ _ H) as Hd.
  split; [done|]. split; [by eapply ensure_loop_Ok|].
  by apply ensure_loop_idle.
Qed.

Lemma ensureDirectories_makes_ancestors_witness :
  ∃ st',
    ensureDirectories demo_root "_site/css/deep/site.css" initial_state
    = (st', Ok ())
    ∧ trace st' = [EvMkdir "_site/"; EvMkdir "_site/css/";
                   EvMkdir "_site/css/deep/"]
    ∧ ensureDirectories demo_root "_site/css/deep/site.css" st'
      = (st', Ok ()).
Proof.
  exists (with_trace initial_state
            [EvMkdir "_site/"; EvMkdir "_site/css/";
             EvMkdir "_site/css/deep/"]).
  assert (ensureDirectories demo_root "_site/css/deep/site.css" initial_state
          = (with_trace initial_state
               [EvMkdir "_site/"; EvMkdir "_site/css/";
                EvMkdir "_site/css/deep/"], Ok ())) as H by by vm_compute.
  split; [exact H|]. split; [done|].
  by destruct (ensureDirectories_makes_ancestors _ _ _ _ H) as (_ & _ & ?).
Defined.

(** * readPosts: what is collected, and in what order *)

Lemma insert_post_filter d p l :
  filter (λ q, date_value q = d) (insert_post p l)
  = if decide (date_value p = d)
    then p :: filter (λ q, date_value q = d) l
    else filter (λ q, date_value q = d) l.
Proof.
  induction l as [|q l IH]; cbn [insert_post].
  - rewrite filter_cons, filter_nil. by case_decide.
  - case_bool_decide as Hle.
    + by rewrite filter_cons.
    + rewrite !filter_cons, IH.
      destruct (decide (date_value p = d)), (decide (date_value q = d));
        try done. lia.
Qed.

Lemma insert_post_perm p l : insert_post p l ≡ₚ p :: l.
Proof.
  induction l as [|q l IH]; [done|]. cbn [insert_post].
  case_bool_decide; [done|]. rewrite IH. apply Permutation_swap.
Qed.

Lemma insert_post_sorted p l :
  StronglySorted (λ a b, date_value b ≤ date_value a) l →
  StronglySorted (λ a b, date_value b ≤ date_value a) (insert_post p l).
Proof.
  induction 1 as [|q l Hs IH Hq]; cbn [insert_post].
  - repeat constructor.
  - case_bool_decide as Hle.
    + constructor; [by constructor|]. constructor; [lia|].
      eapply Forall_impl; [exact Hq|]. simpl. intros; lia.
    + constructor; [done|].
      rewrite (insert_post_perm p l). constructor; [lia|done].
Qed.

Section ReadPosts.
Context (host : Host).

Lemma read_loop_Forall (P : Value → Prop) rm config root files :
  (∀ d contents post, build_post host rm config d contents = Ok post → P post) →
  ∀ posts st st' all,
    read_loop host rm config root posts files st = (st', Ok all) →
    Forall P posts → Forall P all.
Proof.
  intros HP. induction files as [|file files IH]; intros posts st st' all H Hp.
  - by inversion H; subst.
  - cbn [read_loop] in H. apply mbind_Ok in H as (posts' & st1 & H1 & H).
    eapply IH; [done|].
    destruct (match_post_name file) as [d|] eqn:Hm.
    + destruct (readPost_Ok _ _ _ _ _ _ _ _ _ _ Hm H1)
        as (text & contents & post & _ & _ & Hb & ->).
      apply Forall_app. split; [done|]. constructor; [|constructor].
      by eapply HP.
    + unfold readPost in H1. rewrite Hm in H1. by injection H1 as <- <-.
Qed.

(** A file of [_posts] whose name does not fit the pattern is neither
    read nor collected: the loop goes as it does over the names that
    fit. *)
Theorem readPosts_skips_other_names rm config root files posts st :
  read_loop host rm config root posts files st
  = read_loop host rm config root posts
      (filter (λ f, is_Some (match_post_name f)) files) st.
Proof.
  revert posts st. induction files as [|file files IH]; intros posts st;
    [done|].
  rewrite filter_cons. destruct (match_post_name file) as [d|] eqn:Hm.
  - rewrite decide_True by done. cbn [read_loop].
    apply M_bind_ext. intros posts' st1. apply IH.
  - rewrite decide_False by by intros [? ?]. cbn [read_loop].
    unfold readPost at 1. rewrite Hm.
    unfold mbind, M_bind, mret, M_ret. apply IH.
Qed.

(** [readPosts] returns the posts newest first. What it returns is what
    the loop over [_posts] collected, every post once, each a record
    with the [Date] made from its file name; the dates never increase
    along the list, and posts of one date keep the order in which their
    files were read. When nothing is named [_posts] the result is empty
    and nothing is read. *)
Theorem readPosts_newest_first rm config root st st' posts :
  readPosts host rm config root st = (st', Ok posts) →
  StronglySorted (λ a b, date_value b ≤ date_value a) posts
  ∧ Forall (λ p, record_like p ∧ ∃ t, field "date" p = VDate t []) posts
  ∧ match resolve_path root ["_posts"] with
    | Some (Dir _ es) =>
        ∃ collected,
          read_loop host rm config root [] (entry_name <$> es) st
          = (st', Ok collected)
          ∧ posts ≡ₚ collected
          ∧ ∀ d, filter (λ p, date_value p = d) posts
                 = filter (λ p, date_value p = d) collected
    | Some (File _ _) => True
    | None => posts = [] ∧ st' = st
    end.
Proof.
  unfold readPosts. intros H.
  destruct (resolve_path root ["_posts"]) as [[n t|n es]|];
    try (injection H as <- <-; repeat split; constructor).
  apply mbind_Ok in H as (collected & st1 & Hc & H).
  injection H as <- <-.
  assert (Forall (λ p, record_like p ∧ ∃ t, field "date" p = VDate t [])
            collected) as Hrec.
  { eapply read_loop_Forall; [|exact Hc|constructor].
    intros [[[[d1 d2] d3] d4] d5] contents post Hb.
    apply build_post_Ok in Hb as (Hr & Hd & _). split; [done|].
    rewrite Hd. unfold new_Date. by eexists. }
  assert (sort_posts collected ≡ₚ collected) as Hperm.
  { unfold sort_posts. clear. induction collected as [|p l IH]; [done|].
    cbn [foldr]. by rewrite insert_post_perm, IH. }
  split; [|split].
  - unfold sort_posts. clear. induction collected as [|p l IH];
      [constructor|]. cbn [foldr]. by apply insert_post_sorted.
  - by rewrite Hperm.
  - exists collected. split; [done|]. split; [done|].
    intros d. unfold sort_posts. clear.
    induction collected as [|p l IH]; [done|]. cbn [foldr].
    rewrite insert_post_filter, filter_cons, IH. by case_decide.
Qed.

End ReadPosts.

Lemma readPosts_newest_first_witness :
  ∃ st' p1 p2,
    readPosts demo_host id demo_config demo_root initial_state
    = (st', Ok [p1; p2])
    ∧ field "name" p1 = VStr "elsewhere" ∧ field "name" p2 = VStr "dated"
    ∧ date_value p2 ≤ date_value p1.
Proof.
  pose (r := readPosts demo_host id demo_config demo_root initial_state).
  assert (∃ st' p1 p2, r = (st', Ok [p1; p2])
            ∧ field "name" p1 = VStr "elsewhere"
            ∧ field "name" p2 = VStr "dated") as (st' & p1 & p2 & Hr & H1 & H2).
  { do 3 eexists. split; [by vm_compute|]. split; by vm_compute. }
  exists st', p1, p2. split; [exact Hr|]. split; [done|]. split; [done|].
  destruct (readPosts_newest_first demo_host id demo_config demo_root
              initial_state st' [p1; p2] Hr) as [Hs _].
  apply StronglySorted_inv in Hs as [_ Hs]. by apply Forall_inv in Hs.
Defined.

(** * Tags of a post *)

Section Tags.
Context (host : Host).

Lemma normalize_tags_tags post post' :
  normalize_tags post = Ok post' →
  field "tags" post'
  = match field "tags" post with
    | VStr s =>
        if bool_decide (s = "") then VArr [] []
        else VArr (VStr <$> Str.split_ws s) []
    | t => if truthy t then t else VArr [] []
    end.
Proof.
  intros H. pose proof (normalize_tags_Ok _ _ H) as (Hr & _ & _).
  unfold normalize_tags in H. rewrite (get_record _ _ Hr) in H.
  cbn [mbind Res_bind] in H.
  destruct (assign_record post "tags" (VArr [] []) Hr ltac:(plain_key))
    as (p1 & Hp1 & Hr1 & Hf1 & Hk1).
  destruct (truthy (field "tags" post)) eqn:Ht.
  - cbn [mbind Res_bind] in H. rewrite (get_record _ _ Hr) in H.
    cbn [mbind Res_bind] in H.
    apply bind_Ok in H as (fe & Hfe & H).
    destruct (resolved_truthy fe) eqn:Efe.
    { injection H as <-.
      destruct (field "tags" post) eqn:E; cbn zeta;
        try (by rewrite Ht); try done;
        unfold resolve in Hfe; simpl in Hfe; by injection Hfe as <-. }
    apply bind_Ok in H as (sp & Hsp & H).
    destruct (resolved_truthy sp) eqn:Esp.
    + apply bind_Ok in H as (? & Hc & H).
      destruct (field "tags" post) eqn:E; try done.
      destruct (assign_record post "tags" (VArr (VStr <$> Str.split_ws s) [])
                  Hr ltac:(plain_key)) as (p3 & Hp3 & _ & Hf3 & _).
      rewrite Hp3 in H. injection H as <-. rewrite Hf3.
      simpl in Ht. apply negb_true_iff in Ht. by rewrite Ht.
    + injection H as <-.
      destruct (field "tags" post) eqn:E; cbn zeta;
        try (by rewrite Ht); try done;
        unfold resolve in Hsp; simpl in Hsp; by injection Hsp as <-.
  - rewrite Hp1 in H. cbn [mbind Res_bind] in H.
    rewrite (get_record _ _ Hr1), Hf1 in H. cbn [mbind Res_bind] in H.
    change (resolve (VArr [] []) MForEach) with (Ok Builtin) in H.
    cbn [mbind Res_bind resolved_truthy] in H. injection H as <-.
    rewrite Hf1. destruct (field "tags" post) eqn:E; cbn zeta;
      try (by rewrite Ht); try done.
    simpl in Ht. apply negb_false_iff in Ht. by rewrite Ht.
Qed.

(** The tags of a collected post. A string of tags in the metadata is
    split at white space, an empty or missing value becomes the empty
    list, and anything else (a list, but also a number or a mapping)
    is kept as it is. *)
Theorem build_post_tags rm config d contents post :
  build_post host rm config d contents = Ok post →
  field "tags" post
  = match field "tags" (js_or (frontMatter contents) (VObj [])) with
    | VStr s =>
        if bool_decide (s = "") then VArr [] []
        else VArr (VStr <$> Str.split_ws s) []
    | t => if truthy t then t else VArr [] []
    end.
Proof.
  destruct d as [[[[d1 d2] d3] d4] d5]. intros H.
  pose proof (build_post_Ok _ _ _ _ _ _ _ _ _ _ H) as (Hrp & _).
  unfold build_post in H. set (metadata := js_or _ _) in *.
  apply bind_Ok in H as (p1 & Hp1 & H). apply bind_Ok in H as (p2 & Hp2 & H).
  apply bind_Ok in H as (p3 & Hp3 & H).
  pose proof (normalize_tags_tags _ _ Hp3) as Htags.
  apply normalize_tags_Ok in Hp3 as (Hr2 & Hr3 & _).
  assert (record_like metadata) as Hr0.
  { destruct metadata; simpl in Hp1; simplify_eq; simpl in Hp2; simplify_eq;
      done. }
  destruct (assign_record metadata "date"
              (new_Date host (Str.digits_value d1) (Str.digits_value d2 - 1)
                 (Str.digits_value d3)) Hr0 ltac:(plain_key))
    as (q1 & E1 & Hq1 & _ & Hk1).
  rewrite E1 in Hp1. injection Hp1 as <-.
  destruct (assign_record q1 "name" (VStr d4) Hq1 ltac:(plain_key))
    as (q2 & E2 & Hq2 & _ & Hk2).
  rewrite E2 in Hp2. injection Hp2 as <-.
  rewrite Hk2, Hk1 in Htags by done. rewrite <-Htags.
  case_bool_decide.
  - apply bind_Ok in H as (url & _ & H).
    apply bind_Ok in H as (escd & _ & H).
    apply bind_Ok in H as (p4 & Hp4 & H).
    match type of Hp4 with assign _ _ ?v = _ =>
      destruct (assign_record p3 "content" v Hr3 ltac:(plain_key))
        as (q4 & E4 & Hq4 & _ & Hk4) end.
    rewrite E4 in Hp4. injection Hp4 as <-.
    destruct (assign_record q4 "isLink" (VBool true) Hq4 ltac:(plain_key))
      as (q5 & E5 & _ & _ & Hk5).
    rewrite E5 in H. injection H as <-. by rewrite Hk5, Hk4.
  - apply bind_Ok in H as (p4 & Hp4 & H). apply bind_Ok in H as (url & _ & H).
    match type of Hp4 with assign _ _ ?v = _ =>
      destruct (assign_record p3 "content" v Hr3 ltac:(plain_key))
        as (q4 & E4 & Hq4 & _ & Hk4) end.
    rewrite E4 in Hp4. injection Hp4 as <-.
    destruct (assign_record q4 "url" url Hq4 ltac:(plain_key))
      as (q5 & E5 & _ & _ & Hk5).
    rewrite E5 in H. injection H as <-. by rewrite Hk5, Hk4.
Qed.

End Tags.

Lemma build_post_tags_witness :
  ∃ post,
    build_post demo_host id demo_config ("2024", "1", "2", "hi", "md")
      {| frontMatter := VObj [("title", VStr "Hi"); ("tags", VStr "a b")];
         mainText := "x" |} = Ok post
    ∧ field "tags" post = VArr [VStr "a"; VStr "b"] [].
Proof.
  pose (c := {| frontMatter := VObj [("title", VStr "Hi"); ("tags", VStr "a b")];
                mainText := "x" |}).
  assert (∃ post, build_post demo_host id demo_config
                    ("2024", "1", "2", "hi", "md") c = Ok post) as [post H].
  { eexists. by vm_compute. }
  exists post. split; [exact H|].
  by rewrite (build_post_tags demo_host _ _ _ _ _ H).
Defined.

(** * gatherTags: when it throws *)

Section GatherTagsErrors.
Context (host : Host).

(** A conversion to a string fails with a TypeError and nothing
    else. *)
Lemma ToString_Throw v e : ToString host v = Throw e → e = TypeError.
Proof.
  revert e.
  induction v as [| |b|n|s|f|ps IH|xs ps IHxs IHps|t ps IH]
    using Value_tree_ind; intros e; try done.
  - by destruct b.
  - cbn [ToString]. repeat case_match; congruence.
  - cbn [ToString]. destruct (lookup_prop "toString" ps); [congruence|].
    destruct (lookup_prop "join" ps) as [j|];
      [destruct j; congruence|].
    match goal with
    | |- (?els xs ≫= _) = _ → _ =>
        assert (∀ e', els xs = Throw e' → e' = TypeError) as Hels
    end.
    { induction IHxs as [|x xs Hx _ IH']; [done|]. intros e'. simpl.
      destruct (match x with
                | VUndefined | VNull => Ok ""
                | _ => ToString host x
                end) as [sx|ex] eqn:Ex; cbn [mbind Res_bind].
      - match goal with
        | |- (?r ≫= _) = _ → _ => destruct r as [ss|es] eqn:Es
        end; [done|].
        intros [= <-]. by apply IH'.
      - intros [= <-]. destruct x; try done; by apply Hx. }
    match goal with
    | |- (?r ≫= _) = _ → _ => destruct r as [ss|es] eqn:Es
    end; [done|].
    intros [= <-]. by apply Hels.
  - cbn [ToString]. repeat case_match; congruence.
Qed.

Lemma file_under_Throw post idx tag e :
  file_under host post idx tag = Throw e → e = TypeError.
Proof.
  unfold file_under. intros H.
  destruct (lookup_prop "hasOwnProperty" (buckets idx)); [congruence|].
  destruct (ToString host tag) as [key|e'] eqn:Et.
  - cbn [mbind Res_bind] in H. repeat case_match; congruence.
  - injection H as <-. by eapply ToString_Throw.
Qed.

Lemma foldM_Throw {A B} (f : B → A → Res B) (P : Err → Prop) l :
  (∀ b a e, f b a = Throw e → P e) →
  ∀ b e, foldM f b l = Throw e → P e.
Proof.
  intros Hf. induction l as [|a l IH]; intros b e H; [done|].
  rewrite foldM_cons in H. destruct (f b a) as [b'|e'] eqn:E.
  - by eapply IH.
  - injection H as <-. by eapply Hf.
Qed.

Lemma gather_post_Throw acc post e :
  gather_post host acc post = Throw e → e = TypeError.
Proof.
  unfold gather_post. intros H.
  destruct (get post "tags") as [tags|e'] eqn:Eg.
  2:{ injection H as <-. destruct post; simpl in Eg; try done;
        repeat case_match; congruence. }
  cbn [mbind Res_bind] in H. destruct (truthy tags).
  - destruct (callable tags MForEach) as [[]|e'] eqn:Ec.
    2:{ injection H as <-. unfold callable, resolve in Ec.
        repeat (case_match; simplify_eq/=; try done). }
    cbn [mbind Res_bind] in H. destruct tags; try congruence.
    destruct (foldM (file_under host post) acc.1 xs) as [idx|e'] eqn:Ef;
      [done|].
    injection H as <-.
    eapply (foldM_Throw _ (λ e, e = TypeError)); [|exact Ef].
    intros ???. apply file_under_Throw.
  - destruct (assign post "tags" (VArr [] [])) as [p|e'] eqn:Ea; [done|].
    injection H as <-. destruct post; simpl in Ea; try done;
      repeat (case_match; simplify_eq/=; try done).
Qed.

(** The tags of a post that are neither missing nor a list make
    [gather_post] throw. *)
Lemma gather_post_non_list acc post :
  truthy (field "tags" post) = true →
  (∀ xs ps, field "tags" post ≠ VArr xs ps) →
  gather_post host acc post = Throw TypeError.
Proof.
  intros Ht Hna. unfold gather_post.
  assert (get post "tags" = Ok (field "tags" post)) as ->.
  { unfold field in *. by destruct (get post "tags"). }
  cbn [mbind Res_bind]. rewrite Ht.
  destruct (field "tags" post) as [| |b|n|s|f|ps|xs ps|t ps] eqn:E;
    try done; try (by destruct (Hna xs ps));
    unfold callable, resolve; simpl; repeat case_match; done.
Qed.

Lemma foldM_Throw_at {A B} (f : B → A → Res B) l a :
  a ∈ l → (∀ b, ∃ e, f b a = Throw e) →
  ∀ b, ∃ e, foldM f b l = Throw e.
Proof.
  intros Hin Ha. induction l as [|x l IH]; intros b;
    [by apply elem_of_nil in Hin|].
  rewrite foldM_cons. apply elem_of_cons in Hin as [<-|Hin].
  - destruct (Ha b) as [e ->]. by exists e.
  - destruct (f b x) as [b'|e]; [by apply IH|by exists e].
Qed.

(** [gatherTags] fails when some post has tags that are neither
    missing nor a list: a number or a mapping under [tags], which
    [readPosts] lets through, has no [forEach] to call and stops the
    build here with a TypeError. *)
Theorem gatherTags_non_list_tags posts p :
  p ∈ posts →
  truthy (field "tags" p) = true →
  (∀ xs ps, field "tags" p ≠ VArr xs ps) →
  (∀ f, lookup_prop "forEach" (named_props (field "tags" p)) ≠ Some (VFun f)) →
  gatherTags host posts = Throw TypeError.
Proof.
  intros Hin Ht Hna _.
  destruct (foldM_Throw_at (gather_post host) posts p Hin) with
    (b := ({| buckets := []; proto_bucket := None |}, @nil Value)) as [e He].
  { intros b. exists TypeError. by apply gather_post_non_list. }
  unfold gatherTags. rewrite He. f_equal.
  eapply (foldM_Throw _ (λ e, e = TypeError)); [|exact He].
  intros ???. apply gather_post_Throw.
Qed.

(** ** A tag named [hasOwnProperty] *)

Lemma file_under_own post idx tag idx' :
  file_under host post idx tag = Ok idx' →
  lookup_prop "hasOwnProperty" (buckets idx) = None
  ∧ (is_Some (lookup_prop "hasOwnProperty" (buckets idx'))
     ↔ to_string host tag = "hasOwnProperty").
Proof.
  unfold file_under. intros H.
  destruct (lookup_prop "hasOwnProperty" (buckets idx)) eqn:Eo; [done|].
  destruct (ToString host tag) as [key|e] eqn:Et; [|done].
  apply ToString_to_string in Et as <-. cbn [mbind Res_bind] in H.
  split; [done|].
  destruct (lookup_prop (to_string host tag) (buckets idx)) as [v|] eqn:Ek.
  - assert (to_string host tag ≠ "hasOwnProperty") as Hne by congruence.
    destruct v; try done. injection H as <-. cbn [buckets].
    rewrite lookup_set_prop_ne, Eo by done. split; [by intros [? ?]|done].
  - case_bool_decide as Hp; injection H as <-; cbn [buckets].
    + rewrite Eo. split; [by intros [? ?]|]. rewrite Hp. done.
    + destruct (decide (to_string host tag = "hasOwnProperty")) as [->|Hne].
      * rewrite lookup_set_prop. split; [done|by eexists].
      * rewrite lookup_set_prop_ne, Eo by done. split; [by intros [? ?]|done].
Qed.

(** In a sequence of tags that is filed without error the tag
    [hasOwnProperty] can only be the last. *)
Lemma foldM_file_under_own post xs : ∀ idx idx',
  foldM (file_under host post) idx xs = Ok idx' →
  (∀ l1 t l2, to_string host <$> xs ≠ l1 ++ "hasOwnProperty" :: t :: l2)
  ∧ (xs ≠ [] → lookup_prop "hasOwnProperty" (buckets idx) = None)
  ∧ (is_Some (lookup_prop "hasOwnProperty" (buckets idx'))
     ↔ (xs = [] ∧ is_Some (lookup_prop "hasOwnProperty" (buckets idx)))
       ∨ last (to_string host <$> xs) = Some "hasOwnProperty").
Proof.
  induction xs as [|x xs IH]; intros idx idx' H.
  - injection H as <-. split; [intros l1 t l2 E; by destruct l1|]. split; [done|].
    simpl. naive_solver.
  - rewrite foldM_cons in H. apply bind_Ok in H as (idx1 & H1 & H).
    destruct (file_under_own _ _ _ _ H1) as [Hnone Hown1].
    destruct (IH _ _ H) as (Hseq & Hne & Hown').
    split; [|split; [done|]].
    + intros l1 t l2 E. rewrite fmap_cons in E.
      destruct l1 as [|a l1]; simpl in E.
      * injection E as Ex Exs. apply Hown1 in Ex.
        destruct xs as [|y xs]; [done|].
        rewrite Hne in Ex by done. by destruct Ex.
      * injection E as _ Exs. by eapply Hseq.
    + rewrite Hown'. rewrite fmap_cons. destruct xs as [|y xs].
      * simpl. rewrite Hown1. split.
        -- intros [[_ E]|[=]]. right. by rewrite E.
        -- intros [[[=] _]|[= E]]. by left.
      * rewrite fmap_cons, last_cons_cons, <-fmap_cons. split.
        -- intros [[[=] _]|E]. by right.
        -- intros [[[=] _]|E]. by right.
Qed.

Lemma gather_post_own acc post acc' :
  gather_post host acc post = Ok acc' →
  (∀ l1 t l2, tags_of host post ≠ l1 ++ "hasOwnProperty" :: t :: l2)
  ∧ (tags_of host post ≠ [] →
     lookup_prop "hasOwnProperty" (buckets acc.1) = None)
  ∧ (is_Some (lookup_prop "hasOwnProperty" (buckets acc'.1))
     ↔ (tags_of host post = []
        ∧ is_Some (lookup_prop "hasOwnProperty" (buckets acc.1)))
       ∨ last (tags_of host post) = Some "hasOwnProperty").
Proof.
  unfold gather_post, tags_of, field. intros H.
  apply bind_Ok in H as (tags & -> & H).
  destruct (truthy tags) eqn:Ht.
  - apply bind_Ok in H as ([] & _ & H). destruct tags; try done.
    apply bind_Ok in H as (idx & H & [= <-]). cbn [fst].
    destruct (foldM_file_under_own _ _ _ _ H) as (H1 & H2 & H3).
    split; [done|]. split.
    + intros Hne. apply H2. by intros ->.
    + rewrite H3. split; intros [[E ?]|?]; auto; left; (split; [|done]).
      * by rewrite E.
      * by apply fmap_nil_inv in E.
  - apply bind_Ok in H as (post' & _ & [= <-]). cbn [fst].
    assert (match tags with VArr xs _ => to_string host <$> xs | _ => [] end
            = []) as -> by by destruct tags.
    split; [intros l1 t l2 E; by destruct l1|]. split; [done|]. simpl. naive_solver.
Qed.

Lemma foldM_gather_post_own posts : ∀ acc acc',
  foldM (gather_post host) acc posts = Ok acc' →
  (∀ l1 t l2, posts ≫= tags_of host ≠ l1 ++ "hasOwnProperty" :: t :: l2)
  ∧ (posts ≫= tags_of host ≠ [] →
     lookup_prop "hasOwnProperty" (buckets acc.1) = None).
Proof.
  induction posts as [|p posts IH]; intros acc acc' H.
  - split; [intros l1 t l2 E; by destruct l1|done].
  - rewrite foldM_cons in H. apply bind_Ok in H as (acc1 & H1 & H).
    destruct (gather_post_own _ _ _ H1) as (Hp & Hpne & Hown).
    destruct (IH _ _ H) as (Hrest & Hrne).
    rewrite bind_cons. split.
    + intros l1 t l2 E.
      destruct (decide (posts ≫= tags_of host = [])) as [Hnil|Hnn].
      { rewrite Hnil, app_nil_r in E. by eapply Hp. }
      specialize (Hrne Hnn).
      assert (¬ is_Some (lookup_prop "hasOwnProperty" (buckets acc1.1)))
        as Hno by (rewrite Hrne; by intros [? ?]).
      rewrite Hown in Hno.
      (* [hasOwnProperty] is not the last tag of [p], nor any other *)
      assert ("hasOwnProperty" ∉ tags_of host p) as Hnin.
      { intros Hin. apply list_elem_of_split in Hin as (a & b & Eab).
        destruct b as [|t' b].
        - apply Hno. right. by rewrite Eab, last_snoc.
        - by eapply Hp. }
      (* so the occurrence lies in the tags of the posts that follow *)
      revert E. generalize (tags_of host p) Hnin. intros ts Hts.
      revert l1. induction ts as [|a ts IHts]; intros l1 E.
      * by eapply Hrest.
      * apply not_elem_of_cons in Hts as [Ha Hts].
        destruct l1 as [|b l1]; simpl in E; [by injection E as -> _|].
        injection E as _ E. by eapply IHts.
    + intros Hne. destruct (decide (tags_of host p = [])) as [Hnil|Hnn];
        [|by apply Hpne].
      rewrite Hnil in Hne. simpl in Hne. specialize (Hrne Hne).
      destruct (lookup_prop "hasOwnProperty" (buckets acc.1)) eqn:E; [|done].
      assert (is_Some (lookup_prop "hasOwnProperty" (buckets acc1.1))) as Hs.
      { apply Hown. left. split; [done|by eexists]. }
      rewrite Hrne in Hs. by destruct Hs.
Qed.

(** A tag named [hasOwnProperty] becomes an own property of the index
    and hides the method the next lookup calls: when any tag follows
    it, in the same post or in a later one, [gatherTags] throws a
    TypeError. *)
Theorem gatherTags_hasOwnProperty_tag posts l1 t l2 :
  posts ≫= tags_of host = l1 ++ "hasOwnProperty" :: t :: l2 →
  gatherTags host posts = Throw TypeError.
Proof.
  intros E. destruct (gatherTags host posts) as [r|e] eqn:H.
  - exfalso. unfold gatherTags in H.
    destruct (foldM_gather_post_own _ _ _ H) as [Hseq _]. by eapply Hseq.
  - f_equal. eapply (foldM_Throw _ (λ e, e = TypeError)); [|exact H].
    intros ???. apply gather_post_Throw.
Qed.

End GatherTagsErrors.

Lemma gatherTags_non_list_tags_witness :
  gatherTags demo_host
    [tagged "one" ["x"]; VObj [("name", VStr "two"); ("tags", VNum 5)]]
  = Throw TypeError.
Proof.
  apply (gatherTags_non_list_tags demo_host _
           (VObj [("name", VStr "two"); ("tags", VNum 5)])).
  - apply elem_of_cons. right. apply elem_of_cons. by left.
  - reflexivity.
  - intros xs ps. discriminate.
  - intros f. discriminate.
Defined.

Lemma gatherTags_hasOwnProperty_tag_witness :
  gatherTags demo_host
    [tagged "one" ["x"; "hasOwnProperty"]; tagged "two" []; tagged "three" ["y"]]
  = Throw TypeError.
Proof.
  by apply (gatherTags_hasOwnProperty_tag demo_host _ ["x"] "y" []).
Defined.

(** * File names without their extension *)

Lemma split_last_None c s :
  Str.has_char c s = false → Str.split_last c s = None.
Proof.
  induction s as [|a s IH]; [done|].
  intros [Hne Hs]%has_char_cons. simpl. rewrite IH by done.
  by rewrite decide_False.
Qed.

Lemma split_last_app c a b :
  Str.has_char c b = false →
  Str.split_last c (a +:+ String c b) = Some (a, b).
Proof.
  intros Hb. induction a as [|x a IH].
  - simpl. rewrite split_last_None by done. by rewrite decide_True.
  - rewrite sapp_cons. simpl. by rewrite IH.
Qed.

(** The name a page or an include goes by is its file name up to the
    last dot, which at least one character must follow: a name without
    a dot, or one that ends in a dot, has none, and the code that asks
    for it ([match(...)[1]] on [null]) throws. *)
Theorem file_stem_spec :
  (∀ stem ext,
     ext ≠ "" → Str.has_char "." ext = false →
     Str.forallb (λ c, negb (Str.is_line_terminator c)) stem = true →
     file_stem (stem +:+ "." +:+ ext) = Some stem)
  ∧ (∀ f, Str.has_char "." f = false → file_stem f = None)
  ∧ (∀ s, file_stem (s +:+ ".") = None).
Proof.
  unfold file_stem. split; [|split].
  - intros stem ext Hne Hdot Hlt.
    change (stem +:+ "." +:+ ext) with (stem +:+ String "." ext).
    rewrite split_last_app by done. simpl.
    by rewrite bool_decide_eq_false_2, Hlt.
  - intros f Hf. by rewrite split_last_None.
  - intros s. change (s +:+ ".") with (s +:+ String "." "").
    by rewrite split_last_app.
Qed.

(** * prepareIncludes *)

Lemma forEach_cons {A} (f : A → M unit) a l st :
  forEach f (a :: l) st = (_ ← f a; forEach f l) st.
Proof. reflexivity. Qed.

Lemma forEach_throws_at {A} (f : A → M unit) l a :
  a ∈ l → (∀ st, ∃ e, (f a st).2 = Throw e) →
  ∀ st, ∃ e, (forEach f l st).2 = Throw e.
Proof.
  intros Hin Ha. induction l as [|x l IH]; intros st;
    [by apply elem_of_nil in Hin|].
  rewrite forEach_cons. unfold mbind, M_bind.
  apply elem_of_cons in Hin as [<-|Hin].
  - destruct (Ha st) as [e He]. destruct (f a st) as [st1 [[]|e']];
      simpl in *; [done|by eexists].
  - destruct (f x st) as [st1 [[]|e']]; [by apply IH|by eexists].
Qed.

Section Includes.
Context (root : list Entry).

Lemma register_include_Ok file st st' :
  register_include root file st = (st', Ok ()) →
  ∃ name source,
    file_stem file = Some name
    ∧ file_data root (trace st) (norm_path ("_includes/" +:+ file))
      = Some source
    ∧ partials st' = (name, source) :: partials st
    ∧ layouts st' = layouts st
    ∧ trace st' = trace st ++ [EvRead ("_includes/" +:+ file);
                               EvRegisterPartial name source].
Proof.
  unfold register_include. destruct (file_stem file) as [name|]; [|done].
  intros H. apply mbind_Ok in H as (source & st1 & Hr & H).
  apply readFileSync_Ok in Hr as (Hd & Ht & Hl & Hp).
  unfold registerPartial in H. injection H as <-.
  exists name, source. cbn [partials layouts trace].
  rewrite Hp, Hl, Ht, <-app_assoc. done.
Qed.

(** [prepareIncludes] registers every file of [_includes] as a partial
    under its name without the last extension, with the text of the
    file, in the order of the directory, and registers nothing else
    (the partial registered last comes first in [partials]). A file
    whose name has no extension makes it throw. *)
Theorem prepareIncludes_registers_stems ctx n es st :
  resolve_path root ["_includes"] = Some (Dir n es) →
  (∀ st', prepareIncludes root ctx st = (st', Ok ()) →
     ∃ regs,
       Forall2 (λ e r,
                  file_stem (entry_name e) = Some r.1
                  ∧ file_data root (trace st)
                      (norm_path ("_includes/" +:+ entry_name e))
                    = Some r.2) es regs
       ∧ partials st' = reverse regs ++ partials st
       ∧ layouts st' = layouts st)
  ∧ (∀ e, e ∈ es → file_stem (entry_name e) = None →
       ∃ err, (prepareIncludes root ctx st).2 = Throw err).
Proof.
  intros Hdir.
  assert (prepareIncludes root ctx st
          = forEach (register_include root) (entry_name <$> es) st) as ->.
  { unfold prepareIncludes, exists_dir, mbind, M_bind, get_state, mret, M_ret.
    change (norm_path "_includes/") with ["_includes"].
    unfold is_dir. rewrite Hdir. cbn [orb bool_decide decide_rel].
    rewrite orb_true_r. by rewrite orb_true_l. }
  split.
  - clear Hdir. revert st.
    induction es as [|e es IH]; intros st st' H.
    + injection H as <-. exists []. by repeat split.
    + rewrite fmap_cons, forEach_cons in H.
      apply mbind_Ok in H as ([] & st1 & H1 & H).
      apply register_include_Ok in H1 as (name & source & Hs & Hd & Hp & Hl & Ht).
      destruct (IH _ _ H) as (regs & Hregs & Hp' & Hl').
      exists ((name, source) :: regs). split; [|split].
      * constructor; [done|].
        eapply Forall2_impl; [exact Hregs|]. intros e' r [? Hd'].
        split; [done|]. rewrite Ht in Hd'. unfold file_data in *.
        by rewrite written_data_app in Hd'.
      * rewrite Hp', Hp, reverse_cons, <-app_assoc. done.
      * congruence.
  - intros e Hin Hstem.
    apply (forEach_throws_at _ _ (entry_name e)).
    + apply list_elem_of_fmap. by exists e.
    + intros st0. exists TypeError. unfold register_include.
      by rewrite Hstem.
Qed.

End Includes.

Lemma prepareIncludes_registers_stems_witness :
  ∃ st',
    prepareIncludes
      [Dir "_includes" [File "header.html" "<h>"; File "nav.bar.html" "<n>"]]
      VUndefined initial_state = (st', Ok ())
    ∧ partials st' = [("nav.bar", "<n>"); ("header", "<h>")].
Proof.
  pose (root := [Dir "_includes"
                   [File "header.html" "<h>"; File "nav.bar.html" "<n>"]]).
  assert (∃ st', prepareIncludes root VUndefined initial_state = (st', Ok ()))
    as [st' H].
  { eexists. by vm_compute. }
  exists st'. split; [exact H|].
  destruct (prepareIncludes_registers_stems root VUndefined "_includes"
              [File "header.html" "<h>"; File "nav.bar.html" "<n>"]
              initial_state eq_refl) as [Hok _].
  destruct (Hok st' H) as (regs & Hregs & -> & _).
  apply Forall2_cons_inv_l in Hregs as ([n1 s1] & regs1 & [E1 D1] & Hregs & ->).
  apply Forall2_cons_inv_l in Hregs as ([n2 s2] & regs2 & [E2 D2] & Hregs & ->).
  apply Forall2_nil_inv_l in Hregs as ->.
  vm_compute in E1, D1, E2, D2. by simplify_eq.
Defined.

(** * readConfig *)

Section ReadConfig.
Context (host : Host) (root : list Entry).

Lemma apply_defaults_VObj ps :
  lookup_prop "hasOwnProperty" ps = None →
  ∃ ps',
    foldM apply_default (VObj ps) defaults = Ok (VObj ps')
    ∧ (∀ k v, lookup_prop k ps = Some v → lookup_prop k ps' = Some v)
    ∧ (∀ k, lookup_prop k ps = None →
         lookup_prop k ps' = lookup_prop k defaults).
Proof.
  intros Hno.
  assert (∀ qs d, lookup_prop "hasOwnProperty" qs = None →
            apply_default (VObj qs) d
            = Ok (VObj (if bool_decide (is_Some (lookup_prop d.1 qs)) then qs
                        else if bool_decide (d.1 = "__proto__") then qs
                        else set_prop d.1 d.2 qs))) as Hstep.
  { intros qs d Hq. unfold apply_default, callable, resolve. simpl.
    rewrite Hq. simpl. case_bool_decide; [done|]. by case_bool_decide. }
  unfold defaults. rewrite foldM_cons.
  rewrite Hstep by done. cbn [mbind Res_bind fst snd].
  set (ps1 := if bool_decide (is_Some (lookup_prop "postLink" ps)) then ps
              else set_prop "postLink" (VStr "${name}.html") ps).
  assert (lookup_prop "hasOwnProperty" ps1 = None) as Hno1.
  { unfold ps1. case_bool_decide; [done|]. by rewrite lookup_set_prop_ne. }
  rewrite (bool_decide_eq_false_2 ("postLink" = "__proto__")) by done.
  fold ps1. rewrite foldM_cons.
  rewrite Hstep by done. cbn [mbind Res_bind fst snd]. rewrite foldM_nil.
  rewrite (bool_decide_eq_false_2 ("postFileName" = "__proto__")) by done.
  eexists. split; [done|].
  assert (∀ k, lookup_prop k ps1
               = match lookup_prop k ps with
                 | Some v => Some v
                 | None => if decide (k = "postLink")
                           then Some (VStr "${name}.html") else None
                 end) as H1.
  { intros k. unfold ps1. case_bool_decide as Hs.
    - destruct (lookup_prop k ps) eqn:E; [done|].
      case_decide; [|done]. subst. rewrite E in Hs. by destruct Hs.
    - destruct (decide (k = "postLink")) as [->|Hne].
      + rewrite lookup_set_prop.
        destruct (lookup_prop "postLink" ps) eqn:E; [|done].
        destruct Hs. by eexists.
      + rewrite lookup_set_prop_ne by done. by destruct (lookup_prop k ps). }
  split.
  - intros k v Hk. case_bool_decide as Hs.
    + by rewrite H1, Hk.
    + destruct (decide (k = "postFileName")) as [->|Hne].
      * destruct Hs. rewrite H1, Hk. by eexists.
      * rewrite lookup_set_prop_ne by done. by rewrite H1, Hk.
  - intros k Hk. case_bool_decide as Hs.
    + rewrite H1, Hk. rewrite H1 in Hs.
      destruct (lookup_prop "postFileName" ps) eqn:E.
      * simpl. repeat case_decide; subst; try done. congruence.
      * rewrite decide_False in Hs by done. by destruct Hs.
    + destruct (decide (k = "postFileName")) as [->|Hne].
      * by rewrite lookup_set_prop.
      * rewrite lookup_set_prop_ne by done. rewrite H1, Hk. simpl.
        repeat case_decide; subst; done.
Qed.

(** [readConfig] fills in the defaults and changes nothing else. With
    no [_config.yml], or one that loads as nothing, the configuration is
    the defaults. With one that loads as a mapping, every key of the
    file keeps its value and the keys [postLink] and [postFileName] get
    their defaults where the file does not set them; no other key
    appears. A mapping with a key [hasOwnProperty] that holds no
    function makes the call throw a TypeError, and an exception of the
    YAML parser passes through. *)
Theorem readConfig_defaults st :
  (file_data root (trace st) (norm_path "_config.yml") = None →
   readConfig host root st = (st, Ok (VObj defaults)))
  ∧ (∀ text,
       file_data root (trace st) (norm_path "_config.yml") = Some text →
       let st1 := with_trace st [EvRead "_config.yml"] in
       (∀ fm, yaml_load host text = Ok fm → truthy fm = false →
          readConfig host root st = (st1, Ok (VObj defaults)))
       ∧ (∀ ps, yaml_load host text = Ok (VObj ps) →
            lookup_prop "hasOwnProperty" ps = None →
            ∃ ps',
              readConfig host root st = (st1, Ok (VObj ps'))
              ∧ (∀ k v, lookup_prop k ps = Some v → lookup_prop k ps' = Some v)
              ∧ (∀ k, lookup_prop k ps = None →
                   lookup_prop k ps' = lookup_prop k defaults))
       ∧ (∀ ps x, yaml_load host text = Ok (VObj ps) →
            lookup_prop "hasOwnProperty" ps = Some x →
            (∀ f, x ≠ VFun f) →
            readConfig host root st = (st1, Throw TypeError))
       ∧ (∀ e, yaml_load host text = Throw e →
            readConfig host root st = (st1, Throw e))).
Proof.
  assert (∀ text, file_data root (trace st) (norm_path "_config.yml")
                    = Some text →
            readConfig host root st
            = (with_trace st [EvRead "_config.yml"],
               loaded ← yaml_load host text;
               foldM apply_default (js_or loaded (VObj [])) defaults)) as Hrun.
  { intros text Hf.
    unfold readConfig, exists_file, readFileSync, emit, lift, get_state,
      mbind, M_bind, mret, M_ret. rewrite Hf. cbn beta iota. rewrite Hf.
    unfold with_trace. cbn [trace layouts partials].
    by destruct (yaml_load host text). }
  split.
  - intros Hf.
    unfold readConfig, exists_file, readFileSync, emit, lift, get_state,
      mbind, M_bind, mret, M_ret. by rewrite Hf.
  - intros text Hf. cbn zeta. rewrite (Hrun _ Hf).
    split; [|split; [|split]].
    + intros fm -> Hfm. unfold js_or. cbn [mbind Res_bind]. by rewrite Hfm.
    + intros ps -> Hno.
      destruct (apply_defaults_VObj ps Hno) as (ps' & E & H1 & H2).
      exists ps'. unfold js_or. cbn [mbind Res_bind truthy]. by rewrite E.
    + intros ps x -> Hx _. unfold js_or. cbn [mbind Res_bind truthy].
      unfold defaults. rewrite foldM_cons.
      unfold apply_default, callable, resolve. simpl. by rewrite Hx.
    + by intros e ->.
Qed.

End ReadConfig.

(** * getLayout: names and failures *)

Section LayoutNames.
Context (host : Host).

Lemma occurs_app_pat pat a b : Str.occurs pat (a +:+ pat +:+ b) = true.
Proof.
  unfold Str.occurs. induction a as [|c a IH].
  - simpl ("" +:+ _). destruct (pat +:+ b) eqn:E; simpl;
      pose proof (strip_prefix_app pat b) as H; rewrite E in H;
      by rewrite H.
  - rewrite sapp_cons. simpl.
    destruct (Str.strip_prefix pat _); [done|].
    by destruct (Str.split_first pat (a +:+ pat +:+ b)) as [[??]|].
Qed.

(** A layout name without a dot stands for the name with [.html]. *)
Lemma layout_name_html s :
  Str.occurs "." s = false →
  layout_name host (VStr s) = Ok (VStr (s +:+ ".html"))
  ∧ layout_name host (VStr (s +:+ ".html")) = Ok (VStr (s +:+ ".html")).
Proof.
  intros Hs. unfold layout_name.
  change (callable (VStr ?x) MIndexOf) with (Ok ()).
  cbn [mbind Res_bind]. split.
  - rewrite bool_decide_eq_true_2; [done|]. by apply index_of_occurs.
  - rewrite bool_decide_eq_false_2; [done|]. rewrite index_of_occurs.
    change (s +:+ ".html") with (s +:+ "." +:+ "html").
    by rewrite occurs_app_pat.
Qed.

(** A layout asked for by its bare name and by its name with [.html]
    is one entry of the cache: where [ctx] is bound, the first call
    reads and compiles [_layouts/<name>.html], and a later call under
    either name returns that layout and touches nothing. *)
Theorem getLayout_bare_name_is_html ctx root s source st :
  Str.occurs "." s = false →
  layouts st !! (s +:+ ".html") = None →
  file_data root (trace st) (norm_path ("_layouts/" +:+ s +:+ ".html"))
  = Some source →
  ∃ st1 l,
    getLayout host (Some ctx) root (VStr s) st = (st1, Ok l)
    ∧ lay_filename l = VStr (s +:+ ".html")
    ∧ trace st1 = trace st ++ [EvRead ("_layouts/" +:+ s +:+ ".html");
                               EvCompile source]
    ∧ getLayout host (Some ctx) root (VStr (s +:+ ".html")) st1 = (st1, Ok l)
    ∧ getLayout host (Some ctx) root (VStr s) st1 = (st1, Ok l).
Proof.
  intros Hs Hl Hf. destruct (layout_name_html s Hs) as [Hn1 Hn2].
  eexists _, _.
  rewrite (getLayout_miss host (Some ctx) _ _ _ _ _ Hn1 Hl Hf). cbn zeta.
  split; [done|]. split; [done|]. split; [done|]. split.
  - apply (getLayout_hit host _ _ _ _ _ _ Hn2). simpl.
    apply lookup_insert_eq.
  - apply (getLayout_hit host _ _ _ _ _ _ Hn1). simpl.
    apply lookup_insert_eq.
Qed.

(** A call of [getLayout] that cannot find its file changes nothing:
    it throws before anything is read, compiled or cached. A name that
    is neither a string nor a list (a number under [layout], say) makes
    the call throw a TypeError at once. *)
Theorem getLayout_failures global_ctx root name st :
  (∀ e, layout_name host name = Throw e →
     getLayout host global_ctx root name st = (st, Throw e))
  ∧ (∀ nm, layout_name host name = Ok nm →
       layouts st !! to_string host nm = None →
       file_data root (trace st)
         (norm_path ("_layouts/" +:+ to_string host nm)) = None →
       getLayout host global_ctx root name st = (st, Throw FsError))
  ∧ ((∀ s, name ≠ VStr s) → (∀ xs ps, name ≠ VArr xs ps) →
     layout_name host name = Throw TypeError).
Proof.
  unfold getLayout, readFileSync, lift, get_state, mbind, M_bind, mret, M_ret.
  split; [|split].
  - by intros e ->.
  - intros nm -> Hl Hf. by rewrite Hl, Hf.
  - intros Hs Ha. unfold layout_name, callable, resolve.
    destruct name as [| |b|n|s|f|ps|xs ps|t ps]; try done;
      try (by destruct (Hs s)); try (by destruct (Ha xs ps));
      simpl; repeat case_match; done.
Qed.

End LayoutNames.

Lemma getLayout_bare_name_is_html_witness :
  ∃ st1 l,
    getLayout demo_host (Some (VObj [])) demo_root (VStr "post") initial_state
    = (st1, Ok l)
    ∧ getLayout demo_host (Some (VObj [])) demo_root (VStr "post.html") st1
      = (st1, Ok l).
Proof.
  destruct (getLayout_bare_name_is_html demo_host (VObj []) demo_root
              "post" "POST" initial_state eq_refl eq_refl eq_refl)
    as (st1 & l & H1 & _ & _ & H2 & _).
  by exists st1, l.
Defined.

(** * The keys of the document in the merged context *)

Lemma lookup_prop_elem_of {A} k (x : A) ps :
  lookup_prop k ps = Some x → (k, x) ∈ ps.
Proof.
  induction ps as [|[k' x'] ps IH]; [done|]. rewrite lookup_prop_cons.
  case_decide as Hd; [intros [= ->]; subst; left|intros Hx; right; auto].
Qed.

Lemma enum_props_NoDup {A} (ps : list (string * A)) :
  NoDup ps.*1 → NoDup (enum_props ps).*1.
Proof. intros H. by rewrite (enum_props_perm ps). Qed.

Lemma overlay_lookup es : ∀ ps finalCtx,
  overlay (VObj ps) es = Ok finalCtx →
  NoDup es.*1 →
  ∃ ps', finalCtx = VObj ps'
    ∧ ∀ k x, (k, x) ∈ es → k ≠ "__proto__" → lookup_prop k ps' = Some x.
Proof.
  induction es as [|[k0 x0] es IH]; intros ps finalCtx H Hnd.
  - injection H as <-. exists ps. split; [done|]. by intros ?? ?%elem_of_nil.
  - rewrite overlay_cons in H. rewrite fmap_cons in Hnd.
    apply NoDup_cons in Hnd as [Hk0 Hnd].
    destruct (overlay_VObj _ _ _ H) as (ps' & -> & Hkeep).
    destruct (IH _ _ H Hnd) as (ps'' & [= <-] & Hes).
    exists ps'. split; [done|].
    intros k x [[= -> ->]|Hin]%elem_of_cons Hne; [|by apply Hes].
    rewrite Hkeep by done. rewrite bool_decide_eq_false_2 by done.
    apply lookup_set_prop.
Qed.

Section DocumentKeys.
Context (host : Host).

(** The keys of the document win. After the merge the context holds,
    under every key of the document but [__proto__], the value the
    document holds there, whatever the site context has under that
    key: a page whose front matter has a key [site] hides the whole
    site from its template. *)
Theorem merge_context_document_keys_win base doc finalCtx :
  merge_context host (VObj base) (VObj doc) = Ok finalCtx →
  NoDup doc.*1 →
  ∀ k x, lookup_prop k doc = Some x → k ≠ "__proto__" →
    field k finalCtx = x ∧ has_own finalCtx k = true.
Proof.
  unfold merge_context, json_roundtrip. rewrite json_copy_VObj.
  cbn [mbind Res_bind object_entries for_in]. intros H Hnd k x Hk Hne.
  destruct (overlay_lookup _ _ _ H (enum_props_NoDup _ Hnd))
    as (ps' & -> & Hes).
  assert (lookup_prop k ps' = Some x) as Hl.
  { apply Hes; [|done]. rewrite (enum_props_perm doc).
    by apply lookup_prop_elem_of. }
  unfold field. simpl. rewrite Hl. split; [done|].
  by apply bool_decide_eq_true.
Qed.

Lemma h_overlay_run hp es : ∀ fps,
  ∃ fps',
    h_overlay (HRef (length hp)) es (hp ++ [CObj fps])
    = (hp ++ [CObj fps'], Ok ())
    ∧ (∀ k, k ∉ es.*1 → lookup_prop k fps' = lookup_prop k fps)
    ∧ (NoDup es.*1 → ∀ k x, (k, x) ∈ es → k ≠ "__proto__" →
         lookup_prop k fps' = Some x).
Proof.
  induction es as [|[k0 x0] es IH]; intros fps.
  - exists fps. split; [done|]. split; [done|]. by intros _ ?? ?%elem_of_nil.
  - cbn [h_overlay h_assign]. rewrite list_lookup_middle by done.
    unfold cell_assign.
    set (fps1 := if bool_decide (k0 = "__proto__") then fps
                 else set_prop k0 x0 fps).
    assert ((let (h', r) :=
               match (if bool_decide (k0 = "__proto__") then Ok (CObj fps)
                      else Ok (CObj (set_prop k0 x0 fps))) with
               | Ok c' => (<[length hp:=c']> (hp ++ [CObj fps]), Ok ())
               | Throw e => (hp ++ [CObj fps], Throw e)
               end in
             match r with
             | Ok _ => h_overlay (HRef (length hp)) es h'
             | Throw e => (h', Throw e)
             end)
            = h_overlay (HRef (length hp)) es (hp ++ [CObj fps1])) as ->.
    { unfold fps1. case_bool_decide.
      - by rewrite list_insert_id by by rewrite list_lookup_middle.
      - by rewrite insert_app_r_alt, Nat.sub_diag by done. }
    destruct (IH fps1) as (fps' & Hrun & Hkeep & Hset).
    exists fps'. split; [done|]. rewrite fmap_cons. split.
    + intros k [Hne Hk]%not_elem_of_cons. rewrite Hkeep by done.
      unfold fps1. case_bool_decide; [done|]. by apply lookup_set_prop_ne.
    + intros [Hk0 Hnd]%NoDup_cons k x [[= -> ->]|Hin]%elem_of_cons Hne;
        [|by apply Hset].
      rewrite Hkeep by done. unfold fps1.
      rewrite bool_decide_eq_false_2 by done. apply lookup_set_prop.
Qed.

(** Under a key of the document the merged context holds the document's
    own value, not a copy: where that value is an object, the merged
    context and the document refer to one cell, and a write through the
    merged context's key reaches the document. A post is part of the
    site context, so for a post the cell also belongs to the site
    context. *)
Theorem h_merge_context_shares_document_values ctx h base ld dps k x :
  reify (S (length h)) h ctx = Some (VObj base) →
  h !! ld = Some (CObj dps) →
  NoDup dps.*1 →
  lookup_prop k dps = Some x →
  k ≠ "__proto__" →
  ∃ h2 l fps,
    h_merge_context host ctx (HRef ld) h = (h2, Ok (HRef l))
    ∧ h2 !! l = Some (CObj fps)
    ∧ lookup_prop k fps = Some x
    ∧ h2 !! ld = Some (CObj dps).
Proof.
  intros Hctx Hld Hnd Hk Hne.
  unfold h_merge_context, h_json_roundtrip, json_roundtrip.
  rewrite Hctx, json_copy_VObj, alloc_VObj.
  set (cps := enum_props (json_props host base)).
  destruct (alloc_props_rel cps h) as (cc & E & _).
  destruct (alloc_props cps h) as [hp fps0]. simpl in E. subst hp.
  cbn [fst snd].
  assert (h_for_in ((h ++ cc) ++ [CObj fps0]) (HRef ld) = enum_props dps)
    as ->.
  { unfold h_for_in. rewrite <-app_assoc.
    by rewrite (lookup_app_l_Some _ _ _ _ Hld). }
  destruct (h_overlay_run (h ++ cc) (enum_props dps) fps0)
    as (fps & -> & _ & Hset).
  exists ((h ++ cc) ++ [CObj fps]), (length (h ++ cc)), fps.
  split; [done|]. split; [by rewrite list_lookup_middle|]. split.
  - apply Hset; [by apply enum_props_NoDup| |done].
    rewrite (enum_props_perm dps). by apply lookup_prop_elem_of.
  - rewrite <-app_assoc. by apply lookup_app_l_Some.
Qed.

End DocumentKeys.

Lemma merge_context_document_keys_win_witness :
  ∃ finalCtx,
    merge_context demo_host
      (VObj [("site", VObj [("posts", VArr [] [])]); ("dateFormat", VFun 0)])
      (VObj [("title", VStr "About"); ("site", VStr "mine")]) = Ok finalCtx
    ∧ field "site" finalCtx = VStr "mine".
Proof.
  eexists. split; [by vm_compute|].
  eapply (merge_context_document_keys_win demo_host
            [("site", VObj [("posts", VArr [] [])]); ("dateFormat", VFun 0)]
            [("title", VStr "About"); ("site", VStr "mine")]);
    [by vm_compute| |done|done].
  simpl. repeat constructor; set_solver.
Defined.

Lemma h_merge_context_shares_document_values_witness :
  ∃ h2 l fps,
    h_merge_context demo_host (HRef 5) (HRef 1) demo_heap = (h2, Ok (HRef l))
    ∧ h2 !! l = Some (CObj fps)
    ∧ lookup_prop "tags" fps = Some (HRef 0).
Proof.
  destruct (h_merge_context_shares_document_values demo_host (HRef 5)
              demo_heap
              [("site", VObj [("posts",
                   VArr [VObj [("title", VStr "First");
                               ("tags", VArr [VStr "a"] [])]] [])]);
               ("dateFormat", VFun 0)]
              1%nat [("title", HStr "First"); ("tags", HRef 0)]
              "tags" (HRef 0))
    as (h2 & l & fps & H1 & H2 & H3 & _); try done.
  - simpl. repeat constructor; set_solver.
  - by exists h2, l, fps.
Defined.

(** * The default permalink *)







Section Permalink.
Context (host : Host).




End Permalink.


(** * readContents: the header ends at the first closing line *)

Lemma strip_prefix_short p : ∀ s t r,
  Str.strip_prefix p (s +:+ t) = Some r → (Str.len p ≤ Str.len s)%nat →
  is_Some (Str.strip_prefix p s).
Proof.
  induction p as [|a p IH]; intros s t r H Hlen; [by eexists|].
  destruct s as [|b s]; [simpl in Hlen; lia|].
  rewrite sapp_cons in H. simpl in *. case_decide; [|done].
  eapply IH; [done|lia].
Qed.

Lemma occurs_cons_false pat c s :
  Str.occurs pat (String c s) = false →
  Str.strip_prefix pat (String c s) = None ∧ Str.occurs pat s = false.
Proof.
  unfold Str.occurs. simpl.
  destruct (Str.strip_prefix pat (String c s)); [done|].
  by destruct (Str.split_first pat s) as [[??]|].
Qed.

(** A pattern is first found where it stands, if it does not occur in
    what precedes it together with all of it but its last character. *)
Lemma split_first_first q c a b :
  Str.occurs (q +:+ String c "") (a +:+ q) = false →
  Str.split_first (q +:+ String c "") (a +:+ (q +:+ String c "") +:+ b)
  = Some (a, b).
Proof.
  induction a as [|x a IH]; intros H.
  - change (Str.split_first (q +:+ String c "") ((q +:+ String c "") +:+ b)
            = Some ("", b)).
    apply split_first_here. by rewrite strip_prefix_app.
  - rewrite sapp_cons in H. apply occurs_cons_false in H as [Hs Ho].
    rewrite sapp_cons, split_first_cons.
    + rewrite (IH Ho). reflexivity.
    + destruct (Str.strip_prefix (q +:+ String c "")
                  (String x (a +:+ (q +:+ String c "") +:+ b)))
        as [r|] eqn:E; [|done].
      exfalso. rewrite <-sapp_cons, sapp_assoc, <-(sapp_assoc (String x a)) in E.
      apply strip_prefix_short in E as [r' Hr'].
      * rewrite sapp_cons in Hr'. congruence.
      * rewrite !slen_app. simpl. lia.
Qed.

Section HeaderRoundTrip.
Context (host : Host).

(** The result of [readContents] from the place where the closing
    delimiter is first found. *)
Lemma readContents_split rest a b :
  Str.split_first closing_delimiter (opening_delimiter +:+ rest) = Some (a, b) →
  readContents host (opening_delimiter +:+ rest)
  = (fm ← yaml_load host (Str.drop 4 (a +:+ Str.nl));
     Ok {| frontMatter := js_or fm (VObj []); mainText := b |}).
Proof.
  intros E. unfold readContents.
  assert (Str.starts_with opening_delimiter (opening_delimiter +:+ rest) = true)
    as -> by (unfold Str.starts_with; by rewrite strip_prefix_app).
  unfold Str.index_of. rewrite E. rewrite bool_decide_true by lia.
  destruct (split_closing _ _ _ E) as [[-> ->]|(block & -> & ->)].
  - pose proof (slice_mid_app opening_delimiter "" ("---" +:+ Str.nl +:+ b)) as S1.
    pose proof (slice_from_app (opening_delimiter +:+ "---" +:+ Str.nl) b) as S2.
    rewrite !sapp_assoc in S2.
    change (Z.of_nat (Str.len "---") + 1)
      with (Z.of_nat (Str.len opening_delimiter + Str.len "")).
    change (Z.of_nat (Str.len "---") + 5)
      with (Z.of_nat (Str.len (opening_delimiter +:+ "---" +:+ Str.nl))).
    change 4 with (Z.of_nat (Str.len opening_delimiter)).
    change ("" +:+ "---" +:+ Str.nl +:+ b) with ("---" +:+ Str.nl +:+ b) in S1.
    by rewrite S1, S2.
  - assert (opening_delimiter +:+ block +:+ closing_delimiter +:+ b
            = opening_delimiter +:+ (block +:+ Str.nl) +:+ "---" +:+ Str.nl +:+ b)
      as Heq.
    { unfold closing_delimiter. f_equal. rewrite !sapp_assoc. done. }
    rewrite Heq.
    pose proof (slice_mid_app opening_delimiter (block +:+ Str.nl)
                  ("---" +:+ Str.nl +:+ b)) as S1.
    pose proof (slice_from_app
                  (opening_delimiter +:+ (block +:+ Str.nl) +:+ "---" +:+ Str.nl)
                  b) as S2.
    rewrite !sapp_assoc in S2.
    replace (Z.of_nat (Str.len (opening_delimiter +:+ block)) + 1)
      with (Z.of_nat (Str.len opening_delimiter + Str.len (block +:+ Str.nl)))
      by (rewrite !slen_app; simpl; lia).
    replace (Z.of_nat (Str.len (opening_delimiter +:+ block)) + 5)
      with (Z.of_nat (Str.len (opening_delimiter +:+ (block +:+ Str.nl)
                               +:+ "---" +:+ Str.nl)))
      by (rewrite !slen_app; simpl; lia).
    change 4 with (Z.of_nat (Str.len opening_delimiter)).
    rewrite !sapp_assoc. rewrite !sapp_assoc in S1.
    rewrite S1, S2.
    change 4%nat with (Str.len opening_delimiter).
    by rewrite sdrop_app.
Qed.

(** The header ends at the first line of three dashes. A block of
    complete lines, none of them three dashes, put between the
    delimiters in front of a body comes back as it was: the block goes
    to the parser, and the body is returned whole, further lines of
    three dashes in it included. *)
Theorem readContents_with_front_matter block body :
  (block = "" ∨ ∃ lines, block = lines +:+ Str.nl) →
  Str.occurs closing_delimiter (opening_delimiter +:+ block +:+ "---") = false →
  readContents host (with_front_matter block body)
  = (fm ← yaml_load host block;
     Ok {| frontMatter := js_or fm (VObj []); mainText := body |}).
Proof.
  intros Hblock Hocc. unfold with_front_matter.
  assert (∃ a, opening_delimiter +:+ block = a +:+ Str.nl) as [a Ea].
  { destruct Hblock as [->|[lines ->]].
    - by exists "---".
    - exists (opening_delimiter +:+ lines). by rewrite sapp_assoc. }
  assert (Str.split_first closing_delimiter
            (opening_delimiter +:+ block +:+ "---" +:+ Str.nl +:+ body)
          = Some (a, body)) as E.
  { rewrite <-(sapp_assoc opening_delimiter), Ea, sapp_assoc.
    change (Str.nl +:+ "---" +:+ Str.nl +:+ body)
      with ((Str.nl +:+ "---") +:+ String "010" "" +:+ body).
    rewrite <-(sapp_assoc (Str.nl +:+ "---")).
    apply (split_first_first (Str.nl +:+ "---") "010" a body).
    rewrite <-(sapp_assoc opening_delimiter), Ea, sapp_assoc in Hocc.
    exact Hocc. }
  rewrite (readContents_split _ _ _ E), <-Ea.
  change 4%nat with (Str.len opening_delimiter). by rewrite sdrop_app.
Qed.

End HeaderRoundTrip.

Lemma readContents_with_front_matter_witness :
  readContents demo_host
    (with_front_matter ("layout: feed.xml" +:+ Str.nl)
       ("intro" +:+ Str.nl +:+ "---" +:+ Str.nl +:+ "more"))
  = Ok {| frontMatter := VObj [("layout", VStr "feed.xml")];
          mainText := "intro" +:+ Str.nl +:+ "---" +:+ Str.nl +:+ "more" |}.
Proof.
  rewrite (readContents_with_front_matter demo_host); [done| |done].
  right. by exists "layout: feed.xml".
Defined.

(** * The file branch of the walk with [ctx] unbound *)

Section UnboundContext.
Context (host : Host).

Lemma readFileSync_run root path st text :
  file_data root (trace st) (norm_path path) = Some text →
  readFileSync root path st = (with_trace st [EvRead path], Ok text).
Proof.
  intros H. unfold readFileSync, emit, mbind, M_bind, get_state, mret, M_ret.
  by rewrite H.
Qed.

(** C4: a file with front matter is never written. The file branch of
    [walkDir] makes the directories of the mirrored path, reads the
    file and asks [getLayout] for its layout, and [getLayout], which
    evaluates the unbound [ctx], throws: where the layout is there, it
    is read and compiled and the call ends in a ReferenceError. The
    line that computes the output path from the extension of the
    layout, and the [writeFileSync] after it, are not reached. *)
Theorem emit_file_unbound_ctx_writes_nothing rm root fname file st text
    contents :
  nothing_rendered st →
  file_data root (trace st) (norm_path file) = Some text →
  readContents host text = Ok contents →
  truthy (frontMatter contents) = true →
  (∃ st' e,
     emit_file host None rm root fname file st = (st', Throw e)
     ∧ nothing_rendered st')
  ∧ (∀ st1 nm source,
       ensureDirectories root ("_site/" +:+ file) st = (st1, Ok ()) →
       layout_name host
         (js_or (field "layout" (frontMatter contents)) (VStr "default.html"))
       = Ok nm →
       file_data root (trace st)
         (norm_path ("_layouts/" +:+ to_string host nm)) = Some source →
       emit_file host None rm root fname file st
       = (with_trace st1
            [EvRead file; EvRead ("_layouts/" +:+ to_string host nm);
             EvCompile source],
          Throw ReferenceError)).
Proof.
  intros Hst Hfile Hc Hfm.
  set (name := js_or (field "layout" (frontMatter contents))
                 (VStr "default.html")).
  assert (∀ st1,
            ensureDirectories root ("_site/" +:+ file) st = (st1, Ok ()) →
            (∀ p, file_data root (trace st1 ++ [EvRead file]) p
                  = file_data root (trace st) p)
            ∧ ∀ st3 e,
                getLayout host None root name (with_trace st1 [EvRead file])
                = (st3, Throw e) →
                emit_file host None rm root fname file st = (st3, Throw e))
    as Hmain.
  { intros st1 E1.
    destruct (ensure_loop_Ok _ _ _ _ _ E1) as (evs & -> & Hevs).
    assert (∀ p, file_data root (trace (with_trace st evs) ++ [EvRead file]) p
                 = file_data root (trace st) p) as Hdata.
    { intros p. cbn [with_trace trace].
      by rewrite file_data_read, file_data_mkdirs. }
    split; [exact Hdata|]. intros st3 e Hlay.
    unfold emit_file. unfold mbind at 1, M_bind. rewrite E1.
    unfold mbind at 1, M_bind.
    rewrite (readFileSync_run root file _ text)
      by (cbn [with_trace trace]; by rewrite file_data_mkdirs).
    unfold mbind at 1, M_bind, lift. rewrite Hc, Hfm.
    unfold mbind at 1, M_bind. rewrite get_truthy by done.
    unfold mbind at 1, M_bind. fold name. by rewrite Hlay. }
  split.
  - destruct (ensureDirectories root ("_site/" +:+ file) st)
      as [st1 [[]|e]] eqn:E1.
    + destruct (Hmain st1 eq_refl) as [_ Hrun].
      assert (nothing_rendered (with_trace st1 [EvRead file])) as Hst2.
      { pose proof (keeps_ensureDirectories root ("_site/" +:+ file) st Hst)
          as [Hl Ht].
        rewrite E1 in Hl, Ht. split; [done|]. cbn [with_trace trace].
        apply Forall_app. split; [done|].
        constructor; [by intros []|constructor]. }
      destruct (getLayout_unbound_throws host root name _ Hst2)
        as [Hst3 [e He]].
      destruct (getLayout host None root name (with_trace st1 [EvRead file]))
        as [st3 [l|e']] eqn:El; [done|].
      exists st3, e'. split; [by apply Hrun|exact Hst3].
    + exists st1, e. split.
      * unfold emit_file. unfold mbind at 1, M_bind. by rewrite E1.
      * pose proof (keeps_ensureDirectories root ("_site/" +:+ file) st Hst)
          as H1.
        by rewrite E1 in H1.
  - intros st1 nm source E1 Hnm Hsrc.
    destruct (Hmain st1 E1) as [Hdata Hrun].
    apply Hrun.
    rewrite (getLayout_miss host None root name nm source); [|done| |].
    + unfold with_trace. cbn [trace layouts partials].
      by rewrite <-app_assoc.
    + destruct (ensure_loop_Ok _ _ _ _ _ E1) as (evs & -> & _).
      destruct Hst as [Hl _]. cbn [with_trace layouts]. rewrite Hl.
      apply lookup_empty.
    + cbn [with_trace trace]. by rewrite Hdata.
Qed.

End UnboundContext.

Lemma emit_file_unbound_ctx_writes_nothing_witness :
  emit_file demo_host None id demo_root "about.md" "./about.md" initial_state
  = (with_trace initial_state
       [EvMkdir "_site/"; EvRead "./about.md"; EvRead "_layouts/feed.xml";
        EvCompile "FEED"],
     Throw ReferenceError).
Proof.
  destruct (emit_file_unbound_ctx_writes_nothing demo_host id demo_root
              "about.md" "./about.md" initial_state
              (with_front_matter ("layout: feed.xml" +:+ Str.nl) "me")
              {| frontMatter := VObj [("layout", VStr "feed.xml")];
                 mainText := "me" |})
    as [_ H]; [by split; [|constructor]|by vm_compute..|].
  rewrite (H (with_trace initial_state [EvMkdir "_site/"])
             (VStr "feed.xml") "FEED"); [done|by vm_compute..].
Defined.

(** * Where a rendered file would be written *)



Section RenderedPath.
Context (host : Host).


End RenderedPath.

